(** * legislator-election-24: seat layout, grid layout, Jenks breaks, medians

    A shallow embedding of the numeric core of the Vue/D3 views of the
    repository: the parliament, map, bar, rectangle and seat-map views,
    the navigation bar and the photo script.  JavaScript numbers are
    IEEE-754 binary64 values and are modelled by Rocq's primitive
    [float]; numbers that the code only uses as array indices, loop
    counters or 1-based ranks are modelled by [Z].
    [Math.cos] and [Math.sin] are implementation-approximated in
    ECMAScript and are taken as parameters. *)

From Stdlib Require Import ZArith List Bool Lia Floats.
From Stdlib Require Import Permutation Sorted.
From Stdlib Require String DecimalString Finite.
From Stdlib Require Reals Lra.
Import ListNotations.
Import String.StringSyntax.
Delimit Scope string_scope with string.
#[local] Open Scope Z_scope.


(* ================================================================== *)
(** ** JavaScript numbers and the library calls the views rely on      *)
(* ================================================================== *)

Module JS.

(** [Math.PI], the double nearest to pi. *)
Definition Math_PI : float := 0x1.921fb54442d18p+1%float.

Definition Math_abs (v : float) : float := PrimFloat.abs v.
Definition Math_sqrt (v : float) : float := PrimFloat.sqrt v.

(** [Number.isFinite]. *)
Definition Number_isFinite (v : float) : bool := is_finite v.

(** ToBoolean on a number: [NaN], [+0] and [-0] are falsy. *)
Definition truthy (v : float) : bool := negb (is_nan v || is_zero v).

(** [a || b] on numbers. *)
Definition or_else (a b : float) : float := if truthy a then a else b.

(** The Number value of a mathematical integer (round to nearest even;
    exact below 2^53). *)
Definition num_of_Z (z : Z) : float :=
  SF2Prim (binary_normalize prec emax z 0 false).

(** [Math.round]: the nearest integer, ties towards +infinity; the sign
    of a zero result follows the argument. *)
Definition Math_round (v : float) : float :=
  match Prim2SF v with
  | S754_finite s m e =>
      if (0 <=? e)%Z then v
      else
        let n := ((cond_Zopp s (2 * Z.pos m) + 2 ^ (- e)) / 2 ^ (1 - e))%Z in
        if (n =? 0)%Z then (if s then neg_zero else zero) else num_of_Z n
  | _ => v
  end.

(** [Math.max] and [Math.min] of two numbers: [NaN] is contagious and
    [+0] is larger than [-0]. *)
Definition Math_max (a b : float) : float :=
  if is_nan a || is_nan b then nan
  else if (a <? b)%float then b
  else if (b <? a)%float then a
  else if get_sign a then b else a.

Definition Math_min (a b : float) : float :=
  if is_nan a || is_nan b then nan
  else if (a <? b)%float then a
  else if (b <? a)%float then b
  else if get_sign a then a else b.

(** Number of iterations of [for (let i = 0; i < c; i++)].  [None] when
    the loop does not terminate ([c] is [+Infinity], or so large that
    [i++] stops changing [i]). *)
Definition loopCount (c : float) : option nat :=
  match Prim2SF c with
  | S754_finite false m e =>
      let n := (if 0 <=? e then Z.pos m * 2 ^ e
                else (Z.pos m + 2 ^ (- e) - 1) / 2 ^ (- e))%Z in
      if (n <=? 2 ^ 53)%Z then Some (Z.to_nat n) else None
  | S754_infinity false => None
  | _ => Some 0%nat
  end.

(** [d3.sum(values)] of d3-array: a left-to-right sum that skips the
    entries that are [NaN] or zero ([if (value = +value) sum += value]). *)
Definition d3_sum (values : list float) : float :=
  fold_left (fun sum value => if truthy value then (sum + value)%float else sum)
            values 0%float.

(** [Array.prototype.sort(compareFn)] is stable: an element [a] is moved
    behind a later element [b] exactly when [compareFn(a, b) > 0] (a
    [NaN] result counts as 0).  This is the order every engine produces
    for a consistent comparator; for an inconsistent one ECMAScript leaves
    the order to the implementation. *)
Section Sort.
Variable A : Type.
Variable compareFn : A -> A -> float.

Definition after (a b : A) : bool := (0 <? compareFn a b)%float.

Fixpoint insert (a : A) (l : list A) : list A :=
  match l with
  | [] => [a]
  | b :: l' => if after a b then b :: insert a l' else a :: l
  end.

Definition sort (l : list A) : list A := fold_right insert [] l.
End Sort.
Arguments after {A} compareFn a b.
Arguments insert {A} compareFn a l.
Arguments sort {A} compareFn l.

(** Reading an array at a JavaScript index: [undefined] ([None]) out of
    range. *)
Definition get {A} (l : list A) (i : Z) : option A :=
  if (i <? 0)%Z then None else nth_error l (Z.to_nat i).

(** Writing an array at an index inside its bounds. *)
Fixpoint set_nth {A} (l : list A) (i : nat) (v : A) : list A :=
  match l, i with
  | [], _ => []
  | _ :: l', O => v :: l'
  | a :: l', S i' => a :: set_nth l' i' v
  end.

(** The integers [lo, lo+1, ..., hi-1]. *)
Definition range (lo hi : Z) : list Z :=
  map (fun k => (lo + Z.of_nat k)%Z) (seq 0 (Z.to_nat (hi - lo))).

End JS.

(* ================================================================== *)
(** ** Parliament view: seat coordinates                               *)
(* ================================================================== *)

Module Parliament.
Import JS.

(** A seat as pushed by the generation loop. *)
Record SeatCoord := mkSeatCoord {
  x : float;
  y : float;
  r : float;
  theta : float;
  row : float
}.

(** A seat after [seats.forEach((seat, index) => seat.number = index + 1)]. *)
Record Seat := mkSeat {
  pos : SeatCoord;
  number : Z
}.

Section Generate.
Variables Math_cos Math_sin : float -> float.

(** [radii]: [innerRadius + i * step] for [i < rowCount]. *)
Definition radii (rowCount : Z) (innerRadius outerRadius : float) : list float :=
  let step := ((outerRadius - innerRadius) / num_of_Z (rowCount - 1))%float in
  map (fun i => (innerRadius + num_of_Z (Z.of_nat i) * step)%float)
      (seq 0 (Z.to_nat rowCount)).

(** [arcLengths.map((len, i) => ...)] with the running [seatsAllocated]. *)
Fixpoint rowCounts (totalSeats rowCount : Z) (totalArcLength : float)
         (arcLengths : list float) (i : Z) (seatsAllocated : float)
  : list float :=
  match arcLengths with
  | [] => []
  | len :: rest =>
      if (i =? rowCount - 1)%Z then
        (num_of_Z totalSeats - seatsAllocated)%float
          :: rowCounts totalSeats rowCount totalArcLength rest (i + 1) seatsAllocated
      else
        let count :=
          Math_round (num_of_Z totalSeats * (len / totalArcLength))%float in
        count
          :: rowCounts totalSeats rowCount totalArcLength rest (i + 1)
                       (seatsAllocated + count)%float
  end.

(** The seats of one row. *)
Definition rowSeats (count : float) (rowIndex : nat) (rad : float)
  : option (list SeatCoord) :=
  let angleStep := (Math_PI / or_else (count - 1) 1)%float in
  match loopCount count with
  | None => None
  | Some n =>
      Some (map (fun i =>
                   let angle := (Math_PI - num_of_Z (Z.of_nat i) * angleStep)%float in
                   {| x := (rad * Math_cos angle)%float;
                      y := (rad * Math_sin angle)%float;
                      r := rad;
                      theta := angle;
                      row := num_of_Z (Z.of_nat rowIndex) |})
                (seq 0 n))
  end.

(** [rowCounts.forEach((count, rowIndex) => ...)]: rows are pushed from
    the inner one outwards.  [rowCounts] and [radii] have the same
    length, so [radii[rowIndex]] is always defined. *)
Fixpoint pushRows (counts : list float) (rowIndex : nat) (rads : list float)
  : option (list SeatCoord) :=
  match counts with
  | [] => Some []
  | count :: rest =>
      match rowSeats count rowIndex (nth rowIndex rads nan) with
      | None => None
      | Some row =>
          match pushRows rest (S rowIndex) rads with
          | None => None
          | Some more => Some (row ++ more)
          end
      end
  end.

(** [(a, b) => b.theta - a.theta]. *)
Definition byAngle (a b : SeatCoord) : float := (theta b - theta a)%float.

(** [seats.forEach((seat, index) => { seat.number = index + 1 })]. *)
Fixpoint numberFrom (index : Z) (seats : list SeatCoord) : list Seat :=
  match seats with
  | [] => []
  | s :: rest => {| pos := s; number := index + 1 |} :: numberFrom (index + 1) rest
  end.

(** [generateParliamentSeats(totalSeats, rowCount, innerRadius, outerRadius)];
    [None] when a row loop does not terminate. *)
Definition generateParliamentSeats (totalSeats rowCount : Z)
           (innerRadius outerRadius : float) : option (list Seat) :=
  let rads := radii rowCount innerRadius outerRadius in
  let arcLengths := map (fun rad => (Math_PI * rad)%float) rads in
  let totalArcLength := d3_sum arcLengths in
  let counts := rowCounts totalSeats rowCount totalArcLength arcLengths 0 0%float in
  match pushRows counts 0 rads with
  | None => None
  | Some seats => Some (numberFrom 0 (sort byAngle seats))
  end.

End Generate.

(* ---------------------------------------------------------------- *)
(** *** Party blocks                                                 *)
(* ---------------------------------------------------------------- *)

Inductive PartyId := IND | DPP | KMT.

Definition PartyId_eqb (a b : PartyId) : bool :=
  match a, b with
  | IND, IND | DPP, DPP | KMT, KMT => true
  | _, _ => false
  end.

(** An entry of [partyData]. *)
Module Party.
Record t := mk {
  id : PartyId;
  name : String.string;
  count : Z;
  color : String.string
}.
End Party.

(** [partyData]: independents in the centre, DPP to the left, KMT to
    the right. *)
Definition partyData : list Party.t :=
  [ Party.mk IND "無黨籍" 2 "#95A5A6";
    Party.mk DPP "民進黨" 38 "#6BCB77";
    Party.mk KMT "國民黨" 39 "#4D96FF" ]%string.

(** [{...seatCoords[i], party, partyName, color, partySeatNumber}]. *)
Record AssignedSeat := mkAssigned {
  seat : Seat;
  party : PartyId;
  partyName : String.string;
  color : String.string;
  partySeatNumber : Z
}.

Definition assign (s : Seat) (p : Party.t) (n : Z) : AssignedSeat :=
  {| seat := s; party := Party.id p; partyName := Party.name p;
     color := Party.color p; partySeatNumber := n |}.

(** [finalData]: [null] ([None]) marks a seat that nobody took yet. *)
Definition FinalData := list (option AssignedSeat).

Section Assign.
Variable seatCoords : list Seat.

(** Body of the first loop: the centre block is written at
    [indStartIndex + i] when that index is inside the array. *)
Definition placeCenter (indParty : Party.t) (indStartIndex : Z)
           (finalData : FinalData) (i : Z) : FinalData :=
  let seatIndex := indStartIndex + i in
  if (0 <=? seatIndex) && (seatIndex <? Z.of_nat (length seatCoords)) then
    match get seatCoords seatIndex with
    | Some s => set_nth finalData (Z.to_nat seatIndex) (Some (assign s indParty (i + 1)))
    | None => finalData
    end
  else finalData.

(** Body of the second and third loops: a seat is taken when it is
    still [null] and the party has seats left; the state is the array
    and the party's running seat number.  [finalData] and [seatCoords]
    have the same length, so [seatCoords[i]] exists whenever
    [finalData[i]] is [null]; an index outside the array reads
    [undefined], which is not [null]. *)
Definition fill (p : Party.t) (st : FinalData * Z) (i : Z) : FinalData * Z :=
  let '(finalData, seatNumber) := st in
  match get finalData i, get seatCoords i with
  | Some None, Some s =>
      if seatNumber <=? Party.count p then
        (set_nth finalData (Z.to_nat i) (Some (assign s p seatNumber)), seatNumber + 1)
      else st
  | _, _ => st
  end.

(** The three loops, from a given start index of the centre block.
    [partyData[k].count] of a missing entry is a [TypeError] ([None]). *)
Definition assignFrom (parties : list Party.t) (indStartIndex : Z)
  : option FinalData :=
  match parties with
  | indParty :: dppParty :: kmtParty :: _ =>
      let n := Z.of_nat (length seatCoords) in
      let finalData0 : FinalData := repeat None (length seatCoords) in
      let finalData1 :=
        fold_left (placeCenter indParty indStartIndex)
                  (range 0 (Party.count indParty)) finalData0 in
      let '(finalData2, _) :=
        fold_left (fill dppParty) (rev (range 0 indStartIndex)) (finalData1, 1) in
      let '(finalData3, _) :=
        fold_left (fill kmtParty)
                  (range (indStartIndex + Party.count indParty) n) (finalData2, 1) in
      Some finalData3
  | _ => None
  end.

(** As in [drawParliamentSeats]: the centre block starts one seat left
    of the middle. *)
Definition assignParties (parties : list Party.t) : option FinalData :=
  let centerIndex := Z.of_nat (length seatCoords) / 2 in
  let indStartIndex := centerIndex - 1 in
  assignFrom parties indStartIndex.
End Assign.

(** [finalData.filter((d) => d !== null)]. *)
Fixpoint filteredData (finalData : FinalData) : list AssignedSeat :=
  match finalData with
  | [] => []
  | Some d :: rest => d :: filteredData rest
  | None :: rest => filteredData rest
  end.

(** [partyGroups[partyId]]: the seats of one party, in seat order. *)
Definition partyGroup (partyId : PartyId) (data : list AssignedSeat)
  : list AssignedSeat :=
  filter (fun s => PartyId_eqb (party s) partyId) data.

(* ---------------------------------------------------------------- *)
(** *** Candidates                                                   *)
(* ---------------------------------------------------------------- *)

(** A CSV row after [loadCandidateData]. *)
Record Candidate := mkCandidate {
  partyId : PartyId;
  candidateName : String.string;   (* 候選人姓名 *)
  votes : float                    (* 得票數 *)
}.

(** The seat with the fields written by the binding loop. *)
Record BoundSeat := mkBound {
  assigned : AssignedSeat;
  boundName : String.string;       (* seat.candidateName *)
  rank : Z;
  boundVotes : float               (* seat.votes *)
}.

Definition centerAngle : float := (Math_PI / 2)%float.

Definition angleOf (a : AssignedSeat) : float := theta (pos (seat a)).
Definition rowOf (a : AssignedSeat) : float := row (pos (seat a)).

(** Angular distance to the top of the hemicycle. *)
Definition dist (a : AssignedSeat) : float :=
  Math_abs (angleOf a - centerAngle)%float.

(** The comparator of [seats.sort] inside a party group. *)
Definition byRowThenCenter (a b : AssignedSeat) : float :=
  if negb (rowOf a =? rowOf b)%float then (rowOf b - rowOf a)%float
  else (dist a - dist b)%float.

(** [`編號${index + 1}`]. *)
Definition placeholderName (index : Z) : String.string :=
  String.append "編號"%string
    (DecimalString.NilZero.string_of_int (Z.to_int (index + 1))).

(** [seats.forEach((seat, index) => ...)] over the sorted group. *)
Fixpoint bindFrom (index : nat) (seats : list AssignedSeat)
         (partyCandidates : list Candidate) : list BoundSeat :=
  match seats with
  | [] => []
  | s :: rest =>
      (match nth_error partyCandidates index with
       | Some candidate =>
           {| assigned := s; boundName := candidateName candidate;
              rank := Z.of_nat index + 1; boundVotes := votes candidate |}
       | None =>
           {| assigned := s; boundName := placeholderName (Z.of_nat index);
              rank := Z.of_nat index + 1; boundVotes := 0%float |}
       end) :: bindFrom (S index) rest partyCandidates
  end.

(** One iteration of [Object.keys(partyGroups).forEach]. *)
Definition bindGroup (partyId' : PartyId) (data : list AssignedSeat)
           (candidates : list Candidate) : list BoundSeat :=
  let seats := sort byRowThenCenter (partyGroup partyId' data) in
  let partyCandidates :=
    filter (fun c => PartyId_eqb (partyId c) partyId') candidates in
  bindFrom 0 seats partyCandidates.

(** The comparator of [data.sort] in [loadCandidateData]. *)
Definition partyOrder (p : PartyId) : Z :=
  match p with IND => 0 | DPP => 1 | KMT => 2 end.

Definition byPartyThenVotes (a b : Candidate) : float :=
  let partyDiff := partyOrder (partyId a) - partyOrder (partyId b) in
  if negb (partyDiff =? 0) then num_of_Z partyDiff
  else (votes b - votes a)%float.

Definition loadCandidateData (rows : list Candidate) : list Candidate :=
  sort byPartyThenVotes rows.

(* ---------------------------------------------------------------- *)
(** *** Circle radius                                                *)
(* ---------------------------------------------------------------- *)

(** The radius formula [sqrt(votes / (areaDivisor * PI))], written once
    over an arbitrary carrier so that it can be read both in binary64
    and in the reals. *)
Section Formula.
Variable N : Type.
Variables (Ndiv Nmul : N -> N -> N) (Nsqrt : N -> N) (Npi areaDivisor : N).
Definition radiusFormula (v : N) : N := Nsqrt (Ndiv v (Nmul areaDivisor Npi)).
End Formula.
Arguments radiusFormula {N} Ndiv Nmul Nsqrt Npi areaDivisor v.

Definition areaDivisor : float := 18%float.

Definition baseRadius (maxRadius : float) : float :=
  Math_min (maxRadius / 14)%float 18%float.

(** [seat.radius], from [seat.votes]. *)
Definition seatRadius (baseRadius' votes' : float) : float :=
  if truthy votes' && (0 <? votes')%float then
    radiusFormula PrimFloat.div PrimFloat.mul Math_sqrt Math_PI areaDivisor votes'
  else baseRadius'.

End Parliament.

(** The radius formula read over the real numbers. *)
Module IdealRadius.
Import Reals.
#[local] Open Scope R_scope.

Definition seatRadiusR (v : R) : R :=
  Parliament.radiusFormula Rdiv Rmult sqrt PI 18 v.
End IdealRadius.

(* ================================================================== *)
(** ** Map view: square grid layout                                    *)
(* ================================================================== *)

Module Grid.
Import JS.

(** The two properties of a GeoJSON feature that the layout reads;
    [None] stands for a value that [Number.isFinite] rejects (missing,
    not a number, or not finite).  Grid coordinates are integers. *)
Record Feature := mkFeature {
  grid_x : option Z;
  grid_y : option Z
}.

Record GridLayoutConfig := mkConfig {
  minX : Z;
  maxX : Z;
  minY : Z;
  maxY : Z;
  cellSize : float;
  offsetX : float;
  offsetY : float
}.

(** [features.filter(...)], keeping the coordinates of the kept cells. *)
Fixpoint gridsWithXY (features : list Feature) : list (Z * Z) :=
  match features with
  | [] => []
  | f :: rest =>
      match grid_x f, grid_y f with
      | Some gx, Some gy => (gx, gy) :: gridsWithXY rest
      | _, _ => gridsWithXY rest
      end
  end.

(** [d3.min] and [d3.max] of a non-empty array of integers. *)
Definition d3_min (first : Z) (others : list Z) : Z := fold_left Z.min others first.
Definition d3_max (first : Z) (others : list Z) : Z := fold_left Z.max others first.

(** [(svg ? +svg.attr(...) : null) || getBoundingClientRect().(...)]. *)
Definition svgSize (attr : option float) (rectSize : float) : float :=
  match attr with
  | Some v => or_else v rectSize
  | None => rectSize
  end.

Definition padding : float := 40%float.

Definition available (size : float) : float :=
  Math_max (size - padding * 2)%float 0%float.

Definition rangeOf (hi lo : Z) : Z := Z.max (hi - lo + 1) 1.

Definition cellSizeOf (svgWidth svgHeight : float) (rangeX rangeY : Z) : float :=
  Math_min (available svgWidth / num_of_Z rangeX)%float
           (available svgHeight / num_of_Z rangeY)%float.

(** The layout part of [drawHexGridOnly]: the value left in
    [gridLayoutConfig], [None] for [null]. *)
Definition drawHexGridOnly (features : list Feature)
           (svgAttr : option (float * float)) (rectWidth rectHeight : float)
  : option GridLayoutConfig :=
  match gridsWithXY features with
  | [] => None
  | g :: rest =>
      let minX := d3_min (fst g) (map fst rest) in
      let maxX := d3_max (fst g) (map fst rest) in
      let minY := d3_min (snd g) (map snd rest) in
      let maxY := d3_max (snd g) (map snd rest) in
      let svgWidth := svgSize (option_map fst svgAttr) rectWidth in
      let svgHeight := svgSize (option_map snd svgAttr) rectHeight in
      if negb (Number_isFinite svgWidth) || negb (Number_isFinite svgHeight)
         || (svgWidth =? 0)%float || (svgHeight =? 0)%float
      then None
      else
        let rangeX := rangeOf maxX minX in
        let rangeY := rangeOf maxY minY in
        let cellSize := cellSizeOf svgWidth svgHeight rangeX rangeY in
        if negb (Number_isFinite cellSize) || (cellSize <=? 0)%float then None
        else
          let actualWidth := (cellSize * num_of_Z rangeX)%float in
          let actualHeight := (cellSize * num_of_Z rangeY)%float in
          Some {| minX := minX; maxX := maxX; minY := minY; maxY := maxY;
                  cellSize := cellSize;
                  offsetX := ((svgWidth - actualWidth) / 2)%float;
                  offsetY := ((svgHeight - actualHeight) / 2)%float |}
  end.

(** Pixel position of a cell: the [x] and [y] attributes of its [rect]. *)
Definition cellX (c : GridLayoutConfig) (gx : Z) : float :=
  (offsetX c + num_of_Z (gx - minX c) * cellSize c)%float.
Definition cellY (c : GridLayoutConfig) (gy : Z) : float :=
  (offsetY c + num_of_Z (maxY c - gy) * cellSize c)%float.

End Grid.

(* ================================================================== *)
(** ** Map view: Jenks natural breaks                                  *)
(* ================================================================== *)

Module Jenks.
Import JS.

(** A call either returns or throws a [TypeError]. *)
Inductive completion (A : Type) : Type :=
| Return (a : A)
| TypeError.
Arguments Return {A} a.
Arguments TypeError {A}.

(** Two-dimensional arrays.  A read outside the array yields
    [undefined]; where the code does arithmetic on it ([d]) this is
    [NaN]. *)
Definition read2 {A} (M : list (list A)) (i j : Z) (d : A) : A :=
  match get M i with
  | Some row => match get row j with Some v => v | None => d end
  | None => d
  end.

(** [M[i][j] = v] for a cell that exists.  All writes of the function are
    inside the arrays when [nClasses >= 1]; with [nClasses <= 0] the
    writes to column 1 would grow a row, but nothing reads them and the
    extraction loop does not run. *)
Definition write2 {A} (M : list (list A)) (i j : Z) (v : A) : list (list A) :=
  match get M i with
  | Some row =>
      if (0 <=? j)%Z then set_nth M (Z.to_nat i) (set_nth row (Z.to_nat j) v) else M
  | None => M
  end.

(** [a[i] = v] on a one-dimensional array, which grows when [i] is past
    its end; the holes read [undefined]. *)
Definition writeGrow {A} (a : list (option A)) (i : nat) (v : option A)
  : list (option A) :=
  if (i <? length a)%nat then set_nth a i v
  else a ++ repeat None (i - length a) ++ [v].

Definition byValue (a b : float) : float := (a - b)%float.

Definition Matrix := list (list float).
Definition Limits := list (list Z).

(** The initialisation of one class column: [matrix[0][i] = 1],
    [lowerClassLimit[0][i] = 0], [matrix[j][i] = Infinity] below. *)
Definition initColumn (dataLength : Z) (st : Matrix * Limits) (i : Z)
  : Matrix * Limits :=
  let '(matrix, lowerClassLimit) := st in
  let matrix := write2 matrix 0 i 1%float in
  let lowerClassLimit := write2 lowerClassLimit 0 i 0 in
  (fold_left (fun m j => write2 m j i infinity) (range 1 (dataLength + 1)) matrix,
   lowerClassLimit).

(** The innermost loop over the classes [j = 2 .. nClasses]; the test
    [matrix[l][j] >= variance + matrix[i4][j - 1]] is written with the
    operands swapped. *)
Definition relax (l i4 lowerClassLimitIndex : Z) (variance : float)
           (st : Matrix * Limits) (j : Z) : Matrix * Limits :=
  let '(matrix, lowerClassLimit) := st in
  let candidate := (variance + read2 matrix i4 (j - 1) nan)%float in
  if (candidate <=? read2 matrix l j nan)%float then
    (write2 matrix l j candidate, write2 lowerClassLimit l j lowerClassLimitIndex)
  else st.

(** The running sums of the loop over [m]. *)
Record Sums := mkSums {
  sum : float;
  sumSquares : float;
  w : float;
  variance : float
}.

Definition innerStep (sortedData : list float) (nClasses l : Z)
           (st : Sums * (Matrix * Limits)) (m : Z) : Sums * (Matrix * Limits) :=
  let '(s, tables) := st in
  let lowerClassLimitIndex := l - m + 1 in
  let val := match get sortedData (lowerClassLimitIndex - 1) with
             | Some v => v
             | None => nan
             end in
  let w' := (w s + 1)%float in
  let sum' := (sum s + val)%float in
  let sumSquares' := (sumSquares s + val * val)%float in
  let variance' := (sumSquares' - (sum' * sum') / w')%float in
  let i4 := lowerClassLimitIndex - 1 in
  let tables' :=
    if negb (i4 =? 0) then
      fold_left (relax l i4 lowerClassLimitIndex variance') (range 2 (nClasses + 1)) tables
    else tables in
  (mkSums sum' sumSquares' w' variance', tables').

(** One iteration of the loop over [l]; [variance] is declared outside
    the loop and survives from one iteration to the next. *)
Definition outerStep (sortedData : list float) (nClasses : Z)
           (st : float * (Matrix * Limits)) (l : Z) : float * (Matrix * Limits) :=
  let '(variance0, tables) := st in
  let '(s, (matrix, lowerClassLimit)) :=
    fold_left (innerStep sortedData nClasses l) (range 0 (l + 1))
              (mkSums 0%float 0%float 0%float variance0, tables) in
  (variance s, (write2 matrix l 1 (variance s), write2 lowerClassLimit l 1 1)).

(** One iteration of the extraction loop.  [k] is [None] once it has
    become [NaN]. *)
Definition extractStep (sortedData : list float) (lowerClassLimit : Limits)
           (st : completion (list (option float) * option Z)) (j : Z)
  : completion (list (option float) * option Z) :=
  match st with
  | TypeError => TypeError
  | Return (classMarkers, k) =>
      match (match k with Some k' => get lowerClassLimit k' | None => None end) with
      | None => TypeError
      | Some row =>
          match get row j with
          | Some limit =>
              let id := limit - 2 in
              Return (writeGrow classMarkers (Z.to_nat (j - 1)) (get sortedData (id + 1)),
                      Some (limit - 1))
          | None =>
              Return (writeGrow classMarkers (Z.to_nat (j - 1)) None, None)
          end
      end
  end.

(** [jenksNaturalBreaks(data, nClasses)]; an entry [None] of the result
    is [undefined]. *)
Definition jenksNaturalBreaks (data : list float) (nClasses : Z)
  : completion (list (option float)) :=
  match data with
  | [] => Return []
  | _ =>
      let sortedData := sort byValue data in
      let dataLength := Z.of_nat (length sortedData) in
      let nClasses := if dataLength <? nClasses then dataLength else nClasses in
      let rows := Z.to_nat (dataLength + 1) in
      let cols := Z.to_nat (nClasses + 1) in
      let matrix : Matrix := repeat (repeat 0%float cols) rows in
      let lowerClassLimit : Limits := repeat (repeat 0 cols) rows in
      let tables :=
        fold_left (initColumn dataLength) (range 1 (nClasses + 1))
                  (matrix, lowerClassLimit) in
      let '(_, (_, lowerClassLimit)) :=
        fold_left (outerStep sortedData nClasses) (range 0 dataLength)
                  (0%float, tables) in
      match fold_left (extractStep sortedData lowerClassLimit)
                      (rev (range 1 (nClasses + 1)))
                      (Return ([], Some dataLength)) with
      | Return (classMarkers, _) => Return classMarkers
      | TypeError => TypeError
      end
  end.

End Jenks.

(* ================================================================== *)
(** ** Bar view: vote statistics                                       *)
(* ================================================================== *)

Module Bar.
Import JS.

(** [(a, b) => a - b]. *)
Definition ascending (a b : float) : float := (a - b)%float.

(** [sorted[i]] where the value is used as a number. *)
Definition at_ (sorted : list float) (i : Z) : float :=
  match get sorted i with
  | Some v => v
  | None => nan
  end.

(** [leftMedianVotes] and [dppMedianVotes], from the group's votes. *)
Definition median (votes : list float) : float :=
  let sortedVotes := sort ascending votes in
  let len := Z.of_nat (length sortedVotes) in
  if 0 <? len then
    if len mod 2 =? 0 then
      ((at_ sortedVotes (len / 2 - 1) + at_ sortedVotes (len / 2)) / 2)%float
    else at_ sortedVotes (len / 2)
  else 0%float.

(** [candidates.map((d) => d.得票數 || 0)]. *)
Definition votesOf (group : list Parliament.Candidate) : list float :=
  map (fun d => or_else (Parliament.votes d) 0%float) group.

Definition ofParty (p : Parliament.PartyId) (candidates : list Parliament.Candidate) :=
  filter (fun c => Parliament.PartyId_eqb (Parliament.partyId c) p) candidates.

(** The two groups of the chart. *)
Definition leftSideCandidates (candidates : list Parliament.Candidate) :=
  sort (fun a b => (Parliament.votes b - Parliament.votes a)%float)
       (firstn 39 (ofParty Parliament.KMT candidates)
        ++ firstn 2 (ofParty Parliament.IND candidates)).

Definition dppCandidates (candidates : list Parliament.Candidate) :=
  sort (fun a b => (Parliament.votes a - Parliament.votes b)%float)
       (firstn 38 (ofParty Parliament.DPP candidates)).

Definition leftMedianVotes (candidates : list Parliament.Candidate) : float :=
  median (votesOf (leftSideCandidates candidates)).

Definition dppMedianVotes (candidates : list Parliament.Candidate) : float :=
  median (votesOf (dppCandidates candidates)).

End Bar.

(* ================================================================== *)
(** ** Vocabulary of the statements                                    *)
(* ================================================================== *)

(** Predicates and orders in which the properties of the views are
    stated. *)

Module Spec.
Import JS Parliament.

(** [a <= b] on numbers. *)
Definition leF (a b : float) : Prop := (a <=? b)%float = true.

(** A value that cannot serve as a cell size: [NaN], zero or negative. *)
Definition unusable (v : float) : Prop :=
  is_nan v = true \/ (v <=? 0)%float = true.

(** A seat whose radius and Cartesian coordinates are all [NaN]. *)
Definition lostRadius (s : Seat) : Prop :=
  r (pos s) = nan /\ x (pos s) = nan /\ y (pos s) = nan.

(** Left-to-right order of the hemicycle: the angle does not increase. *)
Definition leftToRight (a b : SeatCoord) : Prop :=
  (theta b <=? theta a)%float = true.

(** The block a seat index falls into when the centre block starts at
    [s]: the second party left of it, the first party on
    [s .. s + count - 1], the third party right of it. *)
Definition blockOf (ind dpp kmt : Party.t) (s : Z) (i : Z) (seat : Seat)
  : AssignedSeat :=
  if i <? s then assign seat dpp (s - i)
  else if i <? s + Party.count ind then assign seat ind (i - s + 1)
  else assign seat kmt (i - s - Party.count ind + 1).

Definition sumCounts (parties : list Party.t) : Z :=
  fold_right (fun p acc => Party.count p + acc) 0 parties.

Definition isNull (d : option AssignedSeat) : bool :=
  match d with None => true | Some _ => false end.

(** Number of [null] entries of [finalData]. *)
Definition nullCount (finalData : FinalData) : nat :=
  length (filter isNull finalData).

(** Order inside a party group: outer rows first; inside a row, the seat
    nearest to the top first. *)
Definition inOrder (a b : AssignedSeat) : Prop :=
  (rowOf b <? rowOf a)%float = true
  \/ ((rowOf a =? rowOf b)%float = true /\ (dist a <=? dist b)%float = true).

(** A seat whose row and angle are numbers. *)
Definition numeric (a : AssignedSeat) : Prop :=
  is_nan (rowOf a) = false /\ is_nan (angleOf a) = false.

(** A candidate whose vote count is a number. *)
Definition numericVotes (c : Candidate) : Prop := is_nan (votes c) = false.

(** Order of [loadCandidateData]: party order first, then more votes
    first. *)
Definition loadOrder (a b : Candidate) : Prop :=
  partyOrder (partyId a) < partyOrder (partyId b)
  \/ (partyOrder (partyId a) = partyOrder (partyId b)
      /\ (votes b <=? votes a)%float = true).

Definition moreVotesFirst (a b : Candidate) : Prop :=
  (votes b <=? votes a)%float = true.

(** The row [lowerClassLimit[dataLength]] of the Jenks tables. *)
Definition lastRow (sortedData : list float) (L : Jenks.Limits) : option (list Z) :=
  nth_error L (length sortedData).

End Spec.

(** Concrete inputs on which the theorems are exercised. *)

Module Samples.
Import JS Parliament.

(** The 79 seats of the view (the stand-ins for cosine and sine only
    affect [x] and [y]). *)
Definition seats79 : list Seat :=
  match generateParliamentSeats (fun a => a) (fun a => a) 79 5 60 260 with
  | Some seats => seats
  | None => []
  end.

Definition dummySeat (k : Z) : Seat :=
  {| pos := {| x := 0; y := 0; r := 0; theta := 0; row := 0 |}; number := k |}.

Definition fiveSeats : list Seat := map dummySeat [1; 2; 3; 4; 5].

Definition oneEach : list Party.t :=
  [ Party.mk IND "IND" 1 "grey"; Party.mk DPP "DPP" 1 "green";
    Party.mk KMT "KMT" 1 "blue" ]%string.

Definition sampleSeats : list Seat :=
  match generateParliamentSeats (fun a => a) (fun a => a) 5 2 60 260 with
  | Some seats => seats
  | None => []
  end.

Definition sampleData : list AssignedSeat :=
  match assignParties sampleSeats
          [ Party.mk IND "IND" 1 "grey"; Party.mk DPP "DPP" 1 "green";
            Party.mk KMT "KMT" 3 "blue" ]%string with
  | Some finalData => filteredData finalData
  | None => []
  end.

Definition sampleRows : list Candidate :=
  [ mkCandidate KMT "C" 70000; mkCandidate DPP "B" 80000;
    mkCandidate KMT "A" 90000; mkCandidate IND "D" 60000 ]%string%float.

Definition fourCells : list Grid.Feature :=
  [ Grid.mkFeature (Some 0) (Some 0); Grid.mkFeature (Some 1) (Some 0);
    Grid.mkFeature (Some 0) (Some 1); Grid.mkFeature (Some 1) (Some 1) ].

Definition threeGroups : list float := [1; 2; 3; 10; 11; 12; 50; 51; 52]%float.

End Samples.

(** Decimal constants of the source denote the nearest binary64 value,
    as in JavaScript. *)
Set Warnings "-inexact-float".

(* ================================================================== *)
(** ** Labels: the short name of a candidate                           *)
(* ================================================================== *)

(** [getShortName] is defined, with the same body, in the parliament
    view and in the bar, rectangle and treemap views.  A JavaScript
    string is a sequence of UTF-16 code units and a [String.string] the
    sequence of its UTF-8 bytes; a space is a single unit in both and no
    other character contains the byte [0x20], so the first space is the
    first unit in one encoding exactly when it is in the other, and the
    text before it is the same. *)

Module Names.
Import Ascii.AsciiSyntax.
#[local] Delimit Scope char_scope with char.

(** [name.indexOf(' ')]: the position of the first space, [-1] when
    there is none. *)
Fixpoint indexOfSpace (name : String.string) : Z :=
  match name with
  | String.EmptyString => -1
  | String.String c rest =>
      if Ascii.eqb c " "%char then 0
      else
        let i := indexOfSpace rest in
        if i <? 0 then -1 else i + 1
  end.

(** [getShortName(name)]; [None] is [null] or [undefined]. *)
Definition getShortName (name : option String.string) : String.string :=
  match name with
  | None => String.EmptyString
  | Some String.EmptyString => String.EmptyString
  | Some name =>
      let firstSpaceIndex := indexOfSpace name in
      if 0 <? firstSpaceIndex then String.substring 0 (Z.to_nat firstSpaceIndex) name
      else name
  end.

End Names.

(* ================================================================== *)
(** ** Parliament view: the radius that is drawn                       *)
(* ================================================================== *)

Module Circle.
Import JS Parliament.

(** [.attr('r', (d) => d.radius || baseRadius)], with [d.radius] as
    computed from the votes of the seat. *)
Definition circleRadius (baseRadius' votes' : float) : float :=
  or_else (seatRadius baseRadius' votes') baseRadius'.

End Circle.

(* ================================================================== *)
(** ** Bar view: the interleaved rows                                  *)
(* ================================================================== *)

Module BarChart.
Import JS Parliament.

(** [d3.max(values)] of d3-array: [NaN] is skipped, and the result is
    [undefined] ([None]) when nothing is left. *)
Definition d3_maxF (values : list float) : option float :=
  fold_left (fun max value =>
               match max with
               | None => if (value <=? value)%float then Some value else None
               | Some m => if (m <? value)%float then Some value else max
               end)
            values None.

(** [d3.max(candidates, (d) => d.得票數) || 1]. *)
Definition maxVotes (candidates : list Candidate) : float :=
  match d3_maxF (map votes candidates) with
  | Some m => or_else m 1
  | None => 1%float
  end.

(** [width - padding.left - padding.right]. *)
Definition availableWidth (width : float) : float := (width - 40 - 40)%float.

Definition mainBarHeight : Z := 4.
Definition barSpacing : Z := 0.
Definition rowHeight : Z := mainBarHeight + 6 + barSpacing.

Definition barWidthOf (maxVotes' maxBarWidth : float) (c : Candidate) : float :=
  if (0 <? votes c)%float then (votes c / maxVotes' * maxBarWidth)%float
  else (maxBarWidth * 0.1)%float.

(** [partyData[k].color]. *)
Definition colorAt (k : nat) : String.string :=
  match nth_error partyData k with
  | Some p => Party.color p
  | None => String.EmptyString
  end.

Inductive Side := LeftSide | RightSide.

(** What one iteration appends to the chart: a group translated to
    [(barX, barY)] holding a rectangle and a label. *)
Record Bar := mkBar {
  candidate : Candidate;
  side : Side;
  barX : float;
  barY : Z;
  barWidth : float;
  fill : String.string;
  label : String.string
}.

(** The variables declared before the loop.  [currentY] and [rowIndex]
    only take integer values (multiples of [rowHeight] and row numbers
    far below 2^53) and are modelled by [Z]. *)
Record Vars := mkVars {
  currentY : Z;
  leftIndex : Z;
  dppIndex : Z;
  rowIndex : Z
}.

(** The rank written by the [mouseover] handler of a bar.  The handler
    is a closure over the variables [leftIndex] and [dppIndex]
    themselves: it reads them when the pointer enters the bar. *)
Definition rankShown (b : Bar) (vars : Vars) : Z :=
  match side b with
  | LeftSide => leftIndex vars + 1
  | RightSide => dppIndex vars + 1
  end.

Section Loop.
Variables leftSideCandidates dppCandidates : list Candidate.
Variables maxVotes' availableWidth' : float.

(** The test of the [while] loop. *)
Definition pending (v : Vars) : bool :=
  (leftIndex v <? Z.of_nat (length leftSideCandidates))
  || (dppIndex v <? Z.of_nat (length dppCandidates)).

(** The body of the loop.  Both array reads are guarded by the test of
    their branch, so the index is inside the array. *)
Definition step (st : Vars * list Bar) : Vars * list Bar :=
  let '(v, bars) := st in
  let barY' := currentY v in
  let isOddRow := rowIndex v mod 2 =? 1 in
  let '(v', bars') :=
    if isOddRow && (leftIndex v <? Z.of_nat (length leftSideCandidates)) then
      match get leftSideCandidates (leftIndex v) with
      | Some c =>
          let isInd := PartyId_eqb (partyId c) IND in
          let w := barWidthOf maxVotes' availableWidth' c in
          (mkVars (currentY v) (leftIndex v + 1) (dppIndex v) (rowIndex v),
           bars ++ [ {| candidate := c; side := LeftSide; barX := 0%float;
                        barY := barY'; barWidth := w;
                        fill := if isInd then colorAt 0 else colorAt 2;
                        label := Names.getShortName (Some (candidateName c)) |} ])
      | None => (v, bars)
      end
    else if negb isOddRow && (dppIndex v <? Z.of_nat (length dppCandidates)) then
      match get dppCandidates (dppIndex v) with
      | Some c =>
          let w := barWidthOf maxVotes' availableWidth' c in
          (mkVars (currentY v) (leftIndex v) (dppIndex v + 1) (rowIndex v),
           bars ++ [ {| candidate := c; side := RightSide;
                        barX := (availableWidth' - w)%float;
                        barY := barY'; barWidth := w;
                        fill := colorAt 1;
                        label := Names.getShortName (Some (candidateName c)) |} ])
      | None => (v, bars)
      end
    else (v, bars) in
  (mkVars (currentY v' + rowHeight) (leftIndex v') (dppIndex v') (rowIndex v' + 1),
   bars').

(** The [while] loop, run for at most [fuel] iterations; [None] when
    the fuel does not suffice. *)
Fixpoint loop (fuel : nat) (st : Vars * list Bar) : option (Vars * list Bar) :=
  match fuel with
  | O => None
  | S fuel' => if pending (fst st) then loop fuel' (step st) else Some st
  end.

End Loop.

(** The state before the loop: [currentY = 0], both indices [0],
    [rowIndex = 1], nothing drawn. *)
Definition initial : Vars * list Bar := (mkVars 0 0 0 1, []).

(** The bars of [drawBarChart] for the loaded candidates and the width
    of the container. *)
Definition drawBars (fuel : nat) (candidates : list Candidate) (width : float)
  : option (Vars * list Bar) :=
  loop (Bar.leftSideCandidates candidates) (Bar.dppCandidates candidates)
       (maxVotes candidates) (availableWidth width) fuel initial.

End BarChart.

(* ================================================================== *)
(** ** Map view: the dengue grid                                       *)
(* ================================================================== *)

Module GridOnly.
Import JS.

(** The properties of a feature that [drawGridOnly] reads.  [None] is
    [null] or [undefined]; the values that are present are numbers. *)
Record Feature := mkFeature {
  grid_x : option float;
  grid_y : option float;
  level : option float
}.

(** The property lookup [levelColors[level]]: the key of a number is its
    decimal text, so the entry [k] is found exactly by the number [k]. *)
Definition levelColors (level' : float) : option String.string :=
  if (level' =? 0)%float then Some "#e0e0e0"%string
  else if (level' =? 1)%float then Some "#1a237e"%string
  else if (level' =? 2)%float then Some "#4caf50"%string
  else if (level' =? 3)%float then Some "#fbc02d"%string
  else if (level' =? 4)%float then Some "#ff6f00"%string
  else if (level' =? 5)%float then Some "#d32f2f"%string
  else None.

Definition opacityMap (levelNum : float) : option float :=
  if (levelNum =? 0)%float then Some 0.5%float
  else if (levelNum =? 1)%float then Some 0.7%float
  else if (levelNum =? 2)%float then Some 0.75%float
  else if (levelNum =? 3)%float then Some 0.8%float
  else if (levelNum =? 4)%float then Some 0.85%float
  else if (levelNum =? 5)%float then Some 0.9%float
  else None.

(** [x || y] where [x] is a table entry: a colour is a non-empty string
    and an opacity a non-zero number, so only a missing entry is falsy. *)
Definition entry_or {A} (x y : option A) : option A :=
  match x with
  | Some _ => x
  | None => y
  end.

Definition getColorByLevel (level' : option float) : option String.string :=
  match level' with
  | None => levelColors 0
  | Some l =>
      if (l =? 0)%float then levelColors 0
      else entry_or (levelColors l) (levelColors 1)
  end.

(** [level || 0]. *)
Definition levelNumOf (level' : option float) : float :=
  match level' with
  | None => 0%float
  | Some l => or_else l 0
  end.

Definition getOpacityByLevel (level' : option float) : option float :=
  entry_or (opacityMap (levelNumOf level')) (opacityMap 0).

(** [features.filter(...)]: the cells with both coordinates. *)
Definition gridsWithXY (features : list Feature) : list Feature :=
  filter (fun d => match grid_x d, grid_y d with
                   | Some _, Some _ => true
                   | _, _ => false
                   end) features.

(** [(a, b) => (a.properties.level || 0) - (b.properties.level || 0)]. *)
Definition byLevel (a b : Feature) : float :=
  (levelNumOf (level a) - levelNumOf (level b))%float.

(** The cells in the order in which their rectangles are appended. *)
Definition sortedGrids (features : list Feature) : list Feature :=
  sort byLevel (gridsWithXY features).

End GridOnly.

(* ================================================================== *)
(** ** Map view: arrows and strokes                                    *)
(* ================================================================== *)

Module Arrows.
Import JS.

(** [arrowLengthForFeature] in grid mode:
    [Math.max(Math.min((cellSize || 0) * 0.42, 22), 5)]. *)
Definition arrowLength (cellSize : float) : float :=
  Math_max (Math_min (or_else cellSize 0 * 0.42)%float 22%float) 5%float.

(** The [stroke-width] of an arrow. *)
Definition arrowStroke (arrowLengthForFeature : float) : float :=
  Math_max (arrowLengthForFeature * 0.12)%float 1.6%float.

(** [strokeWidth] of the cells in [drawHexGridOnly]. *)
Definition cellStroke (cellSize : float) : float :=
  Math_max (cellSize * 0.06)%float 0.4%float.

End Arrows.

(* ================================================================== *)
(** ** Rectangle view: three grids of squares                          *)
(* ================================================================== *)

Module Rect.
Import JS Parliament.

Definition gridCols : Z := 6.
Definition gridRows : Z := 7.
Definition gridSize : Z := gridCols * gridRows.

Record Assignment := mkAssignment {
  aParty : PartyId;
  aCount : Z;
  startIndex : Z
}.

(** [gridAssignments]; reading [partyData[k].count] of a missing entry
    is a [TypeError] ([None]). *)
Definition gridAssignments (parties : list Party.t) : option (list Assignment) :=
  match parties with
  | p0 :: p1 :: p2 :: _ =>
      Some [ mkAssignment DPP (Party.count p1) 0;
             mkAssignment KMT (Party.count p2) (Party.count p1);
             mkAssignment IND (Party.count p0) (Party.count p1 + Party.count p2) ]
  | _ => None
  end.

Record RectSeat := mkRectSeat {
  gridIndex : Z;
  row : Z;
  col : Z;
  party : PartyId;
  partyName : String.string;
  color : String.string;
  candidateName : String.string;
  votes : float;
  rank : Z
}.

(** The seat pushed for index [i] of a grid. *)
Definition seatAt (gridIndex' : Z) (p : Party.t) (partyCandidates : list Candidate)
           (i : Z) : RectSeat :=
  let candidate := get partyCandidates i in
  {| gridIndex := gridIndex';
     row := i / gridCols;
     col := i mod gridCols;
     party := Party.id p;
     partyName := Party.name p;
     color := Party.color p;
     candidateName := match candidate with
                      | Some c => Parliament.candidateName c
                      | None => placeholderName i
                      end;
     votes := match candidate with
              | Some c => Parliament.votes c
              | None => 0%float
              end;
     rank := i + 1 |}.

(** One iteration of [gridAssignments.forEach]: the loop
    [for (let i = 0; i < assignment.count && i < gridSize; i++)].
    [partyData.find] may yield [undefined]; [party.id] then throws a
    [TypeError] ([None]) on the first seat. *)
Definition gridSeats (parties : list Party.t) (candidates : list Candidate)
           (gridIndex' : Z) (a : Assignment) : option (list RectSeat) :=
  let party' := find (fun p => PartyId_eqb (Party.id p) (aParty a)) parties in
  let partyCandidates := filter (fun c => PartyId_eqb (partyId c) (aParty a)) candidates in
  let indices := range 0 (Z.min (aCount a) gridSize) in
  match party', indices with
  | Some p, _ => Some (map (seatAt gridIndex' p partyCandidates) indices)
  | None, [] => Some []
  | None, _ :: _ => None
  end.

(** [allSeats] after the three grids. *)
Fixpoint seatsFrom (parties : list Party.t) (candidates : list Candidate)
         (gridIndex' : Z) (assignments : list Assignment) : option (list RectSeat) :=
  match assignments with
  | [] => Some []
  | a :: rest =>
      match gridSeats parties candidates gridIndex' a with
      | None => None
      | Some seats =>
          match seatsFrom parties candidates (gridIndex' + 1) rest with
          | None => None
          | Some more => Some (seats ++ more)
          end
      end
  end.

Definition allSeats (parties : list Party.t) (candidates : list Candidate)
  : option (list RectSeat) :=
  match gridAssignments parties with
  | None => None
  | Some assignments => seatsFrom parties candidates 0 assignments
  end.

(** The cell of a grid, from the size of the container. *)
Definition numGrids : float := 3%float.
Definition gridSpacing : float := 40%float.
Definition padding : float := 60%float.
Definition cellPadding : float := 4%float.

Definition gridWidth (width : float) : float :=
  ((width - padding * 2 - gridSpacing * (numGrids - 1)) / numGrids)%float.
Definition gridHeight (height : float) : float := (height - padding * 2)%float.

Definition cellWidth (width : float) : float :=
  ((gridWidth width - cellPadding * (num_of_Z gridCols + 1)) / num_of_Z gridCols)%float.
Definition cellHeight (height : float) : float :=
  ((gridHeight height - cellPadding * (num_of_Z gridRows + 1)) / num_of_Z gridRows)%float.

Definition baseSize (width height : float) : float :=
  (Math_min (cellWidth width) (cellHeight height) * 0.9)%float.

(** [seat.size]: the side of the square. *)
Definition seatSize (baseSize' votes' : float) : float :=
  if truthy votes' && (0 <? votes')%float then
    let area := (votes' / areaDivisor)%float in
    Math_min (Math_max (Math_sqrt area) (baseSize' * 0.3)%float) baseSize'
  else (baseSize' * 0.5)%float.

End Rect.

(* ================================================================== *)
(** ** Seat map tab: a fixed hemicycle                                 *)
(* ================================================================== *)

Module Hemicycle.
Import JS.

Record SeatPosition := mkSeatPosition {
  x : float;
  y : float;
  angle : float;
  row : Z;
  index : Z;
  id : Z
}.

Definition seatsPerRow : list Z := [5; 7; 9; 11; 13; 15; 19].

Definition baseRadius : float := 60%float.
Definition radiusStep : float := 50%float.

Section Positions.
Variables Math_cos Math_sin : float -> float.

(** The seats pushed by the inner loop for one row; [seatIndex] is the
    number of seats pushed before. *)
Definition rowPositions (seatsInRow rowIndex seatIndex : Z) : list SeatPosition :=
  let radius := (baseRadius + num_of_Z rowIndex * radiusStep)%float in
  let angleSpan := Math_PI in
  let startAngle := Math_PI in
  let angleStep := (angleSpan / num_of_Z (seatsInRow + 1))%float in
  map (fun i =>
         let angle' := (startAngle + angleStep * num_of_Z (i + 1))%float in
         {| x := (0 + Math_cos angle' * radius)%float;
            y := (0 + Math_sin angle' * radius)%float;
            angle := (angle' * 180 / Math_PI)%float;
            row := rowIndex;
            index := seatIndex + i;
            id := seatIndex + i + 1 |})
      (range 0 seatsInRow).

(** [seatsPerRow.forEach((seatsInRow, rowIndex) => ...)]. *)
Fixpoint positionsFrom (rows : list Z) (rowIndex seatIndex : Z) : list SeatPosition :=
  match rows with
  | [] => []
  | seatsInRow :: rest =>
      rowPositions seatsInRow rowIndex seatIndex
        ++ positionsFrom rest (rowIndex + 1) (seatIndex + Z.max seatsInRow 0)
  end.

Definition calculateSeatPositions : list SeatPosition :=
  positionsFrom seatsPerRow 0 0.

End Positions.

End Hemicycle.

(* ================================================================== *)
(** ** Treemap and bar views: the candidates of a party                *)
(* ================================================================== *)

Module Treemap.
Import JS Parliament.

(** [l.slice(0, end)]: a negative [end] counts from the end of the
    array. *)
Definition slice0 {A} (l : list A) (end_ : Z) : list A :=
  let len := Z.of_nat (length l) in
  let k := if end_ <? 0 then Z.max (len + end_) 0 else Z.min end_ len in
  firstn (Z.to_nat k) l.

(** A leaf of the tree: one candidate.  (The [district] text is made
    of two columns of the file that this development does not read.) *)
Record Leaf := mkLeaf {
  name : String.string;
  value : float;
  rank : Z;
  votes : float;
  partyId : PartyId;
  partyColor : String.string
}.

(** A child of the root: one party. *)
Record Group := mkGroup {
  groupName : String.string;
  groupParty : PartyId;
  groupColor : String.string;
  children : list Leaf
}.

(** [.map((c, i) => ({...}))] from index [i] on. *)
Fixpoint leavesFrom (i : Z) (party : Party.t) (cs : list Candidate) : list Leaf :=
  match cs with
  | [] => []
  | c :: rest =>
      {| name := candidateName c;
         value := or_else (Parliament.votes c) 1;
         rank := i + 1;
         votes := Parliament.votes c;
         partyId := Party.id party;
         partyColor := Party.color party |}
        :: leavesFrom (i + 1) party rest
  end.

(** [root.children]. *)
Definition rootChildren (parties : list Party.t) (candidates : list Candidate)
  : list Group :=
  map (fun party =>
         let partyCandidates :=
           filter (fun c => PartyId_eqb (Parliament.partyId c) (Party.id party)) candidates in
         {| groupName := Party.name party;
            groupParty := Party.id party;
            groupColor := Party.color party;
            children := leavesFrom 0 party (slice0 partyCandidates (Party.count party)) |})
      parties.

End Treemap.

(* ================================================================== *)
(** ** Map view: creating the map when the container has a size        *)
(* ================================================================== *)

Module Init.

Definition maxAttempts : Z := 20.

(** [tryCreateMap] and [tryCreateGrid] of [initMap].  [createMap n]
    tells whether the [n]-th call of [createMap] succeeds, that is,
    whether the container has a size by then; a failed call schedules
    the next attempt.  The result is the final value of [attempts] and
    whether the layers were drawn; [None] when the fuel does not
    suffice. *)
Fixpoint tryCreate (createMap : Z -> bool) (fuel : nat) (attempts : Z)
  : option (Z * bool) :=
  match fuel with
  | O => None
  | S fuel' =>
      if maxAttempts <=? attempts then Some (attempts, false)
      else
        let attempts := attempts + 1 in
        if createMap attempts then Some (attempts, true)
        else tryCreate createMap fuel' attempts
  end.

End Init.

(* ================================================================== *)
(** ** Layout: the navigation bar                                      *)
(* ================================================================== *)

Module Nav.
Import Ascii.AsciiSyntax.
#[local] Delimit Scope char_scope with char.

(** The paths of [navItems]. *)
Definition navItems : list String.string :=
  [ "/circle"; "/rect"; "/bar"; "/bar2"; "/treemap" ]%string.

(** [s.startsWith(p)]. *)
Fixpoint startsWith (s p : String.string) {struct p} : bool :=
  match p with
  | String.EmptyString => true
  | String.String a p' =>
      match s with
      | String.EmptyString => false
      | String.String b s' => Ascii.eqb a b && startsWith s' p'
      end
  end.

(** [isActive(path)], for the current path of the route. *)
Definition isActive (currentPath path : String.string) : bool :=
  String.eqb currentPath path
  || startsWith currentPath (String.append path "/"%string).

End Nav.

(* ================================================================== *)
(** ** Photo script: the URL of a candidate's photo                    *)
(* ================================================================== *)

(** Names are compared character by character, and the characters that
    matter here (the blanks of [\s], the dots [.], [·] and [‧]) lie in
    the Basic Multilingual Plane: a string is modelled by the list of
    its UTF-16 code units. *)

Module Photos.

Definition JSString := list Z.

(** The class [\s] of a regular expression. *)
Definition isWhiteSpace (c : Z) : bool :=
  (c =? 9) || (c =? 10) || (c =? 11) || (c =? 12) || (c =? 13) || (c =? 32)
  || (c =? 160) || (c =? 5760) || ((8192 <=? c) && (c <=? 8202))
  || (c =? 8232) || (c =? 8233) || (c =? 8239) || (c =? 8287)
  || (c =? 12288) || (c =? 65279).

(** [a === b] on strings. *)
Fixpoint sameString (a b : JSString) : bool :=
  match a, b with
  | [], [] => true
  | x :: a', y :: b' => (x =? y) && sameString a' b'
  | _, _ => false
  end.

(** [s.replace(/\s+/g, '')]. *)
Definition removeSpaces (s : JSString) : JSString :=
  filter (fun c => negb (isWhiteSpace c)) s.

(** [s.replace(/c/g, d)] for single characters [c] and [d]. *)
Definition replaceAll (c d : Z) (s : JSString) : JSString :=
  map (fun u => if u =? c then d else u) s.

(** [s.split(/\s+/)[0]]: the text before the first blank. *)
Fixpoint firstField (s : JSString) : JSString :=
  match s with
  | [] => []
  | c :: rest => if isWhiteSpace c then [] else c :: firstField rest
  end.

(** [s.startsWith(p)]. *)
Fixpoint startsWith (s p : JSString) {struct p} : bool :=
  match p with
  | [] => true
  | a :: p' =>
      match s with
      | [] => false
      | b :: s' => (a =? b) && startsWith s' p'
      end
  end.

(** An entry of [photo-url-mapping.json]. *)
Record Entry := mkEntry {
  name : JSString;
  photoUrl : JSString
}.

Definition fullStop : Z := 46.          (* . *)
Definition middleDot : Z := 183.        (* · *)
Definition hyphenationPoint : Z := 8231. (* ‧ *)

(** [findPhotoUrl(candidateName)]; [None] is [null]. *)
Definition findPhotoUrl (photoMapping : list Entry) (candidateName : JSString)
  : option JSString :=
  match find (fun m => sameString (name m) candidateName) photoMapping with
  | Some entry => Some (photoUrl entry)
  | None =>
      let nameNoSpace := removeSpaces candidateName in
      match find (fun m => sameString (removeSpaces (name m)) nameNoSpace) photoMapping with
      | Some entry => Some (photoUrl entry)
      | None =>
          let nameNormalized :=
            replaceAll middleDot hyphenationPoint
                       (replaceAll fullStop hyphenationPoint candidateName) in
          match find (fun m => sameString (name m) nameNormalized) photoMapping with
          | Some entry => Some (photoUrl entry)
          | None =>
              let mainName := firstField candidateName in
              match find (fun m => startsWith (name m) mainName) photoMapping with
              | Some entry => Some (photoUrl entry)
              | None => None
              end
          end
      end
  end.

End Photos.

(* ================================================================== *)
(** ** More vocabulary                                                 *)
(* ================================================================== *)

Module Terms.
Import Ascii.AsciiSyntax.
#[local] Delimit Scope char_scope with char.

(** A text without any space. *)
Fixpoint spaceFree (s : String.string) : bool :=
  match s with
  | String.EmptyString => true
  | String.String c rest => negb (Ascii.eqb c " "%char) && spaceFree rest
  end.

(** A binary64 value of sign [s] that is not a NaN. *)
Inductive signed (s : bool) : spec_float -> Prop :=
| signed_zero : signed s (S754_zero s)
| signed_finite m e : signed s (S754_finite s m e)
| signed_infinity : signed s (S754_infinity s).

(** The bars of one column of the bar chart, in drawing order. *)
Definition onSide (s : BarChart.Side) (b : BarChart.Bar) : bool :=
  match BarChart.side b, s with
  | BarChart.LeftSide, BarChart.LeftSide => true
  | BarChart.RightSide, BarChart.RightSide => true
  | _, _ => false
  end.

Definition barsOf (s : BarChart.Side) (bars : list BarChart.Bar) : list BarChart.Bar :=
  filter (onSide s) bars.

(** Number of rows of the chart: the left bars take the rows 1, 3, 5,
    ... and the right bars the rows 2, 4, 6, ... *)
Definition rowsShown (left dpp : list Parliament.Candidate) : Z :=
  Z.max (2 * Z.of_nat (length left) - 1) (2 * Z.of_nat (length dpp)).

(** What holds of the loop variables and of the bars drawn so far each
    time the test of the loop is evaluated. *)
Definition rowsInvariant (left dpp : list Parliament.Candidate)
           (st : BarChart.Vars * list BarChart.Bar) : Prop :=
  let v := fst st in
  let bars := snd st in
  let r := BarChart.rowIndex v in
  1 <= r
  /\ BarChart.currentY v = BarChart.rowHeight * (r - 1)
  /\ BarChart.leftIndex v = Z.min (Z.of_nat (length left)) (r / 2)
  /\ BarChart.dppIndex v = Z.min (Z.of_nat (length dpp)) ((r - 1) / 2)
  /\ map BarChart.candidate (barsOf BarChart.LeftSide bars)
     = firstn (Z.to_nat (BarChart.leftIndex v)) left
  /\ map BarChart.candidate (barsOf BarChart.RightSide bars)
     = firstn (Z.to_nat (BarChart.dppIndex v)) dpp
  /\ map BarChart.barY (barsOf BarChart.LeftSide bars)
     = map (fun i => 2 * BarChart.rowHeight * i) (JS.range 0 (BarChart.leftIndex v))
  /\ map BarChart.barY (barsOf BarChart.RightSide bars)
     = map (fun j => 2 * BarChart.rowHeight * j + BarChart.rowHeight)
           (JS.range 0 (BarChart.dppIndex v)).

(** The order of the right column of the bar chart. *)
Definition fewerVotesFirst (a b : Parliament.Candidate) : Prop :=
  (Parliament.votes a <=? Parliament.votes b)%float = true.

(** The drawing order of the dengue grid: a cell of a lower level
    (a missing level counting as 0) comes first. *)
Definition lowerLevelFirst (a b : GridOnly.Feature) : Prop :=
  (GridOnly.levelNumOf (GridOnly.level a) <=? GridOnly.levelNumOf (GridOnly.level b))%float
  = true.

(** A generated seat whose Cartesian coordinates are those of its polar
    coordinates. *)
Definition polar (Math_cos Math_sin : float -> float) (s : Parliament.Seat) : Prop :=
  Parliament.x (Parliament.pos s)
  = (Parliament.r (Parliament.pos s) * Math_cos (Parliament.theta (Parliament.pos s)))%float
  /\ Parliament.y (Parliament.pos s)
     = (Parliament.r (Parliament.pos s) * Math_sin (Parliament.theta (Parliament.pos s)))%float.

(** The cell of a square of the rectangle view: its grid, row and
    column. *)
Definition cellOf (s : Rect.RectSeat) : Z * Z * Z :=
  (Rect.gridIndex s, Rect.row s, Rect.col s).

(** Number of seats of a hemicycle with the given rows. *)
Definition seatTotal (rows : list Z) : Z :=
  fold_right (fun seatsInRow acc => Z.max seatsInRow 0 + acc) 0 rows.

(** A bar made of its own candidate: the width from the votes of the
    candidate, the label from the name, the colour from the party, the
    right column flush with the right edge. *)
Definition ownBar (maxVotes' availableWidth' : float) (b : BarChart.Bar) : Prop :=
  BarChart.barWidth b = BarChart.barWidthOf maxVotes' availableWidth' (BarChart.candidate b)
  /\ BarChart.label b
     = Names.getShortName (Some (Parliament.candidateName (BarChart.candidate b)))
  /\ match BarChart.side b with
     | BarChart.LeftSide =>
         BarChart.barX b = 0%float
         /\ BarChart.fill b
            = (if Parliament.PartyId_eqb (Parliament.partyId (BarChart.candidate b))
                                         Parliament.IND
               then BarChart.colorAt 0 else BarChart.colorAt 2)
     | BarChart.RightSide =>
         BarChart.barX b = (availableWidth' - BarChart.barWidth b)%float
         /\ BarChart.fill b = BarChart.colorAt 1
     end.

(** The order of the leaves of a party in the treemap. *)
Definition largerLeafFirst (a b : Treemap.Leaf) : Prop :=
  (Treemap.votes b <=? Treemap.votes a)%float = true.

End Terms.

(* ================================================================== *)
(** ** Facts about binary64 arithmetic                                 *)
(* ================================================================== *)

(** The primitive operations are specified by the Standard Library
    through [Prim2SF]; the lemmas below derive from that specification
    the few order and sign properties the views depend on. *)

Module Float754.
Import JS.

(** *** Rounding never loses the sign *)

Lemma digits2_pos_bounds (m : positive) :
  2 ^ (Z.pos (digits2_pos m) - 1) <= Z.pos m < 2 ^ Z.pos (digits2_pos m).
Proof.
  induction m as [m IH | m IH |]; cbn [digits2_pos].
  - rewrite Pos2Z.inj_succ.
    replace (Z.succ (Z.pos (digits2_pos m)) - 1) with (Z.succ (Z.pos (digits2_pos m) - 1)) by lia.
    rewrite !Z.pow_succ_r by lia. lia.
  - rewrite Pos2Z.inj_succ.
    replace (Z.succ (Z.pos (digits2_pos m)) - 1) with (Z.succ (Z.pos (digits2_pos m) - 1)) by lia.
    rewrite !Z.pow_succ_r by lia. lia.
  - cbn. lia.
Qed.

Lemma shr_1_m (mrs : shr_record) :
  0 <= shr_m mrs -> shr_m (shr_1 mrs) = shr_m mrs / 2.
Proof.
  destruct mrs as [m r s]; cbn [shr_m]; intros Hm.
  destruct m as [|p|p]; [reflexivity| |lia].
  destruct p as [p|p|]; cbn [shr_1 shr_m].
  - rewrite Pos2Z.inj_xI. apply Z.div_unique with (r := 1); lia.
  - rewrite Pos2Z.inj_xO. apply Z.div_unique with (r := 0); lia.
  - reflexivity.
Qed.

Lemma iter_shr_1_m (p : positive) : forall mrs,
  0 <= shr_m mrs -> shr_m (SpecFloat.iter_pos shr_1 p mrs) = shr_m mrs / 2 ^ Z.pos p.
Proof.
  induction p as [p IH | p IH |]; intros mrs Hm; cbn [SpecFloat.iter_pos].
  - assert (Hp : 0 < 2 ^ Z.pos p) by (apply Z.pow_pos_nonneg; lia).
    assert (H1 : 0 <= shr_m (shr_1 mrs)) by (rewrite shr_1_m by lia; apply Z.div_pos; lia).
    assert (H2 : 0 <= shr_m (SpecFloat.iter_pos shr_1 p (shr_1 mrs)))
      by (rewrite IH by lia; apply Z.div_pos; lia).
    rewrite IH, IH, shr_1_m by lia.
    rewrite !Z.div_div by lia.
    f_equal. replace (Z.pos p~1) with (1 + Z.pos p + Z.pos p) by lia.
    rewrite !Z.pow_add_r by lia. change (2 ^ 1) with 2. ring.
  - assert (Hp : 0 < 2 ^ Z.pos p) by (apply Z.pow_pos_nonneg; lia).
    assert (H2 : 0 <= shr_m (SpecFloat.iter_pos shr_1 p mrs))
      by (rewrite IH by lia; apply Z.div_pos; lia).
    rewrite IH, IH by lia.
    rewrite !Z.div_div by lia.
    f_equal. replace (Z.pos p~0) with (Z.pos p + Z.pos p) by lia.
    rewrite !Z.pow_add_r by lia. ring.
  - rewrite shr_1_m by lia. reflexivity.
Qed.

(** Shifting to the target exponent keeps a positive mantissa positive. *)
Lemma shr_fexp_pos (m e : Z) (l : location) :
  0 < m -> emin <= e ->
  0 < shr_m (fst (shr_fexp prec emax m e l)) /\ emin <= snd (shr_fexp prec emax m e l).
Proof.
  intros Hm He. unfold shr_fexp, shr.
  destruct m as [|p|p]; try lia. cbn [Zdigits2].
  assert (Hrec : shr_m (shr_record_of_loc (Z.pos p) l) = Z.pos p)
    by (destruct l as [|[| |]]; reflexivity).
  pose proof (digits2_pos_bounds p) as [Hlo _].
  set (d := Z.pos (digits2_pos p)) in *.
  unfold fexp, SpecFloat.emin, prec, emax in *.
  destruct (Z.max (d + e - 53) (3 - 1024 - 53) - e) as [|n|n] eqn:Hn; cbn [fst snd].
  - rewrite Hrec. lia.
  - rewrite iter_shr_1_m by (rewrite Hrec; lia). rewrite Hrec. split; [|lia].
    assert (Hn' : Z.pos n = d - 53) by lia.
    apply Z.div_str_pos. split; [apply Z.pow_pos_nonneg; lia|].
    apply Z.le_trans with (2 ^ (d - 1)); [|exact Hlo].
    apply Z.pow_le_mono_r; lia.
  - rewrite Hrec. lia.
Qed.

Lemma round_nearest_even_pos (m : Z) (l : location) :
  0 < m -> 0 < round_nearest_even m l.
Proof.
  intros Hm. destruct l as [|[| |]]; cbn [round_nearest_even]; try lia.
  destruct (Z.even m); lia.
Qed.

(** Rounding a positive mantissa at an exponent above [emin] never
    underflows to zero and never produces a NaN. *)
Lemma binary_round_aux_pos (sx : bool) (m e : Z) (l : location) :
  0 < m -> emin <= e ->
  (exists m' e', binary_round_aux prec emax sx m e l = S754_finite sx m' e')
  \/ binary_round_aux prec emax sx m e l = S754_infinity sx.
Proof.
  intros Hm He. unfold binary_round_aux.
  pose proof (shr_fexp_pos m e l Hm He) as [H1 H1'].
  destruct (shr_fexp prec emax m e l) as [mrs' e']. cbn [fst snd] in *.
  pose proof (round_nearest_even_pos _ (loc_of_shr_record mrs') H1) as H2.
  pose proof (shr_fexp_pos _ _ loc_Exact H2 H1') as [H3 _].
  destruct (shr_fexp prec emax (round_nearest_even (shr_m mrs') (loc_of_shr_record mrs')) e' loc_Exact)
    as [mrs'' e'']. cbn [fst snd] in *.
  destruct (shr_m mrs'') as [|q|q]; try lia.
  destruct (e'' <=? emax - prec); eauto.
Qed.


Lemma iter_xO (d : positive) (m : positive) :
  Z.pos (Pos.iter xO m d) = Z.pos m * 2 ^ Z.pos d.
Proof.
  induction d as [|d IH] using Pos.peano_ind.
  - cbn [Pos.iter]. rewrite Pos2Z.inj_xO. change (2 ^ 1) with 2. lia.
  - rewrite Pos.iter_succ, Pos2Z.inj_xO, IH, Pos2Z.inj_succ, Z.pow_succ_r by lia. ring.
Qed.

(** Value of the mantissa aligned to a smaller exponent. *)
Lemma shl_align_fst (m : positive) (e e' : Z) :
  e' <= e -> Z.pos (fst (shl_align m e e')) = Z.pos m * 2 ^ (e - e').
Proof.
  intros He. unfold shl_align.
  destruct (e' - e) as [|d|d] eqn:Hd; cbn [fst].
  - replace (e - e') with 0 by lia. cbn. lia.
  - lia.
  - rewrite iter_xO. f_equal. f_equal. lia.
Qed.

Lemma binary_round_sign (sx : bool) (m : positive) (e : Z) :
  emin <= e ->
  (exists m' e', binary_round prec emax sx m e = S754_finite sx m' e')
  \/ binary_round prec emax sx m e = S754_infinity sx.
Proof.
  intros He. unfold binary_round.
  destruct (shl_align m e (fexp prec emax (Z.pos (digits2_pos m) + e))) as [mz ez] eqn:Hsh.
  apply binary_round_aux_pos; [lia|].
  unfold shl_align in Hsh.
  destruct (fexp prec emax (Z.pos (digits2_pos m) + e) - e) eqn:Hd;
    inversion Hsh; subst; try assumption.
  unfold fexp. apply Z.le_max_r.
Qed.

Lemma binary_normalize_sign (m e : Z) :
  emin <= e ->
  SFltb (S754_zero false) (binary_normalize prec emax m e false) = (0 <? m)
  /\ SFltb (binary_normalize prec emax m e false) (S754_zero false) = (m <? 0)
  /\ binary_normalize prec emax m e false <> S754_nan.
Proof.
  intros He. destruct m as [|p|p]; cbn [binary_normalize].
  - repeat split; discriminate.
  - destruct (binary_round_sign false p e He) as [(m' & e' & ->) | ->];
      repeat split; discriminate.
  - destruct (binary_round_sign true p e He) as [(m' & e' & ->) | ->];
      repeat split; discriminate.
Qed.

(** A valid mantissa has at most 53 bits, exactly 53 above [emin]. *)
Lemma bounded_inv (m : positive) (e : Z) :
  bounded prec emax m e = true ->
  emin <= e /\ Z.pos m < 2 ^ 53 /\ (emin < e -> 2 ^ 52 <= Z.pos m).
Proof.
  unfold bounded, canonical_mantissa, fexp, SpecFloat.emin, prec, emax.
  intros H. apply andb_prop in H as [H _]. apply Z.eqb_eq in H.
  pose proof (digits2_pos_bounds m) as [Hlo Hhi].
  set (d := Z.pos (digits2_pos m)) in *.
  assert (Hd : d <= 53) by lia.
  repeat split.
  - lia.
  - apply Z.lt_le_trans with (2 ^ d); [exact Hhi|]. apply Z.pow_le_mono_r; lia.
  - intros He. assert (d = 53) by lia. subst d. rewrite H0 in Hlo. exact Hlo.
Qed.

(** On valid mantissas, comparing exponents first and mantissas next
    agrees with comparing the aligned integers. *)
Lemma aligned_compare (m1 m2 : positive) (e1 e2 : Z) :
  bounded prec emax m1 e1 = true -> bounded prec emax m2 e2 = true ->
  (Z.pos m1 * 2 ^ (e1 - Z.min e1 e2) ?= Z.pos m2 * 2 ^ (e2 - Z.min e1 e2)) =
  match e1 ?= e2 with
  | Lt => Lt
  | Gt => Gt
  | Eq => Pos.compare_cont Eq m1 m2
  end.
Proof.
  intros B1 B2.
  apply bounded_inv in B1 as (L1 & U1 & N1), B2 as (L2 & U2 & N2).
  destruct (Z.compare_spec e1 e2) as [E|E|E].
  - subst e2. rewrite Z.min_id, Z.sub_diag. cbn [Z.pow]. rewrite !Z.mul_1_r. reflexivity.
  - rewrite Z.min_l, Z.sub_diag by lia. cbn [Z.pow]. rewrite Z.mul_1_r.
    apply Z.compare_lt_iff.
    assert (2 <= 2 ^ (e2 - e1)).
    { change 2 with (2 ^ 1) at 1. apply Z.pow_le_mono_r; lia. }
    specialize (N2 ltac:(lia)). nia.
  - rewrite Z.min_r, Z.sub_diag by lia. cbn [Z.pow]. rewrite Z.mul_1_r.
    apply Z.compare_gt_iff.
    assert (2 <= 2 ^ (e1 - e2)).
    { change 2 with (2 ^ 1) at 1. apply Z.pow_le_mono_r; lia. }
    specialize (N1 ltac:(lia)). nia.
Qed.

Lemma SFsub_pos (fx fy : spec_float) :
  valid_binary fx = true -> valid_binary fy = true ->
  SFltb (S754_zero false) (SF64sub fx fy) = SFltb fy fx.
Proof.
  intros Vx Vy.
  destruct fx as [sx|sx| |sx mx ex], fy as [sy|sy| |sy my ey];
    try reflexivity;
    try (destruct sx; try destruct sy; reflexivity);
    try (destruct sy; reflexivity).
  cbn [valid_binary] in Vx, Vy.
  unfold SF64sub, SFsub.
  pose proof (bounded_inv _ _ Vx) as (Lx & _).
  pose proof (bounded_inv _ _ Vy) as (Ly & _).
  destruct (binary_normalize_sign
    (cond_Zopp sx (Z.pos (fst (shl_align mx ex (Z.min ex ey)))) -
     cond_Zopp sy (Z.pos (fst (shl_align my ey (Z.min ex ey)))))
    (Z.min ex ey) ltac:(lia)) as (-> & _).
  rewrite !shl_align_fst by lia.
  pose proof (aligned_compare _ _ _ _ Vy Vx) as Hc.
  rewrite (Z.min_comm ey ex) in Hc.
  set (X := Z.pos mx * 2 ^ (ex - Z.min ex ey)) in *.
  set (Y := Z.pos my * 2 ^ (ey - Z.min ex ey)) in *.
  assert (0 < X) by (subst X; apply Z.mul_pos_pos; [lia | apply Z.pow_pos_nonneg; lia]).
  assert (0 < Y) by (subst Y; apply Z.mul_pos_pos; [lia | apply Z.pow_pos_nonneg; lia]).
  unfold SFltb, SFcompare.
  destruct sx, sy; cbn [cond_Zopp];
    destruct (ey ?= ex); try destruct (Pos.compare_cont Eq my mx); cbn [CompOpp];
    cbn beta iota in Hc;
    pose proof (Z.compare_spec Y X) as Hs; rewrite Hc in Hs; inversion Hs;
    first [ apply Z.ltb_lt; lia | apply Z.ltb_ge; lia ].
Qed.

(** The sign of a difference tells which operand is larger. *)
Lemma sub_pos (x y : float) : (0 <? x - y)%float = (y <? x)%float.
Proof.
  rewrite !ltb_spec, sub_spec.
  apply (SFsub_pos (Prim2SF x) (Prim2SF y)); apply Prim2SF_valid.
Qed.

(** *** Order facts *)

Lemma SFcompare_antisym (f g : spec_float) :
  SFcompare g f = option_map CompOpp (SFcompare f g).
Proof.
  destruct f as [s|s| |s m e], g as [s'|s'| |s' m' e']; cbn [SFcompare option_map];
    try reflexivity;
    try (destruct s; try destruct s'; reflexivity);
    try (destruct s'; reflexivity).
  change (Pos.compare_cont Eq) with Pos.compare.
  destruct s, s'; cbn [CompOpp]; try reflexivity;
    destruct (Z.compare_spec e e'), (Z.compare_spec e' e); try lia; cbn [CompOpp];
    try reflexivity;
    destruct (Pos.compare_spec m m'), (Pos.compare_spec m' m); cbn [CompOpp];
    try lia; try reflexivity.
Qed.

Lemma SFcompare_refl (f : spec_float) :
  f <> S754_nan -> SFcompare f f = Some Eq.
Proof.
  destruct f as [s|s| |s m e]; intros H; try congruence; cbn [SFcompare].
  - reflexivity.
  - destruct s; reflexivity.
  - rewrite Z.compare_refl, Pos.compare_cont_refl. destruct s; reflexivity.
Qed.

Lemma is_nan_spec (x : float) : is_nan x = true <-> Prim2SF x = S754_nan.
Proof.
  unfold is_nan. rewrite eqb_spec. unfold SFeqb. split.
  - intros H. destruct (Prim2SF x) eqn:E; try reflexivity;
      rewrite SFcompare_refl in H by congruence; discriminate.
  - intros ->. reflexivity.
Qed.

Lemma is_nan_false (x : float) : is_nan x = false <-> Prim2SF x <> S754_nan.
Proof.
  rewrite <- is_nan_spec. destruct (is_nan x); split; congruence.
Qed.

Lemma is_nan_eq (x : float) : is_nan x = true -> x = nan.
Proof.
  intros H. apply Prim2SF_inj. apply is_nan_spec in H. rewrite H. reflexivity.
Qed.

Lemma SFcompare_some (f g : spec_float) :
  f <> S754_nan -> g <> S754_nan -> exists c, SFcompare f g = Some c.
Proof.
  destruct f, g; intros; try congruence; cbn [SFcompare]; eauto.
Qed.

(** [<=] is total on numbers. *)
Lemma ltb_false_leb (x y : float) :
  is_nan x = false -> is_nan y = false ->
  (y <? x)%float = false -> (x <=? y)%float = true.
Proof.
  rewrite !is_nan_false, ltb_spec, leb_spec. unfold SFltb, SFleb.
  intros Hx Hy. rewrite (SFcompare_antisym (Prim2SF x) (Prim2SF y)).
  destruct (SFcompare_some _ _ Hx Hy) as [c ->]. destruct c; cbn; congruence.
Qed.

Lemma ltb_leb (x y : float) : (x <? y)%float = true -> (x <=? y)%float = true.
Proof.
  rewrite ltb_spec, leb_spec. unfold SFltb, SFleb.
  destruct (SFcompare (Prim2SF x) (Prim2SF y)) as [[| |]|]; congruence.
Qed.

Lemma SFcompare_trans (f g h : spec_float) (c : comparison) :
  SFcompare f g = Some c -> SFcompare g h = Some c -> SFcompare f h = Some c.
Proof.
  destruct f as [s|s| |s m e], g as [s'|s'| |s' m' e'], h as [s''|s''| |s'' m'' e''];
    cbn [SFcompare];
    repeat match goal with b : bool |- _ => destruct b end;
    try congruence.
  all: change (Pos.compare_cont Eq) with Pos.compare.
  all: destruct (Z.compare_spec e e'), (Z.compare_spec e' e''), (Z.compare_spec e e'');
      try lia; try congruence; subst;
      destruct (Pos.compare_spec m m'), (Pos.compare_spec m' m''), (Pos.compare_spec m m'');
      cbn [CompOpp]; try lia; try congruence.
Qed.

(** Comparison against an [Eq]-related value can be transported. *)
Lemma SFcompare_eq_l (f g h : spec_float) (c : comparison) :
  SFcompare f g = Some Eq -> SFcompare g h = Some c -> SFcompare f h = Some c.
Proof.
  destruct f as [s|s| |s m e], g as [s'|s'| |s' m' e'], h as [s''|s''| |s'' m'' e''];
    cbn [SFcompare];
    repeat match goal with b : bool |- _ => destruct b end;
    try congruence.
  all: change (Pos.compare_cont Eq) with Pos.compare.
  all: destruct (Z.compare_spec e e'); try congruence; subst;
      destruct (Pos.compare_spec m m'); cbn [CompOpp]; try congruence; subst; congruence.
Qed.

Lemma SFcompare_eq_r (f g h : spec_float) (c : comparison) :
  SFcompare f g = Some c -> SFcompare g h = Some Eq -> SFcompare f h = Some c.
Proof.
  destruct f as [s|s| |s m e], g as [s'|s'| |s' m' e'], h as [s''|s''| |s'' m'' e''];
    cbn [SFcompare];
    repeat match goal with b : bool |- _ => destruct b end;
    try congruence.
  all: change (Pos.compare_cont Eq) with Pos.compare.
  all: intros H1; destruct (Z.compare_spec e' e''); try congruence; subst;
      destruct (Pos.compare_spec m' m''); cbn [CompOpp]; try congruence; subst; congruence.
Qed.

Lemma leb_trans (x y z : float) :
  (x <=? y)%float = true -> (y <=? z)%float = true -> (x <=? z)%float = true.
Proof.
  rewrite !leb_spec. unfold SFleb.
  destruct (SFcompare (Prim2SF x) (Prim2SF y)) as [[| |]|] eqn:E1; try congruence;
  destruct (SFcompare (Prim2SF y) (Prim2SF z)) as [[| |]|] eqn:E2; try congruence; intros _ _.
  - rewrite (SFcompare_trans _ _ _ _ E1 E2). reflexivity.
  - rewrite (SFcompare_eq_l _ _ _ _ E1 E2). reflexivity.
  - rewrite (SFcompare_eq_r _ _ _ _ E1 E2). reflexivity.
  - rewrite (SFcompare_trans _ _ _ _ E1 E2). reflexivity.
Qed.

Lemma eqb_sym (x y : float) : (x =? y)%float = (y =? x)%float.
Proof.
  rewrite !eqb_spec. unfold SFeqb.
  rewrite (SFcompare_antisym (Prim2SF x) (Prim2SF y)).
  destruct (SFcompare (Prim2SF x) (Prim2SF y)) as [[| |]|]; reflexivity.
Qed.

(** Two different numbers are ordered one way or the other. *)
Lemma ltb_trichotomy (x y : float) :
  is_nan x = false -> is_nan y = false ->
  (x =? y)%float = false -> (x <? y)%float = false -> (y <? x)%float = true.
Proof.
  rewrite !is_nan_false, eqb_spec, !ltb_spec. unfold SFeqb, SFltb.
  intros Hx Hy. rewrite (SFcompare_antisym (Prim2SF x) (Prim2SF y)).
  destruct (SFcompare_some _ _ Hx Hy) as [c ->]. destruct c; cbn; congruence.
Qed.

Lemma abs_not_nan (x : float) : is_nan x = false -> is_nan (abs x) = false.
Proof.
  rewrite !is_nan_false, abs_spec. destruct (Prim2SF x); cbn; congruence.
Qed.

(** Subtracting a finite number from a number gives a number. *)
Lemma sub_finite_not_nan (x c : float) :
  is_nan x = false -> is_finite c = true -> is_nan (x - c) = false.
Proof.
  intros Hx Hc. apply is_nan_false. rewrite sub_spec.
  apply is_nan_false in Hx.
  assert (Hc' : Prim2SF c <> S754_nan /\ forall s, Prim2SF c <> S754_infinity s).
  { unfold is_finite in Hc. apply negb_true_iff, orb_false_elim in Hc as (Hn & Hi).
    apply is_nan_false in Hn. split; [exact Hn|]. intros s E.
    unfold is_infinity in Hi. rewrite eqb_spec, abs_spec, E in Hi. discriminate Hi. }
  destruct Hc' as (Hcn & Hci).
  pose proof (Prim2SF_valid x) as Vx. pose proof (Prim2SF_valid c) as Vc.
  destruct (Prim2SF x) as [sx|sx| |sx mx ex], (Prim2SF c) as [sc|sc| |sc mc ec];
    try congruence; try (exfalso; now apply (Hci sc));
    try (destruct sx, sc; discriminate); try discriminate.
  cbn [SpecFloat.valid_binary] in Vx, Vc.
  apply bounded_inv in Vx as (Lx & _), Vc as (Lc & _).
  unfold SF64sub, SFsub.
  match goal with |- binary_normalize _ _ ?m ?e _ <> _ =>
    destruct (binary_normalize_sign m e ltac:(lia)) as (_ & _ & H) end.
  exact H.
Qed.

(** *** NaN and zero in arithmetic *)

Lemma Prim2SF_zero : Prim2SF 0%float = S754_zero false.
Proof. reflexivity. Qed.

Lemma Prim2SF_nan : Prim2SF nan = S754_nan.
Proof. reflexivity. Qed.

Lemma nan_mul (c : float) : (nan * c)%float = nan.
Proof. apply Prim2SF_inj. rewrite mul_spec. reflexivity. Qed.

Lemma add_nan (a : float) : (a + nan)%float = nan.
Proof.
  apply Prim2SF_inj. rewrite add_spec, Prim2SF_nan.
  destruct (Prim2SF a); reflexivity.
Qed.

(** [0 * (b / 0)] is [NaN] whatever [b] is. *)
Lemma zero_mul_div_zero (b : float) : (0 * (b / 0))%float = nan.
Proof.
  apply Prim2SF_inj. rewrite mul_spec, div_spec, Prim2SF_zero.
  destruct (Prim2SF b) as [s|s| |s m e]; reflexivity.
Qed.

(** A positive number is truthy. *)
Lemma positive_truthy (v : float) : (0 <? v)%float = true -> truthy v = true.
Proof.
  unfold truthy, is_nan, is_zero. rewrite ltb_spec, !eqb_spec, Prim2SF_zero.
  unfold SFltb, SFeqb.
  destruct (Prim2SF v) as [s|s| |s m e] eqn:E; cbn [SFcompare]; try discriminate.
  - destruct s; [discriminate|]. reflexivity.
  - destruct s; [discriminate|]. intros _.
    rewrite Z.compare_refl, Pos.compare_cont_refl. reflexivity.
Qed.

Lemma or_else_not_nan (v : float) : is_nan (or_else v 0) = false.
Proof.
  unfold or_else, truthy. destruct (is_nan v) eqn:E; cbn [orb negb]; [reflexivity|].
  destruct (is_zero v); cbn [negb]; [reflexivity | exact E].
Qed.


End Float754.

(* ================================================================== *)
(** ** Facts about [Array.prototype.sort]                         *)
(* ================================================================== *)

Module SortFacts.
Import JS.
Section Facts.
Context {A : Type}.
Variable compareFn : A -> A -> float.

Lemma insert_perm (a : A) (l : list A) : Permutation (a :: l) (insert compareFn a l).
Proof.
  induction l as [|b l IH]; cbn [insert]; [reflexivity|].
  destruct (after compareFn a b); [|reflexivity].
  rewrite perm_swap. now apply perm_skip.
Qed.

Lemma sort_perm (l : list A) : Permutation l (sort compareFn l).
Proof.
  induction l as [|a l IH]; cbn [sort fold_right]; [reflexivity|].
  rewrite <- insert_perm. now apply perm_skip.
Qed.

Lemma sort_length (l : list A) : length (sort compareFn l) = length l.
Proof. symmetry. apply Permutation_length, sort_perm. Qed.

Lemma sort_Forall (P : A -> Prop) (l : list A) :
  Forall P l -> Forall P (sort compareFn l).
Proof. intros H. eapply Permutation_Forall; [apply sort_perm | exact H]. Qed.

(** The result is ordered by any relation that the comparator decides
    on the elements at hand. *)
Variable dom : A -> Prop.
Variable R : A -> A -> Prop.
Hypothesis after_true : forall a b, dom a -> dom b -> after compareFn a b = true -> R b a.
Hypothesis after_false : forall a b, dom a -> dom b -> after compareFn a b = false -> R a b.

Lemma insert_HdRel (c a : A) (l : list A) :
  R c a -> HdRel R c l -> HdRel R c (insert compareFn a l).
Proof.
  intros Hca Hl. destruct l as [|b l]; cbn [insert]; [now constructor|].
  destruct (after compareFn a b); constructor; [|assumption].
  now inversion Hl.
Qed.

Lemma insert_Sorted (a : A) (l : list A) :
  dom a -> Forall dom l -> Sorted R l -> Sorted R (insert compareFn a l).
Proof.
  intros Ha Hd Hs. induction l as [|b l IH]; cbn [insert].
  - repeat constructor.
  - inversion Hd; subst. inversion Hs; subst.
    destruct (after compareFn a b) eqn:E.
    + constructor; [now apply IH|].
      apply insert_HdRel; [now apply after_true | assumption].
    + constructor; [assumption|]. constructor. now apply after_false.
Qed.

Lemma sort_Sorted (l : list A) : Forall dom l -> Sorted R (sort compareFn l).
Proof.
  induction l as [|a l IH]; intros Hd; cbn [sort fold_right]; [constructor|].
  inversion Hd; subst. apply insert_Sorted; auto.
  apply sort_Forall; assumption.
Qed.
End Facts.
End SortFacts.

(* ================================================================== *)
(** ** Facts about arrays and index ranges                        *)
(* ================================================================== *)

Module ArrayFacts.
Import JS.

Lemma set_nth_length {A} (l : list A) : forall i v, length (set_nth l i v) = length l.
Proof.
  induction l as [|a l IH]; intros [|i] v; cbn [set_nth length]; auto.
Qed.

Lemma nth_error_set_nth_eq {A} (l : list A) : forall i v,
  (i < length l)%nat -> nth_error (set_nth l i v) i = Some v.
Proof.
  induction l as [|a l IH]; intros [|i] v H; cbn [set_nth nth_error length] in *;
    try lia; auto. apply IH. lia.
Qed.

Lemma nth_error_set_nth_neq {A} (l : list A) : forall i j v,
  i <> j -> nth_error (set_nth l i v) j = nth_error l j.
Proof.
  induction l as [|a l IH]; intros [|i] [|j] v H; cbn [set_nth nth_error]; auto.
  lia.
Qed.

Lemma get_nonneg {A} (l : list A) (i : Z) :
  0 <= i -> get l i = nth_error l (Z.to_nat i).
Proof. intros H. unfold get. destruct (i <? 0) eqn:E; [lia | reflexivity]. Qed.

Lemma get_of_nat {A} (l : list A) (j : nat) : get l (Z.of_nat j) = nth_error l j.
Proof. rewrite get_nonneg by lia. now rewrite Nat2Z.id. Qed.

Lemma range_length (lo hi : Z) : length (range lo hi) = Z.to_nat (hi - lo).
Proof. unfold range. now rewrite length_map, length_seq. Qed.

Lemma range_snoc (lo : Z) (k : nat) :
  range lo (lo + Z.of_nat (S k)) = range lo (lo + Z.of_nat k) ++ [lo + Z.of_nat k].
Proof.
  unfold range.
  replace (Z.to_nat (lo + Z.of_nat (S k) - lo)) with (S k) by lia.
  replace (Z.to_nat (lo + Z.of_nat k - lo)) with k by lia.
  rewrite seq_S, map_app. reflexivity.
Qed.

Lemma range_empty (lo hi : Z) : hi <= lo -> range lo hi = [].
Proof. intros H. unfold range. now replace (Z.to_nat (hi - lo)) with 0%nat by lia. Qed.

Lemma in_range (lo hi i : Z) : In i (range lo hi) <-> lo <= i < hi.
Proof.
  unfold range. rewrite in_map_iff. split.
  - intros (k & <- & Hk). apply in_seq in Hk. lia.
  - intros H. exists (Z.to_nat (i - lo)). split; [lia|]. apply in_seq. lia.
Qed.

Lemma nth_error_range (lo hi : Z) (k : nat) :
  (k < Z.to_nat (hi - lo))%nat -> nth_error (range lo hi) k = Some (lo + Z.of_nat k).
Proof.
  intros H. unfold range. rewrite nth_error_map, nth_error_seq.
  destruct (Nat.ltb_spec k (Z.to_nat (hi - lo))); [reflexivity | lia].
Qed.

Lemma NoDup_range (lo hi : Z) : NoDup (range lo hi).
Proof.
  unfold range. apply Finite.Injective_map_NoDup; [|apply seq_NoDup].
  intros a b H. lia.
Qed.

End ArrayFacts.

(* ================================================================== *)
(** ** Seat generation: numbering, overshoot, single row          *)
(* ================================================================== *)

Module GenerateProofs.
Import JS Parliament Float754 Spec Samples.

(** Seat numbers are the positions in the sorted array, counted from 1. *)
Lemma numberFrom_numbers (l : list SeatCoord) : forall index,
  map number (numberFrom index l) = map (fun k => index + Z.of_nat k + 1) (seq 0 (length l)).
Proof.
  induction l as [|s l IH]; intros index; cbn [numberFrom map length seq number];
    [reflexivity|].
  f_equal; [lia|]. rewrite IH, <- seq_shift, map_map. apply map_ext. intros k. lia.
Qed.

Lemma after_byAngle (a b : SeatCoord) : after byAngle a b = (theta a <? theta b)%float.
Proof. unfold after, byAngle. apply sub_pos. Qed.

Lemma sort_byAngle_Sorted (l : list SeatCoord) :
  Forall (fun c => is_nan (theta c) = false) l -> Sorted leftToRight (sort byAngle l).
Proof.
  apply SortFacts.sort_Sorted.
  - intros a b _ _. rewrite after_byAngle. apply ltb_leb.
  - intros a b Ha Hb. rewrite after_byAngle. now apply ltb_false_leb.
Qed.

Lemma radii_single_row (innerRadius outerRadius : float) :
  radii 1 innerRadius outerRadius = [nan].
Proof.
  change (radii 1 innerRadius outerRadius)
    with [(innerRadius + 0 * ((outerRadius - innerRadius) / 0))%float].
  rewrite zero_mul_div_zero, add_nan. reflexivity.
Qed.

Lemma numberFrom_pos (l : list SeatCoord) : forall i, map pos (numberFrom i l) = l.
Proof.
  induction l as [|s l IH]; intros i; cbn [numberFrom map pos]; [reflexivity|].
  now rewrite IH.
Qed.

Lemma Forall_numberFrom (P : SeatCoord -> Prop) (l : list SeatCoord) :
  Forall P l -> forall i, Forall (fun s => P (pos s)) (numberFrom i l).
Proof.
  induction 1 as [|c l Hc _ IH]; intros i; cbn [numberFrom]; constructor; auto.
Qed.

Lemma rowSeats_radius (Math_cos Math_sin : float -> float) (count : float)
      (rowIndex : nat) (rad : float) (l : list SeatCoord) :
  rowSeats Math_cos Math_sin count rowIndex rad = Some l ->
  Forall (fun c => r c = rad
                   /\ x c = (rad * Math_cos (theta c))%float
                   /\ y c = (rad * Math_sin (theta c))%float) l.
Proof.
  unfold rowSeats. destruct (loopCount count) as [n|]; [|discriminate].
  intros [= <-]. apply Forall_forall. intros c Hc.
  apply in_map_iff in Hc as (i & <- & _). cbn. auto.
Qed.

(** C9: the claim fails on the code.  With a single row the step is a
    division by zero, the only radius is [innerRadius + 0 * step = NaN],
    and every seat that is generated has a [NaN] radius and [NaN]
    coordinates, whatever the radii and the number of seats. *)
Theorem single_row_radius_is_NaN (Math_cos Math_sin : float -> float)
        (totalSeats : Z) (innerRadius outerRadius : float) (seats : list Seat) :
  generateParliamentSeats Math_cos Math_sin totalSeats 1 innerRadius outerRadius = Some seats ->
  Forall lostRadius seats.
Proof.
  unfold generateParliamentSeats. rewrite radii_single_row.
  cbn [map rowCounts Z.eqb Z.sub Z.add Z.opp Z.pos_sub pushRows nth].
  destruct (rowSeats Math_cos Math_sin (num_of_Z totalSeats - 0) 0 nan) as [l|] eqn:E;
    [|discriminate].
  rewrite app_nil_r. intros [= <-].
  apply Forall_numberFrom with (P := fun c => r c = nan /\ x c = nan /\ y c = nan).
  apply SortFacts.sort_Forall.
  eapply Forall_impl; [|exact (rowSeats_radius _ _ _ _ _ _ E)].
  cbn beta. intros c (-> & -> & ->). rewrite !nan_mul. auto.
Qed.

Lemma single_row_radius_is_NaN_witness :
  exists seats,
    generateParliamentSeats (fun a => a) (fun a => a) 3 1 60 260 = Some seats
    /\ length seats = 3%nat /\ Forall lostRadius seats.
Proof.
  eexists. split; [vm_compute; reflexivity|]. split; [reflexivity|].
  apply (single_row_radius_is_NaN (fun a => a) (fun a => a) 3 60 260).
  vm_compute. reflexivity.
Defined.

(** The generated seats are listed from left to right when their angles
    are numbers. *)
Lemma generated_order (Math_cos Math_sin : float -> float)
      (totalSeats rowCount : Z) (innerRadius outerRadius : float) (seats : list Seat) :
  generateParliamentSeats Math_cos Math_sin totalSeats rowCount innerRadius outerRadius
    = Some seats ->
  Forall (fun s => is_nan (theta (pos s)) = false) seats ->
  Sorted leftToRight (map pos seats).
Proof.
  unfold generateParliamentSeats.
  destruct (pushRows _ _ _ _ _) as [l|]; [|discriminate].
  intros [= <-] Hnum. rewrite numberFrom_pos.
  apply sort_byAngle_Sorted.
  rewrite <- Forall_map with (f := pos) (P := fun c => is_nan (theta c) = false) in Hnum.
  rewrite numberFrom_pos in Hnum.
  eapply Permutation_Forall; [|exact Hnum].
  apply Permutation_sym, SortFacts.sort_perm.
Qed.

(** Every generated seat carries its 1-based position as number. *)
Lemma generated_numbers (Math_cos Math_sin : float -> float)
      (totalSeats rowCount : Z) (innerRadius outerRadius : float) (seats : list Seat) :
  generateParliamentSeats Math_cos Math_sin totalSeats rowCount innerRadius outerRadius
    = Some seats ->
  map number seats = map (fun k => Z.of_nat k + 1) (seq 0 (length seats)).
Proof.
  unfold generateParliamentSeats.
  destruct (pushRows _ _ _ _ _) as [l|]; [|discriminate].
  intros [= <-]. rewrite numberFrom_numbers.
  replace (length (numberFrom 0 (sort byAngle l))) with (length (sort byAngle l)).
  - apply map_ext. intros k. lia.
  - rewrite <- (numberFrom_pos (sort byAngle l) 0) at 1. now rewrite length_map.
Qed.

(** C1: the claim fails on the code.  The last row receives
    [totalSeats - seatsAllocated] even when the rounded counts of the
    inner rows already exceed [totalSeats].  For 6 seats in 10 rows
    between radii 100 and 101 every inner row rounds to one seat, the
    last row is given -3 seats and pushes none, and 9 seats numbered 1 to
    9 are returned instead of 6; for 2 seats in 4 rows of radius 1 three
    seats are returned. *)
Theorem generateParliamentSeats_overshoot (Math_cos Math_sin : float -> float) :
  (let arcLengths := map (fun rad => (Math_PI * rad)%float) (radii 10 100 101) in
   rowCounts 6 10 (d3_sum arcLengths) arcLengths 0 0%float
   = [1; 1; 1; 1; 1; 1; 1; 1; 1; -3]%float)
  /\ option_map (map number) (generateParliamentSeats Math_cos Math_sin 6 10 100 101)
     = Some [1; 2; 3; 4; 5; 6; 7; 8; 9]
  /\ option_map (map number) (generateParliamentSeats Math_cos Math_sin 2 4 1 1)
     = Some [1; 2; 3].
Proof. repeat split; vm_compute; reflexivity. Qed.

End GenerateProofs.

(* ================================================================== *)
(** ** Party blocks: the three loops                              *)
(* ================================================================== *)

Module AssignLoops.
Import JS Parliament ArrayFacts.

Section Loops.
Variable seatCoords : list Seat.
Let n := length seatCoords.

(** *** The centre block *)

Lemma placeCenter_length (ind : Party.t) (s : Z) (fd : FinalData) (i : Z) :
  length (placeCenter seatCoords ind s fd i) = length fd.
Proof.
  unfold placeCenter.
  destruct ((0 <=? s + i) && (s + i <? Z.of_nat (length seatCoords))); [|reflexivity].
  destruct (get seatCoords (s + i)); [apply set_nth_length | reflexivity].
Qed.

Lemma placeCenter_fold (ind : Party.t) (s : Z) (k : nat) (fd : FinalData) :
  length fd = n ->
  forall j seat, nth_error seatCoords j = Some seat ->
  nth_error (fold_left (placeCenter seatCoords ind s) (range 0 (0 + Z.of_nat k)) fd) j =
  if (s <=? Z.of_nat j) && (Z.of_nat j <? s + Z.of_nat k)
  then Some (Some (assign seat ind (Z.of_nat j - s + 1)))
  else nth_error fd j.
Proof.
  intros Hlen. induction k as [|k IH]; intros j seat Hj.
  - rewrite range_empty by lia. cbn [fold_left].
    destruct (Z.leb_spec s (Z.of_nat j)), (Z.ltb_spec (Z.of_nat j) (s + Z.of_nat 0));
      cbn [andb]; try reflexivity; lia.
  - rewrite range_snoc, fold_left_app. cbn [fold_left].
    set (fdk := fold_left (placeCenter seatCoords ind s) (range 0 (0 + Z.of_nat k)) fd) in *.
    assert (Hk : length fdk = n).
    { subst fdk. clear IH. generalize (range 0 (0 + Z.of_nat k)). intros l.
      revert fd Hlen. induction l as [|a l IHl]; intros fd Hlen; cbn [fold_left]; auto.
      apply IHl. now rewrite placeCenter_length. }
    assert (Hjn : (j < n)%nat) by (apply nth_error_Some; congruence).
    specialize (IH j seat Hj).
    unfold placeCenter at 1. fold n. rewrite Z.add_0_l.
    destruct (Z.leb_spec 0 (s + Z.of_nat k)), (Z.ltb_spec (s + Z.of_nat k) (Z.of_nat n));
      cbn [andb].
    + rewrite get_nonneg by lia.
      destruct (nth_error seatCoords (Z.to_nat (s + Z.of_nat k))) as [seat'|] eqn:Es.
      2: { apply nth_error_None in Es. fold n in Es. lia. }
      destruct (Nat.eq_dec (Z.to_nat (s + Z.of_nat k)) j) as [E | E].
      * subst j. rewrite nth_error_set_nth_eq by lia.
        assert (seat' = seat) by congruence. subst seat'.
        destruct (Z.leb_spec s (Z.of_nat (Z.to_nat (s + Z.of_nat k)))),
          (Z.ltb_spec (Z.of_nat (Z.to_nat (s + Z.of_nat k))) (s + Z.of_nat (S k)));
          cbn [andb]; try lia.
        do 3 f_equal. lia.
      * rewrite nth_error_set_nth_neq by assumption. rewrite IH.
        destruct (Z.leb_spec s (Z.of_nat j)), (Z.ltb_spec (Z.of_nat j) (s + Z.of_nat k)),
          (Z.ltb_spec (Z.of_nat j) (s + Z.of_nat (S k))); cbn [andb]; try reflexivity; lia.
    + rewrite IH.
      destruct (Z.leb_spec s (Z.of_nat j)), (Z.ltb_spec (Z.of_nat j) (s + Z.of_nat k)),
        (Z.ltb_spec (Z.of_nat j) (s + Z.of_nat (S k))); cbn [andb]; try reflexivity; lia.
    + rewrite IH.
      destruct (Z.leb_spec s (Z.of_nat j)), (Z.ltb_spec (Z.of_nat j) (s + Z.of_nat k)),
        (Z.ltb_spec (Z.of_nat j) (s + Z.of_nat (S k))); cbn [andb]; try reflexivity; lia.
    + rewrite IH.
      destruct (Z.leb_spec s (Z.of_nat j)), (Z.ltb_spec (Z.of_nat j) (s + Z.of_nat k)),
        (Z.ltb_spec (Z.of_nat j) (s + Z.of_nat (S k))); cbn [andb]; try reflexivity; lia.
Qed.

Lemma placeCenter_fold_length (ind : Party.t) (s : Z) (idx : list Z) : forall fd,
  length (fold_left (placeCenter seatCoords ind s) idx fd) = length fd.
Proof.
  induction idx as [|a l IH]; intros fd; cbn [fold_left]; [reflexivity|].
  now rewrite IH, placeCenter_length.
Qed.

(** *** The side blocks *)

Lemma fill_take (p : Party.t) (fd : FinalData) (num i : Z) (seat : Seat) :
  0 <= i ->
  nth_error fd (Z.to_nat i) = Some None ->
  nth_error seatCoords (Z.to_nat i) = Some seat ->
  num <= Party.count p ->
  fill seatCoords p (fd, num) i
  = (set_nth fd (Z.to_nat i) (Some (assign seat p num)), num + 1).
Proof.
  intros Hi Hfd Hs Hn. unfold fill. rewrite !get_nonneg by lia. rewrite Hfd, Hs.
  destruct (Z.leb_spec num (Party.count p)); [reflexivity | lia].
Qed.

Lemma fill_fold_all (p : Party.t) (idx : list Z) : forall (fd : FinalData) (num : Z),
  length fd = n ->
  NoDup idx ->
  (forall i, In i idx -> 0 <= i < Z.of_nat n /\ nth_error fd (Z.to_nat i) = Some None) ->
  num + Z.of_nat (length idx) - 1 <= Party.count p ->
  exists fd',
    fold_left (fill seatCoords p) idx (fd, num) = (fd', num + Z.of_nat (length idx))
    /\ length fd' = n
    /\ (forall k i seat,
          nth_error idx k = Some i ->
          nth_error seatCoords (Z.to_nat i) = Some seat ->
          nth_error fd' (Z.to_nat i) = Some (Some (assign seat p (num + Z.of_nat k))))
    /\ (forall j, ~ In (Z.of_nat j) idx -> nth_error fd' j = nth_error fd j).
Proof.
  induction idx as [|i idx IH]; intros fd num Hlen Hnd Hnull Hq.
  - exists fd. cbn [fold_left length Z.of_nat]. rewrite Z.add_0_r.
    repeat split; auto. intros [|k] i seat H; discriminate.
  - inversion Hnd as [|? ? Hni Hnd']; subst.
    destruct (Hnull i (or_introl eq_refl)) as (Hi & Hfi).
    destruct (nth_error seatCoords (Z.to_nat i)) as [seat|] eqn:Es.
    2: { apply nth_error_None in Es. fold n in Es. lia. }
    cbn [fold_left length] in *.
    rewrite (fill_take p fd num i seat) by (auto; lia).
    set (fd1 := set_nth fd (Z.to_nat i) (Some (assign seat p num))).
    destruct (IH fd1 (num + 1)) as (fd' & Hf & Hl & Hin & Hout).
    + subst fd1. now rewrite set_nth_length.
    + assumption.
    + intros i' Hi'. destruct (Hnull i' (or_intror Hi')) as (Hr & Hn'). split; [exact Hr|].
      subst fd1. rewrite nth_error_set_nth_neq; [exact Hn'|].
      intros E. apply Hni. replace i with i' by lia. exact Hi'.
    + lia.
    + exists fd'. split; [eapply eq_trans; [exact Hf | f_equal; lia]|]. split; [exact Hl|]. split.
      * intros [|k] i' seat' Hk Hs'; cbn [nth_error] in Hk.
        -- injection Hk as <-. rewrite Hout.
           ++ subst fd1. rewrite nth_error_set_nth_eq by lia.
              rewrite Es in Hs'. injection Hs' as <-. do 3 f_equal. lia.
           ++ rewrite Z2Nat.id by lia. exact Hni.
        -- rewrite (Hin k i' seat' Hk Hs'). do 3 f_equal. lia.
      * intros j Hj. rewrite Hout by (intros H; apply Hj; now right).
        subst fd1. apply nth_error_set_nth_neq. intros E. apply Hj. left. lia.
Qed.

(** *** How many seats the loops can take *)

Lemma filteredData_set_nth (fd : FinalData) : forall i v,
  (length (filteredData (set_nth fd i v)) <= S (length (filteredData fd)))%nat.
Proof.
  induction fd as [|[a|] fd IH]; intros [|i] v; cbn [set_nth filteredData length].
  - lia.
  - lia.
  - destruct v; cbn [filteredData length]; lia.
  - specialize (IH i v). lia.
  - destruct v; cbn [filteredData length]; lia.
  - specialize (IH i v). lia.
Qed.

Lemma placeCenter_fold_bound (ind : Party.t) (s : Z) (idx : list Z) : forall fd,
  (length (filteredData (fold_left (placeCenter seatCoords ind s) idx fd))
   <= length (filteredData fd) + length idx)%nat.
Proof.
  induction idx as [|i idx IH]; intros fd; cbn [fold_left length]; [lia|].
  specialize (IH (placeCenter seatCoords ind s fd i)).
  assert (length (filteredData (placeCenter seatCoords ind s fd i))
          <= S (length (filteredData fd)))%nat; [|lia].
  unfold placeCenter.
  destruct ((0 <=? s + i) && (s + i <? Z.of_nat (length seatCoords))); [|lia].
  destruct (get seatCoords (s + i)); [apply filteredData_set_nth | lia].
Qed.

Lemma fill_fold_bound (p : Party.t) (idx : list Z) : forall (fd : FinalData) (num : Z),
  let st := fold_left (fill seatCoords p) idx (fd, num) in
  Z.of_nat (length (filteredData (fst st))) - Z.of_nat (length (filteredData fd))
    <= snd st - num
  /\ num <= snd st <= Z.max num (Party.count p + 1)
  /\ length (fst st) = length fd.
Proof.
  induction idx as [|i idx IH]; intros fd num; cbn [fold_left fst snd]; [lia|].
  assert (Hstep :
    let st1 := fill seatCoords p (fd, num) i in
    Z.of_nat (length (filteredData (fst st1))) - Z.of_nat (length (filteredData fd))
      <= snd st1 - num
    /\ num <= snd st1 <= Z.max num (Party.count p + 1)
    /\ length (fst st1) = length fd).
  { unfold fill.
    destruct (get fd i) as [[a|]|]; cbn [fst snd]; try lia.
    destruct (get seatCoords i) as [seat|]; cbn [fst snd]; try lia.
    destruct (Z.leb_spec num (Party.count p)); cbn [fst snd]; try lia.
    pose proof (filteredData_set_nth fd (Z.to_nat i) (Some (assign seat p num))).
    rewrite set_nth_length. lia. }
  cbv zeta in Hstep.
  destruct (fill seatCoords p (fd, num) i) as [fd1 num1]. cbn [fst snd] in Hstep.
  specialize (IH fd1 num1). cbv zeta in IH. lia.
Qed.

End Loops.
End AssignLoops.

(* ================================================================== *)
(** ** Party blocks: partition and mismatch                       *)
(* ================================================================== *)

Module PartyProofs.
Import JS Parliament ArrayFacts AssignLoops Spec Samples.

Lemma filteredData_full (fd : FinalData) :
  (forall i, (i < length fd)%nat -> exists a, nth_error fd i = Some (Some a)) ->
  length (filteredData fd) = length fd.
Proof.
  induction fd as [|[a|] fd IH]; intros H; cbn [filteredData length].
  - reflexivity.
  - f_equal. apply IH. intros i Hi. apply (H (S i)). cbn [length]. lia.
  - destruct (H 0%nat) as (a & Ha); [cbn [length]; lia | discriminate].
Qed.

(** C2: when the seat counts of the three allocations sum to the number
    of seats and the centre start index is valid (the second block fits
    on its left, the first and third blocks fit from it to the end),
    every seat index receives the party of its block and no other: the
    first allocation on [s .. s + count - 1], the second one leftwards
    down to index 0, the third one rightwards up to the end; no seat is
    left [null], so the filter keeps all of them. *)
Theorem party_partition (seatCoords : list Seat) (ind dpp kmt : Party.t) (s : Z) :
  0 <= Party.count ind -> 0 <= Party.count dpp -> 0 <= Party.count kmt ->
  Party.count ind + Party.count dpp + Party.count kmt = Z.of_nat (length seatCoords) ->
  Party.count dpp <= s ->
  s + Party.count ind + Party.count kmt <= Z.of_nat (length seatCoords) ->
  exists finalData,
    assignFrom seatCoords [ind; dpp; kmt] s = Some finalData
    /\ length finalData = length seatCoords
    /\ (forall i seat,
          nth_error seatCoords i = Some seat ->
          nth_error finalData i = Some (Some (blockOf ind dpp kmt s (Z.of_nat i) seat)))
    /\ length (filteredData finalData) = length seatCoords.
Proof.
  intros H0 H1 H2 Hsum Hl Hr.
  set (n := length seatCoords) in *.
  unfold assignFrom. fold n.
  set (fd0 := repeat None n : FinalData).
  assert (L0 : length fd0 = n) by apply repeat_length.
  set (fd1 := fold_left (placeCenter seatCoords ind s) (range 0 (Party.count ind)) fd0).
  assert (L1 : length fd1 = n) by (subst fd1; now rewrite placeCenter_fold_length).
  assert (C1 : forall j seat, nth_error seatCoords j = Some seat ->
            nth_error fd1 j =
            if (s <=? Z.of_nat j) && (Z.of_nat j <? s + Party.count ind)
            then Some (Some (assign seat ind (Z.of_nat j - s + 1)))
            else Some None).
  { intros j seat Hj. subst fd1.
    replace (Party.count ind) with (0 + Z.of_nat (Z.to_nat (Party.count ind))) at 1 by lia.
    rewrite (placeCenter_fold seatCoords ind s (Z.to_nat (Party.count ind)) fd0 L0 j seat Hj).
    rewrite Z2Nat.id by lia.
    destruct ((s <=? Z.of_nat j) && (Z.of_nat j <? s + Party.count ind)); [reflexivity|].
    assert (j < n)%nat by (apply nth_error_Some; congruence).
    subst fd0. now apply nth_error_repeat. }
  assert (Hseat : forall i, 0 <= i < Z.of_nat n ->
            exists seat, nth_error seatCoords (Z.to_nat i) = Some seat).
  { intros i Hi. destruct (nth_error seatCoords (Z.to_nat i)) eqn:E; [eauto|].
    apply nth_error_None in E. fold n in E. lia. }
  (* the left block *)
  destruct (fill_fold_all seatCoords dpp (rev (range 0 s)) fd1 1) as (fd2 & F2 & L2 & In2 & Out2).
  { exact L1. }
  { apply NoDup_rev, NoDup_range. }
  { intros i Hi. apply in_rev, in_range in Hi. fold n. split; [lia|].
    destruct (Hseat i ltac:(lia)) as (seat & Hs). rewrite (C1 _ _ Hs).
    rewrite Z2Nat.id by lia.
    destruct (Z.leb_spec s i); [lia | reflexivity]. }
  { rewrite length_rev, range_length. lia. }
  rewrite F2.
  (* the right block *)
  destruct (fill_fold_all seatCoords kmt (range (s + Party.count ind) (Z.of_nat n)) fd2 1)
    as (fd3 & F3 & L3 & In3 & Out3).
  { exact L2. }
  { apply NoDup_range. }
  { intros i Hi. apply in_range in Hi. fold n. split; [lia|].
    rewrite Out2.
    - destruct (Hseat i ltac:(lia)) as (seat & Hs). rewrite (C1 _ _ Hs).
      rewrite Z2Nat.id by lia.
      destruct (Z.ltb_spec i (s + Party.count ind)); [lia|]. now rewrite andb_false_r.
    - rewrite Z2Nat.id by lia. intros H. apply in_rev, in_range in H. lia. }
  { rewrite range_length. lia. }
  rewrite F3.
  assert (Hall : forall i seat, nth_error seatCoords i = Some seat ->
            nth_error fd3 i = Some (Some (blockOf ind dpp kmt s (Z.of_nat i) seat))).
  { intros i seat Hs.
    assert (Hi : (i < n)%nat) by (apply nth_error_Some; congruence).
    unfold blockOf.
    destruct (Z.ltb_spec (Z.of_nat i) s) as [Hlt | Hge].
    - rewrite Out3 by (intros H; apply in_range in H; lia).
      rewrite <- (Nat2Z.id i) at 1.
      rewrite (In2 (Z.to_nat (s - 1 - Z.of_nat i)) (Z.of_nat i) seat).
      + do 3 f_equal. lia.
      + rewrite nth_error_rev, range_length.
        destruct (Nat.ltb_spec (Z.to_nat (s - 1 - Z.of_nat i)) (Z.to_nat (s - 0))); [|lia].
        rewrite nth_error_range by lia. f_equal. lia.
      + now rewrite Nat2Z.id.
    - destruct (Z.ltb_spec (Z.of_nat i) (s + Party.count ind)) as [Hc | Hc].
      + rewrite Out3 by (intros H; apply in_range in H; lia).
        rewrite Out2 by (intros H; apply in_rev, in_range in H; lia).
        rewrite (C1 _ _ Hs).
        destruct (Z.leb_spec s (Z.of_nat i)), (Z.ltb_spec (Z.of_nat i) (s + Party.count ind));
          cbn [andb]; try lia. reflexivity.
      + rewrite <- (Nat2Z.id i) at 1.
        rewrite (In3 (Z.to_nat (Z.of_nat i - s - Party.count ind)) (Z.of_nat i) seat).
        * do 3 f_equal. lia.
        * rewrite nth_error_range by lia. f_equal. lia.
        * now rewrite Nat2Z.id. }
  exists fd3. split; [reflexivity|]. split; [exact L3|]. split; [exact Hall|].
  rewrite filteredData_full; [exact L3|].
  intros i Hi. rewrite L3 in Hi.
  destruct (Hseat (Z.of_nat i) ltac:(lia)) as (seat & Hs). rewrite Nat2Z.id in Hs.
  eexists. apply (Hall i seat Hs).
Qed.

Lemma party_partition_witness :
  exists finalData,
    assignParties seats79 partyData = Some finalData
    /\ length (filteredData finalData) = 79%nat.
Proof.
  destruct (party_partition seats79
              (Party.mk IND "無黨籍" 2 "#95A5A6")
              (Party.mk DPP "民進黨" 38 "#6BCB77")
              (Party.mk KMT "國民黨" 39 "#4D96FF") 38)%string
    as (finalData & Hfd & _ & _ & Hlen);
    try (vm_compute; congruence).
  exists finalData. split; [exact Hfd | exact Hlen].
Defined.

Lemma filteredData_nullCount (fd : FinalData) :
  (length (filteredData fd) + nullCount fd = length fd)%nat.
Proof.
  unfold nullCount.
  induction fd as [|[a|] fd IH]; cbn [filteredData filter isNull length]; lia.
Qed.

Lemma filteredData_repeat_None (k : nat) : filteredData (repeat None k) = [].
Proof. induction k; cbn [repeat filteredData]; auto. Qed.

(** C7, as claimed, does not hold: five seats with one seat per party
    leave two seats [null], and the filter drops them without any
    signal. *)
Lemma mismatch_not_surfaced :
  ~ (forall (seatCoords : list Seat) (parties : list Party.t) (finalData : FinalData),
       sumCounts parties <> Z.of_nat (length seatCoords) ->
       assignParties seatCoords parties = Some finalData ->
       length (filteredData finalData) = length seatCoords).
Proof.
  intros H.
  specialize (H fiveSeats oneEach
                [ Some (assign (dummySeat 1) (Party.mk DPP "DPP" 1 "green") 1);
                  Some (assign (dummySeat 2) (Party.mk IND "IND" 1 "grey") 1);
                  Some (assign (dummySeat 3) (Party.mk KMT "KMT" 1 "blue") 1);
                  None; None ]%string).
  cbn in H. specialize (H ltac:(lia) eq_refl). discriminate H.
Qed.

(** C7, amended: when the seat counts do not sum to the number of seats
    the assignment still returns; [finalData] keeps one entry per seat,
    the seats nobody took are [null] there and are removed by the filter,
    so at most as many seats as were allocated are handed on, fewer than
    were generated when the counts sum to less. *)
Theorem mismatch_filtered_out (seatCoords : list Seat) (ind dpp kmt : Party.t) :
  0 <= Party.count ind -> 0 <= Party.count dpp -> 0 <= Party.count kmt ->
  sumCounts [ind; dpp; kmt] <> Z.of_nat (length seatCoords) ->
  exists finalData,
    assignParties seatCoords [ind; dpp; kmt] = Some finalData
    /\ length finalData = length seatCoords
    /\ (length (filteredData finalData) + nullCount finalData = length seatCoords)%nat
    /\ Z.of_nat (length (filteredData finalData)) <= sumCounts [ind; dpp; kmt]
    /\ (sumCounts [ind; dpp; kmt] < Z.of_nat (length seatCoords) ->
        (length (filteredData finalData) < length seatCoords)%nat).
Proof.
  intros H0 H1 H2 _. unfold assignParties, assignFrom.
  set (s := Z.of_nat (length seatCoords) / 2 - 1).
  set (fd1 := fold_left (placeCenter seatCoords ind s) (range 0 (Party.count ind))
                        (repeat None (length seatCoords))).
  pose proof (placeCenter_fold_bound seatCoords ind s (range 0 (Party.count ind))
                (repeat None (length seatCoords))) as B1.
  fold fd1 in B1. rewrite filteredData_repeat_None, range_length in B1. cbn [length] in B1.
  assert (L1 : length fd1 = length seatCoords)
    by (subst fd1; now rewrite placeCenter_fold_length, repeat_length).
  pose proof (fill_fold_bound seatCoords dpp (rev (range 0 s)) fd1 1) as B2.
  cbv zeta in B2.
  destruct (fold_left (fill seatCoords dpp) (rev (range 0 s)) (fd1, 1)) as [fd2 num2].
  cbn [fst snd] in B2.
  pose proof (fill_fold_bound seatCoords kmt
                (range (s + Party.count ind) (Z.of_nat (length seatCoords))) fd2 1) as B3.
  cbv zeta in B3.
  destruct (fold_left (fill seatCoords kmt)
              (range (s + Party.count ind) (Z.of_nat (length seatCoords))) (fd2, 1))
    as [fd3 num3].
  cbn [fst snd] in B3.
  assert (L3 : length fd3 = length seatCoords) by lia.
  exists fd3. split; [reflexivity|]. split; [exact L3|].
  split; [rewrite filteredData_nullCount; exact L3|].
  assert (Hb : Z.of_nat (length (filteredData fd3)) <= sumCounts [ind; dpp; kmt])
    by (cbn [sumCounts fold_right]; lia).
  split; [exact Hb | lia].
Qed.

Lemma mismatch_filtered_out_witness :
  exists finalData,
    assignParties fiveSeats oneEach = Some finalData
    /\ nullCount finalData = 2%nat
    /\ (length (filteredData finalData) < length fiveSeats)%nat.
Proof.
  destruct (mismatch_filtered_out fiveSeats
              (Party.mk IND "IND" 1 "grey") (Party.mk DPP "DPP" 1 "green")
              (Party.mk KMT "KMT" 1 "blue"))%string
    as (finalData & Hfd & _ & _ & _ & Hlt);
    try (vm_compute; congruence).
  exists finalData. split; [exact Hfd|]. split.
  - vm_compute in Hfd. injection Hfd as <-. reflexivity.
  - apply Hlt. vm_compute. reflexivity.
Defined.

End PartyProofs.

(* ================================================================== *)
(** ** Candidate binding                                          *)
(* ================================================================== *)

Module BindingProofs.
Import JS Parliament Float754 ArrayFacts Spec Samples.

Lemma after_byPartyThenVotes (a b : Candidate) :
  after byPartyThenVotes a b =
  if negb (partyOrder (partyId a) - partyOrder (partyId b) =? 0)
  then partyOrder (partyId b) <? partyOrder (partyId a)
  else (votes a <? votes b)%float.
Proof.
  unfold after, byPartyThenVotes.
  destruct (partyId a), (partyId b); cbn [partyOrder Z.sub Z.add Z.opp Z.pos_sub Z.eqb negb];
    try reflexivity; apply sub_pos.
Qed.

Lemma loadCandidateData_Sorted (rows : list Candidate) :
  Forall numericVotes rows -> Sorted loadOrder (loadCandidateData rows).
Proof.
  apply SortFacts.sort_Sorted.
  - intros a b _ _. rewrite after_byPartyThenVotes. unfold loadOrder.
    destruct (Z.eqb_spec (partyOrder (partyId a) - partyOrder (partyId b)) 0); cbn [negb].
    + intros H. right. split; [lia | now apply ltb_leb].
    + intros H. apply Z.ltb_lt in H. now left.
  - intros a b Ha Hb. rewrite after_byPartyThenVotes. unfold loadOrder.
    destruct (Z.eqb_spec (partyOrder (partyId a) - partyOrder (partyId b)) 0); cbn [negb].
    + intros H. right. split; [lia | now apply ltb_false_leb].
    + intros H. apply Z.ltb_ge in H. left. lia.
Qed.

Lemma loadOrder_trans (a b c : Candidate) : loadOrder a b -> loadOrder b c -> loadOrder a c.
Proof.
  unfold loadOrder. intros [H1 | (H1 & L1)] [H2 | (H2 & L2)]; try (left; lia).
  right. split; [lia|]. eapply leb_trans; eassumption.
Qed.

Lemma StronglySorted_filter {A} (R : A -> A -> Prop) (f : A -> bool) (l : list A) :
  StronglySorted R l -> StronglySorted R (filter f l).
Proof.
  induction 1 as [|a l Hs IH Hall]; cbn [filter]; [constructor|].
  destruct (f a); [|exact IH]. constructor; [exact IH|].
  apply Forall_forall. intros x Hx. apply filter_In in Hx as (Hx & _).
  rewrite Forall_forall in Hall. now apply Hall.
Qed.

Lemma StronglySorted_impl_in {A} (R R' : A -> A -> Prop) (l : list A) :
  (forall a b, In a l -> In b l -> R a b -> R' a b) ->
  StronglySorted R l -> StronglySorted R' l.
Proof.
  intros Himp H. induction H as [|a l Hs IH Hall]; [constructor|].
  constructor.
  - apply IH. intros x y Hx Hy. apply Himp; now right.
  - rewrite Forall_forall in *. intros x Hx. apply Himp; [now left | now right | now apply Hall].
Qed.

(** The candidates of one party come out of [loadCandidateData] with the
    most voted first. *)
Lemma partyCandidates_sorted (partyId' : PartyId) (rows : list Candidate) :
  Forall numericVotes rows ->
  StronglySorted moreVotesFirst
    (filter (fun c => PartyId_eqb (partyId c) partyId') (loadCandidateData rows)).
Proof.
  intros Hnum.
  apply StronglySorted_impl_in with (R := loadOrder).
  - intros a b Ha Hb. apply filter_In in Ha as (_ & Ha), Hb as (_ & Hb).
    unfold loadOrder, moreVotesFirst.
    destruct (partyId a), (partyId b), partyId'; try discriminate;
      cbn [partyOrder]; intros [H | (_ & H)]; try lia; exact H.
  - apply StronglySorted_filter. apply Sorted_StronglySorted.
    + intros a b c. apply loadOrder_trans.
    + now apply loadCandidateData_Sorted.
Qed.

Lemma dist_not_nan (a : AssignedSeat) : is_nan (angleOf a) = false -> is_nan (dist a) = false.
Proof.
  intros H. unfold dist, Math_abs. apply abs_not_nan.
  apply sub_finite_not_nan; [exact H | reflexivity].
Qed.

Lemma after_byRowThenCenter (a b : AssignedSeat) :
  after byRowThenCenter a b =
  if negb (rowOf a =? rowOf b)%float then (rowOf a <? rowOf b)%float
  else (dist b <? dist a)%float.
Proof.
  unfold after, byRowThenCenter.
  destruct (negb (rowOf a =? rowOf b)%float); apply sub_pos.
Qed.

Lemma sort_group_Sorted (seats : list AssignedSeat) :
  Forall numeric seats -> Sorted inOrder (sort byRowThenCenter seats).
Proof.
  apply SortFacts.sort_Sorted.
  - intros a b _ _. rewrite after_byRowThenCenter. unfold inOrder.
    destruct (rowOf a =? rowOf b)%float eqn:E; cbn [negb]; intros H.
    + right. split; [now rewrite eqb_sym | now apply ltb_leb].
    + now left.
  - intros a b (Ra & Ta) (Rb & Tb). rewrite after_byRowThenCenter. unfold inOrder.
    destruct (rowOf a =? rowOf b)%float eqn:E; cbn [negb]; intros H.
    + right. split; [reflexivity|]. apply ltb_false_leb; auto using dist_not_nan.
    + left. now apply ltb_trichotomy.
Qed.

Lemma bindFrom_assigned (partyCandidates : list Candidate) (seats : list AssignedSeat) :
  forall index, map assigned (bindFrom index seats partyCandidates) = seats.
Proof.
  induction seats as [|s seats IH]; intros index; cbn [bindFrom map]; [reflexivity|].
  rewrite IH. destruct (nth_error partyCandidates index); reflexivity.
Qed.

Lemma bindFrom_nth (partyCandidates : list Candidate) (seats : list AssignedSeat) :
  forall index i b,
    nth_error (bindFrom index seats partyCandidates) i = Some b ->
    rank b = Z.of_nat (index + i) + 1
    /\ match nth_error partyCandidates (index + i) with
       | Some candidate =>
           boundName b = candidateName candidate /\ boundVotes b = votes candidate
       | None =>
           boundName b = placeholderName (Z.of_nat (index + i)) /\ boundVotes b = 0%float
       end.
Proof.
  induction seats as [|s seats IH]; intros index [|i] b; cbn [bindFrom nth_error];
    try discriminate.
  - rewrite Nat.add_0_r. intros [= <-].
    destruct (nth_error partyCandidates index); cbn; auto.
  - intros H. replace (index + S i)%nat with (S index + i)%nat by lia.
    now apply IH.
Qed.


(** C5: the seats of a party group are re-sorted, outer row first and,
    inside a row, nearest to the top centre first (this is the order of
    the result whenever the rows and angles of the group are numbers);
    the candidates of the party are bound in that order, the seat at
    position [i] receiving rank [i + 1] and the name and votes of the
    party's candidate [i] (a placeholder name and zero votes when the
    party has fewer candidates); and the candidates of a party come out
    of [loadCandidateData] with the most voted first. *)
Theorem candidate_binding (partyId' : PartyId) (data : list AssignedSeat)
        (candidates : list Candidate) :
  let seats := partyGroup partyId' data in
  let partyCandidates := filter (fun c => PartyId_eqb (partyId c) partyId') candidates in
  let bound := bindGroup partyId' data candidates in
  Permutation seats (map assigned bound)
  /\ (Forall numeric seats -> Sorted inOrder (map assigned bound))
  /\ (forall i b, nth_error bound i = Some b ->
        rank b = Z.of_nat i + 1
        /\ match nth_error partyCandidates i with
           | Some candidate =>
               boundName b = candidateName candidate /\ boundVotes b = votes candidate
           | None =>
               boundName b = placeholderName (Z.of_nat i) /\ boundVotes b = 0%float
           end)
  /\ (forall rows, candidates = loadCandidateData rows -> Forall numericVotes rows ->
        StronglySorted moreVotesFirst partyCandidates).
Proof.
  cbv zeta. unfold bindGroup. rewrite bindFrom_assigned.
  split; [apply SortFacts.sort_perm|].
  split; [apply sort_group_Sorted|].
  split.
  - intros i b Hb. apply bindFrom_nth in Hb. exact Hb.
  - intros rows -> Hrows. now apply partyCandidates_sorted.
Qed.

Lemma candidate_binding_witness :
  Forall numeric (partyGroup KMT sampleData)
  /\ Sorted inOrder (map assigned (bindGroup KMT sampleData (loadCandidateData sampleRows)))
  /\ map rank (bindGroup KMT sampleData (loadCandidateData sampleRows)) = [1; 2; 3]
  /\ map boundVotes (bindGroup KMT sampleData (loadCandidateData sampleRows))
     = [90000; 70000; 0]%float
  /\ StronglySorted moreVotesFirst
       (filter (fun c => PartyId_eqb (partyId c) KMT) (loadCandidateData sampleRows)).
Proof.
  assert (H : Forall numeric (partyGroup KMT sampleData))
    by (vm_compute; repeat constructor).
  split; [exact H|].
  destruct (candidate_binding KMT sampleData (loadCandidateData sampleRows))
    as (_ & Hs & _ & Hc).
  split; [exact (Hs H)|]. split; [reflexivity|]. split; [reflexivity|].
  apply (Hc sampleRows eq_refl). vm_compute. repeat constructor.
Defined.

End BindingProofs.

(* ================================================================== *)
(** ** Circle radius                                              *)
(* ================================================================== *)

Module RadiusProofs.
Import Reals Lra.
Import JS Parliament IdealRadius.
#[local] Open Scope R_scope.


Lemma seatRadiusR_double (v : R) :
  0 <= v -> seatRadiusR (2 * v) = sqrt 2 * seatRadiusR v.
Proof.
  intros Hv. unfold seatRadiusR, radiusFormula.
  replace (2 * v / (18 * PI)) with (2 * (v / (18 * PI)))
    by (field; apply PI_neq0).
  apply sqrt_mult_alt. lra.
Qed.

Lemma seatRadiusR_area (v : R) :
  0 <= v -> PI * (seatRadiusR v * seatRadiusR v) = v / 18.
Proof.
  intros Hv. unfold seatRadiusR, radiusFormula.
  pose proof PI_RGT_0 as Hpi.
  rewrite sqrt_sqrt.
  - field. lra.
  - apply Rmult_le_pos; [assumption|]. left. apply Rinv_0_lt_compat. lra.
Qed.

Lemma seatRadiusR_not_linear (v : R) :
  0 < v -> seatRadiusR (2 * v) <> 2 * seatRadiusR v.
Proof.
  intros Hv H. rewrite seatRadiusR_double in H by lra.
  assert (Hs : 0 < seatRadiusR v).
  { unfold seatRadiusR, radiusFormula. apply sqrt_lt_R0.
    pose proof PI_RGT_0. apply Rdiv_lt_0_compat; lra. }
  assert (H2 : sqrt 2 = 2) by (apply Rmult_eq_reg_r with (seatRadiusR v); lra).
  pose proof (sqrt_sqrt 2 ltac:(lra)) as Hq. rewrite H2 in Hq. lra.
Qed.

(** C6: a seat with a positive vote count gets the radius
    [sqrt(votes / (areaDivisor * PI))]; any other seat (zero votes, or a
    vote count that is not a number) gets the default radius.  Read over
    the reals the formula makes the circle area [votes / areaDivisor], so
    doubling the votes multiplies the radius by [sqrt 2], and not by
    2. *)
Theorem seat_radius_area_proportional (baseRadius' votes' : float) (v : R) :
  ((0 <? votes')%float = true ->
     seatRadius baseRadius' votes'
     = JS.Math_sqrt (votes' / (areaDivisor * JS.Math_PI))%float)
  /\ ((0 <? votes')%float = false -> seatRadius baseRadius' votes' = baseRadius')
  /\ (0 <= v ->
        seatRadiusR (2 * v) = sqrt 2 * seatRadiusR v
        /\ PI * (seatRadiusR v * seatRadiusR v) = v / 18)
  /\ (0 < v -> seatRadiusR (2 * v) <> 2 * seatRadiusR v).
Proof.
  repeat split.
  - intros H. unfold seatRadius. rewrite H, (Float754.positive_truthy _ H). reflexivity.
  - intros H. unfold seatRadius. rewrite H, andb_false_r. reflexivity.
  - now apply seatRadiusR_double.
  - now apply seatRadiusR_area.
  - apply seatRadiusR_not_linear.
Qed.

Lemma seat_radius_area_proportional_witness :
  seatRadius 18 36000 = Math_sqrt (36000 / (areaDivisor * Math_PI))%float
  /\ seatRadius 18 0 = 18%float
  /\ seatRadius 18 nan = 18%float
  /\ seatRadiusR (2 * 1)%R = (sqrt 2 * seatRadiusR 1)%R.
Proof.
  destruct (seat_radius_area_proportional 18 36000 1) as (Hpos & _ & Hreal & _).
  destruct (seat_radius_area_proportional 18 0 1) as (_ & Hzero & _).
  destruct (seat_radius_area_proportional 18 nan 1) as (_ & Hmissing & _).
  split; [apply Hpos; reflexivity|].
  split; [apply Hzero; reflexivity|].
  split; [apply Hmissing; reflexivity|].
  apply Hreal. exact Rle_0_1.
Defined.

End RadiusProofs.

(* ================================================================== *)
(** ** Grid layout                                                *)
(* ================================================================== *)

Module GridProofs.
Import JS Grid Float754 Spec Samples.









Lemma usable_inv (v : float) :
  negb (Number_isFinite v) || (v <=? 0)%float = false ->
  Number_isFinite v = true /\ (0 <? v)%float = true /\ ~ unusable v.
Proof.
  intros H. apply orb_false_elim in H as (Hf & Hle).
  apply negb_false_iff in Hf. split; [exact Hf|].
  assert (Hn : is_nan v = false).
  { unfold Number_isFinite, is_finite in Hf. apply negb_true_iff in Hf.
    now apply orb_false_elim in Hf as (Hf & _). }
  split.
  - destruct (0 <? v)%float eqn:E; [reflexivity|].
    rewrite (ltb_false_leb v 0) in Hle; [discriminate | exact Hn | reflexivity | exact E].
  - intros [Hu | Hu]; congruence.
Qed.



(** C8: the layout is refused ([gridLayoutConfig] is set to [null]) when
    no cell has coordinates, when the viewport has a zero dimension, and
    whenever the computed [cellSize] is not finite or not positive; a
    layout that is produced has a finite, positive [cellSize]. *)
Theorem grid_layout_fails_explicitly (features : list Feature)
        (svgAttr : option (float * float)) (rectWidth rectHeight : float) :
  let layout := drawHexGridOnly features svgAttr rectWidth rectHeight in
  let svgWidth := svgSize (option_map fst svgAttr) rectWidth in
  let svgHeight := svgSize (option_map snd svgAttr) rectHeight in
  (gridsWithXY features = [] -> layout = None)
  /\ ((svgWidth =? 0)%float = true \/ (svgHeight =? 0)%float = true -> layout = None)
  /\ (forall g rest, gridsWithXY features = g :: rest ->
        let rangeX := rangeOf (d3_max (fst g) (map fst rest)) (d3_min (fst g) (map fst rest)) in
        let rangeY := rangeOf (d3_max (snd g) (map snd rest)) (d3_min (snd g) (map snd rest)) in
        let cellSize := cellSizeOf svgWidth svgHeight rangeX rangeY in
        Number_isFinite cellSize = false \/ (cellSize <=? 0)%float = true ->
        layout = None)
  /\ (forall cfg, layout = Some cfg ->
        Number_isFinite (cellSize cfg) = true /\ (0 <? cellSize cfg)%float = true).
Proof.
  cbv zeta. unfold drawHexGridOnly.
  set (svgWidth := svgSize (option_map fst svgAttr) rectWidth).
  set (svgHeight := svgSize (option_map snd svgAttr) rectHeight).
  split; [|split; [|split]].
  - intros ->. reflexivity.
  - intros H. destruct (gridsWithXY features); [reflexivity|].
    destruct H as [-> | ->]; rewrite ?orb_true_r; reflexivity.
  - intros g rest -> H.
    destruct (negb (Number_isFinite svgWidth) || negb (Number_isFinite svgHeight)
              || (svgWidth =? 0)%float || (svgHeight =? 0)%float); [reflexivity|].
    destruct H as [-> | ->]; rewrite ?orb_true_r; reflexivity.
  - intros cfg. destruct (gridsWithXY features) as [|g rest]; [discriminate|].
    destruct (negb (Number_isFinite svgWidth) || negb (Number_isFinite svgHeight)
              || (svgWidth =? 0)%float || (svgHeight =? 0)%float); [discriminate|].
    match goal with |- context [if ?c then None else _] => destruct c eqn:Ecs end;
      [discriminate|].
    intros [= <-]. cbn [cellSize]. now apply usable_inv in Ecs as (? & ? & _).
Qed.

Lemma grid_layout_fails_explicitly_witness :
  drawHexGridOnly [] (Some (500, 500)%float) 0%float 0%float = None
  /\ drawHexGridOnly fourCells (Some (0, 0)%float) 0%float 0%float = None
  /\ drawHexGridOnly fourCells (Some (80, 500)%float) 0%float 0%float = None.
Proof.
  destruct (grid_layout_fails_explicitly [] (Some (500, 500)%float) 0%float 0%float)
    as (Hempty & _).
  destruct (grid_layout_fails_explicitly fourCells (Some (0, 0)%float) 0%float 0%float)
    as (_ & Hzero & _).
  destruct (grid_layout_fails_explicitly fourCells (Some (80, 500)%float) 0%float 0%float)
    as (_ & _ & Hcell & _).
  split; [apply Hempty; reflexivity|].
  split; [apply Hzero; left; reflexivity|].
  apply (Hcell (0, 0) [(1, 0); (0, 1); (1, 1)] eq_refl). right. reflexivity.
Defined.

End GridProofs.

(* ================================================================== *)
(** ** Jenks natural breaks                                       *)
(* ================================================================== *)

Module JenksProofs.
Import JS Jenks ArrayFacts Spec Samples.

Lemma write2_other {A} (M : list (list A)) (i j : Z) (v : A) (r : nat) :
  Z.of_nat r <> i -> nth_error (write2 M i j v) r = nth_error M r.
Proof.
  intros H. unfold write2. destruct (get M i) eqn:E; [|reflexivity].
  destruct (0 <=? j); [|reflexivity].
  apply nth_error_set_nth_neq. intros E'. apply H.
  unfold get in E. destruct (Z.ltb_spec i 0); [discriminate | lia].
Qed.

Lemma fold_left_invariant {S I : Type} (f : S -> I -> S) (P : S -> Prop) (idx : list I) :
  (forall st i, In i idx -> P st -> P (f st i)) ->
  forall st, P st -> P (fold_left f idx st).
Proof.
  induction idx as [|i idx IH]; intros Hf st Hst; cbn [fold_left]; [exact Hst|].
  apply IH.
  - intros st' i' Hi'. apply Hf. now right.
  - apply Hf; [now left | exact Hst].
Qed.

Section LastRow.
Variable sortedData : list float.
Variable nClasses : Z.
Let dataLength := Z.of_nat (length sortedData).
Hypothesis nonempty : 0 < dataLength.

(** The row [lowerClassLimit[dataLength]] is never written. *)

Lemma initColumn_lastRow (st : Matrix * Limits) (i : Z) :
  lastRow sortedData (snd (initColumn dataLength st i)) = lastRow sortedData (snd st).
Proof.
  destruct st as [M L]. cbn [initColumn snd]. unfold lastRow.
  apply write2_other. fold dataLength. lia.
Qed.

Lemma relax_lastRow (l i4 idx : Z) (v : float) (st : Matrix * Limits) (j : Z) :
  l < dataLength ->
  lastRow sortedData (snd (relax l i4 idx v st j)) = lastRow sortedData (snd st).
Proof.
  intros Hl. destruct st as [M L]. unfold relax.
  destruct (v + read2 M i4 (j - 1) nan <=? read2 M l j nan)%float; cbn [snd];
    [|reflexivity].
  unfold lastRow. apply write2_other. fold dataLength. lia.
Qed.

Lemma innerStep_lastRow (l : Z) (st : Sums * (Matrix * Limits)) (m : Z) :
  l < dataLength ->
  lastRow sortedData (snd (snd (innerStep sortedData nClasses l st m))) = lastRow sortedData (snd (snd st)).
Proof.
  intros Hl. destruct st as [s tables]. unfold innerStep. cbn [snd].
  destruct (negb (l - m + 1 - 1 =? 0)); [|reflexivity].
  apply (fold_left_invariant
           (relax l (l - m + 1 - 1) (l - m + 1)
              (sumSquares s + _ * _ - (sum s + _) * (sum s + _) / (w s + 1))%float)
           (fun t => lastRow sortedData (snd t) = lastRow sortedData (snd tables))); [|reflexivity].
  intros t j _ Ht. cbn beta in *. now rewrite relax_lastRow.
Qed.

Lemma outerStep_lastRow (st : float * (Matrix * Limits)) (l : Z) :
  l < dataLength ->
  lastRow sortedData (snd (snd (outerStep sortedData nClasses st l))) = lastRow sortedData (snd (snd st)).
Proof.
  intros Hl. destruct st as [v0 tables]. unfold outerStep.
  pose proof (fold_left_invariant (innerStep sortedData nClasses l)
                (fun t => lastRow sortedData (snd (snd t)) = lastRow sortedData (snd tables))
                (range 0 (l + 1))) as H.
  specialize (H ltac:(intros t m _ Ht; cbn beta in *; now rewrite innerStep_lastRow)
                (mkSums 0 0 0 v0, tables) eq_refl).
  destruct (fold_left (innerStep sortedData nClasses l) (range 0 (l + 1))
              (mkSums 0 0 0 v0, tables)) as [s [M L]].
  cbn [snd] in *. rewrite <- H. unfold lastRow. apply write2_other.
  fold dataLength. lia.
Qed.

Lemma tables_lastRow :
  lastRow sortedData (snd (snd
    (fold_left (outerStep sortedData nClasses) (range 0 dataLength)
       (0%float,
        fold_left (initColumn dataLength) (range 1 (nClasses + 1))
          (repeat (repeat 0%float (Z.to_nat (nClasses + 1))) (Z.to_nat (dataLength + 1)),
           repeat (repeat 0 (Z.to_nat (nClasses + 1))) (Z.to_nat (dataLength + 1)))))))
  = Some (repeat 0 (Z.to_nat (nClasses + 1))).
Proof.
  set (t0 := (repeat (repeat 0%float (Z.to_nat (nClasses + 1))) (Z.to_nat (dataLength + 1)),
              repeat (repeat 0 (Z.to_nat (nClasses + 1))) (Z.to_nat (dataLength + 1)))).
  set (t1 := fold_left (initColumn dataLength) (range 1 (nClasses + 1)) t0).
  assert (H0 : lastRow sortedData (snd t0) = Some (repeat 0 (Z.to_nat (nClasses + 1)))).
  { unfold lastRow, t0. cbn [snd]. apply nth_error_repeat. fold dataLength. lia. }
  assert (H1 : lastRow sortedData (snd t1) = Some (repeat 0 (Z.to_nat (nClasses + 1)))).
  { apply (fold_left_invariant (initColumn dataLength)
             (fun t => lastRow sortedData (snd t) = Some (repeat 0 (Z.to_nat (nClasses + 1)))));
      [|exact H0].
    intros t i _ Ht. cbn beta in *. now rewrite initColumn_lastRow. }
  apply (fold_left_invariant (outerStep sortedData nClasses)
           (fun t => lastRow sortedData (snd (snd t)) = Some (repeat 0 (Z.to_nat (nClasses + 1)))));
    [|exact H1].
  intros t l Hl Ht. cbn beta in *. apply in_range in Hl. rewrite outerStep_lastRow by lia. exact Ht.
Qed.

End LastRow.

Lemma extract_TypeError (sortedData : list float) (L : Limits) (idx : list Z) :
  fold_left (extractStep sortedData L) idx TypeError = TypeError.
Proof. induction idx; cbn [fold_left extractStep]; auto. Qed.

Lemma extract_first (sortedData : list float) (L : Limits) (k : Z) :
  nth_error L (length sortedData) = Some (repeat 0 (Z.to_nat (k + 1))) ->
  1 <= k ->
  extractStep sortedData L (Return ([], Some (Z.of_nat (length sortedData)))) k
  = Return (writeGrow [] (Z.to_nat (k - 1)) None, Some (-1)).
Proof.
  intros Hrow Hk. unfold extractStep.
  rewrite get_of_nat, Hrow, get_nonneg by lia.
  rewrite nth_error_repeat by lia. reflexivity.
Qed.

Lemma extract_lost (sortedData : list float) (L : Limits)
      (classMarkers : list (option float)) (j : Z) :
  extractStep sortedData L (Return (classMarkers, Some (-1))) j = TypeError.
Proof. reflexivity. Qed.

Lemma descending_two (k : Z) :
  2 <= k -> exists rest, rev (range 1 (k + 1)) = k :: (k - 1) :: rest.
Proof.
  intros Hk. exists (rev (range 1 (1 + Z.of_nat (Z.to_nat (k - 2))))).
  replace (k + 1) with (1 + Z.of_nat (S (S (Z.to_nat (k - 2))))) by lia.
  rewrite !range_snoc, !rev_app_distr. cbn [rev app].
  f_equal; [lia|]. f_equal. lia.
Qed.

Lemma descending_one : rev (range 1 (1 + 1)) = [1].
Proof. reflexivity. Qed.

(** C4: the claim fails on the code.  The loop over [l] stops before the
    row [dataLength] of [lowerClassLimit], which keeps its initial zeros;
    the extraction starts from that row, reads limit 0, moves to row -1
    and, with two classes or more, throws a [TypeError] on the next read.
    With a single class the call returns one [undefined] break. *)
Theorem jenks_breaks_not_produced (data : list float) (nClasses : Z) :
  ((2 <= length data)%nat -> 2 <= nClasses ->
     jenksNaturalBreaks data nClasses = TypeError)
  /\ ((1 <= length data)%nat -> 1 <= nClasses ->
      nClasses = 1 \/ length data = 1%nat ->
      jenksNaturalBreaks data nClasses = Return [None]).
Proof.
  assert (Hlen : length (sort byValue data) = length data) by apply SortFacts.sort_length.
  split.
  - intros Hn Hk. unfold jenksNaturalBreaks.
    destruct data as [|d0 data']; [cbn [length] in Hn; lia|].
    set (data := d0 :: data') in *.
    set (sortedData := sort byValue data) in *.
    set (k := if Z.of_nat (length sortedData) <? nClasses
              then Z.of_nat (length sortedData) else nClasses).
    assert (Hk2 : 2 <= k) by (subst k; destruct (Z.ltb_spec (Z.of_nat (length sortedData)) nClasses); lia).
    pose proof (tables_lastRow sortedData k ltac:(lia)) as Hrow.
    destruct (fold_left (outerStep sortedData k) (range 0 (Z.of_nat (length sortedData))) _)
      as [v [M L]].
    cbn [snd] in Hrow. unfold lastRow in Hrow.
    destruct (descending_two k Hk2) as (rest & ->).
    cbn [fold_left].
    rewrite (extract_first sortedData L k Hrow) by lia.
    rewrite extract_lost, extract_TypeError. reflexivity.
  - intros Hn Hk Hone. unfold jenksNaturalBreaks.
    destruct data as [|d0 data']; [cbn [length] in Hn; lia|].
    set (data := d0 :: data') in *.
    set (sortedData := sort byValue data) in *.
    set (k := if Z.of_nat (length sortedData) <? nClasses
              then Z.of_nat (length sortedData) else nClasses).
    assert (Hk1 : k = 1) by (subst k; destruct (Z.ltb_spec (Z.of_nat (length sortedData)) nClasses); lia).
    pose proof (tables_lastRow sortedData k ltac:(lia)) as Hrow.
    destruct (fold_left (outerStep sortedData k) (range 0 (Z.of_nat (length sortedData))) _)
      as [v [M L]].
    cbn [snd] in Hrow. unfold lastRow in Hrow.
    rewrite Hk1 in *. rewrite descending_one.
    cbn [fold_left].
    rewrite (extract_first sortedData L 1 Hrow) by lia. reflexivity.
Qed.

Lemma jenks_breaks_not_produced_witness :
  jenksNaturalBreaks threeGroups 3 = TypeError
  /\ jenksNaturalBreaks threeGroups 1 = Return [None].
Proof.
  destruct (jenks_breaks_not_produced threeGroups 3) as (Hthrow & _).
  destruct (jenks_breaks_not_produced threeGroups 1) as (_ & Hone).
  split.
  - apply Hthrow; [cbn; lia | lia].
  - apply Hone; [cbn; lia | lia | left; reflexivity].
Defined.

End JenksProofs.

(* ================================================================== *)
(** ** Vote median                                                *)
(* ================================================================== *)

Module BarProofs.
Import JS Bar Float754 ArrayFacts Spec Samples.

Lemma after_ascending (a b : float) : after ascending a b = (b <? a)%float.
Proof. unfold after, ascending. apply sub_pos. Qed.

Lemma sort_ascending_Sorted (vs : list float) :
  Forall (fun v => is_nan v = false) vs -> Sorted leF (sort ascending vs).
Proof.
  apply SortFacts.sort_Sorted.
  - intros a b _ _. rewrite after_ascending. apply ltb_leb.
  - intros a b Ha Hb. rewrite after_ascending. now apply ltb_false_leb.
Qed.

Lemma at_nth (l : list float) (k : nat) : at_ l (Z.of_nat k) = nth k l nan.
Proof.
  unfold at_. rewrite get_of_nat.
  destruct (nth_error l k) eqn:E.
  - symmetry. now apply nth_error_nth.
  - symmetry. apply nth_overflow. now apply nth_error_None.
Qed.

(** C10: the votes of a group, with [0] standing for a missing count,
    are sorted in ascending order; the median is [0] for an empty group,
    the middle element for an odd number of candidates and the mean of
    the two middle elements for an even number. *)
Theorem median_of_group (group : list Parliament.Candidate) :
  let votes := votesOf group in
  let sorted := sort ascending votes in
  Permutation votes sorted
  /\ Sorted leF sorted
  /\ (group = [] -> median votes = 0%float)
  /\ (forall k, length group = (2 * k + 1)%nat -> median votes = nth k sorted nan)
  /\ (forall k, length group = (2 * k + 2)%nat ->
        median votes = ((nth k sorted nan + nth (k + 1) sorted nan) / 2)%float).
Proof.
  cbv zeta.
  assert (Hlen : length (sort ascending (votesOf group)) = length group)
    by (rewrite SortFacts.sort_length; unfold votesOf; apply length_map).
  split; [apply SortFacts.sort_perm|].
  split.
  { apply sort_ascending_Sorted. unfold votesOf. apply Forall_forall.
    intros v Hv. apply in_map_iff in Hv as (d & <- & _). apply or_else_not_nan. }
  split; [intros ->; reflexivity|].
  split.
  - intros k Hk. unfold median. rewrite Hlen, Hk.
    replace (Z.of_nat (2 * k + 1)) with (1 + Z.of_nat k * 2) by lia.
    destruct (Z.ltb_spec 0 (1 + Z.of_nat k * 2)); [|lia].
    rewrite Z.mod_add, Z.div_add by lia.
    change (1 mod 2) with 1. change (1 / 2) with 0. cbn [Z.eqb Z.add].
    apply at_nth.
  - intros k Hk. unfold median. rewrite Hlen, Hk.
    replace (Z.of_nat (2 * k + 2)) with (0 + (Z.of_nat k + 1) * 2) by lia.
    destruct (Z.ltb_spec 0 (0 + (Z.of_nat k + 1) * 2)); [|lia].
    rewrite Z.mod_add, Z.div_add by lia.
    change (0 mod 2) with 0. change (0 / 2) with 0. cbn [Z.eqb Z.add].
    replace (Z.of_nat k + 1 - 1) with (Z.of_nat k) by lia.
    replace (Z.of_nat k + 1) with (Z.of_nat (k + 1)) by lia.
    now rewrite !at_nth.
Qed.

Lemma median_of_group_witness :
  median (votesOf (firstn 3 sampleRows)) = 80000%float
  /\ median (votesOf sampleRows) = 75000%float
  /\ median (votesOf []) = 0%float.
Proof.
  destruct (median_of_group (firstn 3 sampleRows)) as (_ & _ & _ & Hodd & _).
  destruct (median_of_group sampleRows) as (_ & _ & _ & _ & Heven).
  destruct (median_of_group []) as (_ & _ & Hempty & _).
  split; [rewrite (Hodd 1%nat eq_refl); reflexivity|].
  split; [rewrite (Heven 1%nat eq_refl); reflexivity|].
  apply Hempty. reflexivity.
Defined.

End BarProofs.

(* ================================================================== *)
(** ** More binary64 facts: products, quotients, roots, clamps         *)
(* ================================================================== *)

Module FloatArith.
Import JS Float754 Terms.

(** *** Rounding a non-negative mantissa *)

Lemma shr_fexp_nonneg (m e : Z) (l : location) :
  0 <= m -> 0 <= shr_m (fst (shr_fexp prec emax m e l)).
Proof.
  intros Hm. unfold shr_fexp, shr.
  assert (Hrec : shr_m (shr_record_of_loc m l) = m)
    by (destruct l as [|[| |]]; reflexivity).
  destruct (fexp prec emax (Zdigits2 m + e) - e) as [|n|n]; cbn [fst].
  - rewrite Hrec. exact Hm.
  - rewrite iter_shr_1_m by (rewrite Hrec; exact Hm). rewrite Hrec.
    apply Z.div_pos; [exact Hm | apply Z.pow_pos_nonneg; lia].
  - rewrite Hrec. exact Hm.
Qed.

Lemma round_nearest_even_nonneg (m : Z) (l : location) :
  0 <= m -> 0 <= round_nearest_even m l.
Proof.
  intros Hm. destruct l as [|[| |]]; cbn [round_nearest_even]; try lia.
  destruct (Z.even m); lia.
Qed.

(** Rounding never produces a NaN and keeps the sign. *)
Lemma binary_round_aux_signed (sx : bool) (m e : Z) (l : location) :
  0 <= m -> signed sx (binary_round_aux prec emax sx m e l).
Proof.
  intros Hm. unfold binary_round_aux.
  pose proof (shr_fexp_nonneg m e l Hm) as H1.
  destruct (shr_fexp prec emax m e l) as [mrs' e']. cbn [fst] in H1.
  pose proof (round_nearest_even_nonneg _ (loc_of_shr_record mrs') H1) as H2.
  pose proof (shr_fexp_nonneg _ e' loc_Exact H2) as H3.
  destruct (shr_fexp prec emax (round_nearest_even (shr_m mrs') (loc_of_shr_record mrs'))
                     e' loc_Exact) as [mrs'' e'']. cbn [fst] in H3.
  destruct (shr_m mrs'') as [|q|q]; [constructor| |lia].
  destruct (e'' <=? emax - prec); constructor.
Qed.

Lemma signed_not_nan (s : bool) (f : spec_float) : signed s f -> f <> S754_nan.
Proof. intros []; discriminate. Qed.

(** *** Products, quotients and roots that are numbers *)

(** A number times a finite non-zero number is a number. *)
Lemma mul_not_nan (x c : float) (s : bool) (m : positive) (e : Z) :
  Prim2SF c = S754_finite s m e -> is_nan x = false -> is_nan (x * c) = false.
Proof.
  intros Hc Hx. apply is_nan_false. apply is_nan_false in Hx.
  rewrite mul_spec, Hc.
  destruct (Prim2SF x) as [sx|sx| |sx mx ex]; try congruence; try discriminate.
  cbn [SF64mul SFmul].
  apply (signed_not_nan (xorb sx s)), binary_round_aux_signed. lia.
Qed.

Lemma shiftl_nonneg (m s : Z) : 0 <= m -> 0 <= Z.shiftl m s.
Proof. intros Hm. now apply Z.shiftl_nonneg. Qed.

Lemma SFdiv_signed (sx sy : bool) (mx my : positive) (ex ey : Z) :
  signed (xorb sx sy)
         (SFdiv prec emax (S754_finite sx mx ex) (S754_finite sy my ey)).
Proof.
  cbn [SFdiv]. unfold SFdiv_core_binary.
  set (s := _ - _ - _).
  set (m' := match s with Z.pos _ => Z.shiftl (Z.pos mx) s | 0 => Z.pos mx | Z.neg _ => 0 end).
  assert (Hm' : 0 <= m').
  { subst m'. destruct s; [lia | apply shiftl_nonneg; lia | lia]. }
  pose proof (Z_div_mod m' (Z.pos my) ltac:(lia)) as Hdm.
  destruct (Z.div_eucl m' (Z.pos my)) as [q r].
  apply binary_round_aux_signed. destruct Hdm as [Hq Hr]. nia.
Qed.

Lemma SFsqrt_signed (mx : positive) (ex : Z) :
  signed false (SFsqrt prec emax (S754_finite false mx ex)).
Proof.
  cbn [SFsqrt]. unfold SFsqrt_core_binary.
  set (s := _ - _).
  set (m' := match s with Z.pos _ => Z.shiftl (Z.pos mx) s | 0 => Z.pos mx | Z.neg _ => 0 end).
  pose proof (Z.sqrtrem_spec m') as Hs.
  destruct (Z.sqrtrem m') as [q r].
  apply binary_round_aux_signed.
  assert (Hm' : 0 <= m').
  { subst m'. destruct s; [lia | apply shiftl_nonneg; lia | lia]. }
  specialize (Hs Hm'). cbv zeta in Hs. nia.
Qed.

(** The root of a positive number over a positive finite number is a
    number. *)
Lemma sqrt_div_not_nan (v c : float) (m : positive) (e : Z) :
  Prim2SF c = S754_finite false m e ->
  (0 <? v)%float = true -> is_nan (sqrt (v / c)) = false.
Proof.
  intros Hc Hv. apply is_nan_false. rewrite sqrt_spec, div_spec, Hc.
  rewrite ltb_spec, Prim2SF_zero in Hv. unfold SFltb in Hv.
  destruct (Prim2SF v) as [sv|sv| |sv mv ev]; cbn [SFcompare] in Hv;
    try discriminate; destruct sv; try discriminate.
  unfold SF64div, SF64sqrt.
  pose proof (SFdiv_signed false false mv m ev e) as Hd. cbn [xorb] in Hd.
  destruct Hd as [|m1 e1|]; [discriminate| |discriminate].
  apply (signed_not_nan false), SFsqrt_signed.
Qed.

(** *** [Math.min] and [Math.max] on numbers *)

Lemma leb_refl (x : float) : is_nan x = false -> (x <=? x)%float = true.
Proof.
  intros Hx. rewrite leb_spec. unfold SFleb.
  apply is_nan_false in Hx. now rewrite SFcompare_refl.
Qed.

Lemma Math_min_not_nan (a b : float) :
  is_nan a = false -> is_nan b = false -> is_nan (Math_min a b) = false.
Proof.
  intros Ha Hb. unfold Math_min. rewrite Ha, Hb. cbn [orb].
  destruct (a <? b)%float, (b <? a)%float, (get_sign a); assumption.
Qed.

Lemma Math_max_not_nan (a b : float) :
  is_nan a = false -> is_nan b = false -> is_nan (Math_max a b) = false.
Proof.
  intros Ha Hb. unfold Math_max. rewrite Ha, Hb. cbn [orb].
  destruct (a <? b)%float, (b <? a)%float, (get_sign a); assumption.
Qed.

Lemma Math_min_le_r (a b : float) :
  is_nan a = false -> is_nan b = false -> (Math_min a b <=? b)%float = true.
Proof.
  intros Ha Hb. unfold Math_min. rewrite Ha, Hb. cbn [orb].
  destruct (a <? b)%float eqn:E1; [now apply ltb_leb|].
  destruct (b <? a)%float eqn:E2; [now apply leb_refl|].
  destruct (get_sign a); [now apply ltb_false_leb | now apply leb_refl].
Qed.

Lemma Math_min_le_l (a b : float) :
  is_nan a = false -> is_nan b = false -> (Math_min a b <=? a)%float = true.
Proof.
  intros Ha Hb. unfold Math_min. rewrite Ha, Hb. cbn [orb].
  destruct (a <? b)%float eqn:E1; [now apply leb_refl|].
  destruct (b <? a)%float eqn:E2; [now apply ltb_leb|].
  destruct (get_sign a); [now apply leb_refl | now apply ltb_false_leb].
Qed.

Lemma Math_max_ge_r (a b : float) :
  is_nan a = false -> is_nan b = false -> (b <=? Math_max a b)%float = true.
Proof.
  intros Ha Hb. unfold Math_max. rewrite Ha, Hb. cbn [orb].
  destruct (a <? b)%float eqn:E1; [now apply leb_refl|].
  destruct (b <? a)%float eqn:E2; [now apply ltb_leb|].
  destruct (get_sign a); [now apply leb_refl | now apply ltb_false_leb].
Qed.

Lemma Math_max_ge_l (a b : float) :
  is_nan a = false -> is_nan b = false -> (a <=? Math_max a b)%float = true.
Proof.
  intros Ha Hb. unfold Math_max. rewrite Ha, Hb. cbn [orb].
  destruct (a <? b)%float eqn:E1; [now apply ltb_leb|].
  destruct (b <? a)%float eqn:E2; [now apply leb_refl|].
  destruct (get_sign a); [now apply ltb_false_leb | now apply leb_refl].
Qed.

Lemma Math_max_le (a b c : float) :
  (a <=? c)%float = true -> (b <=? c)%float = true ->
  is_nan a = false -> is_nan b = false -> (Math_max a b <=? c)%float = true.
Proof.
  intros Hac Hbc Ha Hb. unfold Math_max. rewrite Ha, Hb. cbn [orb].
  destruct (a <? b)%float, (b <? a)%float, (get_sign a); assumption.
Qed.

End FloatArith.

(* ================================================================== *)
(** ** Arrows and strokes stay within their bounds                     *)
(* ================================================================== *)

Module ArrowProofs.
Import JS Float754 FloatArith Spec Arrows.

Lemma scaled_not_nan (v : float) : is_nan (or_else v 0 * 0.42)%float = false.
Proof.
  eapply mul_not_nan; [vm_compute; reflexivity | apply or_else_not_nan].
Qed.

(** X1: in grid mode the length of an arrow lies between 5 and 22
    pixels whatever the cell size is, including a cell size that is
    zero, negative, infinite or not a number. *)
Theorem arrow_length_bounds (cellSize : float) :
  leF 5 (arrowLength cellSize) /\ leF (arrowLength cellSize) 22.
Proof.
  unfold leF, arrowLength.
  pose proof (scaled_not_nan cellSize) as Ht.
  assert (Hu : is_nan (Math_min (or_else cellSize 0 * 0.42) 22) = false)
    by (apply Math_min_not_nan; [exact Ht | reflexivity]).
  split.
  - apply Math_max_ge_r; [exact Hu | reflexivity].
  - apply Math_max_le; [|reflexivity|exact Hu|reflexivity].
    apply Math_min_le_r; [exact Ht | reflexivity].
Qed.

Lemma layout_cellSize_finite (features : list Grid.Feature)
      (svgAttr : option (float * float)) (rectWidth rectHeight : float)
      (cfg : Grid.GridLayoutConfig) :
  Grid.drawHexGridOnly features svgAttr rectWidth rectHeight = Some cfg ->
  is_nan (Grid.cellSize cfg) = false.
Proof.
  unfold Grid.drawHexGridOnly.
  destruct (Grid.gridsWithXY features) as [|g rest]; [discriminate|].
  match goal with |- context [if ?c then None else _] => destruct c end; [discriminate|].
  match goal with |- context [if ?c then None else _] => destruct c eqn:Ecs end;
    [discriminate|].
  intros [= <-]. cbn [Grid.cellSize].
  apply orb_false_elim in Ecs as (Hf & _). apply negb_false_iff in Hf.
  unfold Number_isFinite, is_finite in Hf.
  apply negb_true_iff, orb_false_elim in Hf as (Hn & _). exact Hn.
Qed.

(** X2: on every layout that [drawHexGridOnly] produces, the outline of
    a cell is at least 0.4 pixels wide, and the arrows drawn on that
    layout have a stroke of at least 1.6 pixels. *)
Theorem layout_strokes (features : list Grid.Feature)
        (svgAttr : option (float * float)) (rectWidth rectHeight : float)
        (cfg : Grid.GridLayoutConfig) :
  Grid.drawHexGridOnly features svgAttr rectWidth rectHeight = Some cfg ->
  let len := arrowLength (Grid.cellSize cfg) in
  leF 0.4 (cellStroke (Grid.cellSize cfg))
  /\ leF 1.6 (arrowStroke len).
Proof.
  intros Hcfg len. apply layout_cellSize_finite in Hcfg.
  assert (Hlen : is_nan len = false).
  { apply Math_max_not_nan; [|reflexivity].
    apply Math_min_not_nan; [apply scaled_not_nan | reflexivity]. }
  unfold leF. split.
  - apply Math_max_ge_r; [|reflexivity].
    eapply mul_not_nan; [vm_compute; reflexivity | exact Hcfg].
  - apply Math_max_ge_r; [|reflexivity].
    eapply mul_not_nan; [vm_compute; reflexivity | exact Hlen].
Qed.

Lemma layout_strokes_witness :
  exists cfg,
    Grid.drawHexGridOnly Samples.fourCells (Some (500, 500)%float) 0%float 0%float = Some cfg
    /\ leF 0.4 (cellStroke (Grid.cellSize cfg))
    /\ arrowLength (Grid.cellSize cfg) = 22%float
    /\ leF 1.6 (arrowStroke (arrowLength (Grid.cellSize cfg))).
Proof.
  eexists. split; [vm_compute; reflexivity|].
  pose proof (layout_strokes Samples.fourCells (Some (500, 500)%float) 0%float 0%float _
                ltac:(vm_compute; reflexivity)) as H.
  cbv zeta in H. destruct H as (H1 & H4).
  split; [exact H1|]. split; [vm_compute; reflexivity | exact H4].
Defined.

End ArrowProofs.

(* ================================================================== *)
(** ** The short name is the text before the first space               *)
(* ================================================================== *)

Module NameProofs.
Import Names Terms.
Import Ascii.AsciiSyntax.
#[local] Delimit Scope char_scope with char.

Lemma indexOfSpace_bound (s : String.string) : -1 <= indexOfSpace s.
Proof.
  induction s as [|c s IH]; cbn [indexOfSpace]; [lia|].
  destruct (Ascii.eqb c " "); [lia|].
  destruct (Z.ltb_spec (indexOfSpace s) 0); lia.
Qed.

Lemma spaceFree_indexOfSpace (s : String.string) :
  spaceFree s = true -> indexOfSpace s = -1.
Proof.
  induction s as [|c s IH]; cbn [spaceFree indexOfSpace]; [reflexivity|].
  intros H. apply andb_prop in H as (Hc & Hs). apply negb_true_iff in Hc.
  rewrite Hc, (IH Hs). reflexivity.
Qed.

Lemma indexOfSpace_app (before after : String.string) :
  spaceFree before = true ->
  indexOfSpace (String.append before (String.String " " after))
  = Z.of_nat (String.length before).
Proof.
  induction before as [|c s IH]; cbn [spaceFree String.append indexOfSpace String.length].
  - intros _. reflexivity.
  - intros H. apply andb_prop in H as (Hc & Hs). apply negb_true_iff in Hc.
    rewrite Hc, (IH Hs). destruct (Z.ltb_spec (Z.of_nat (String.length s)) 0); lia.
Qed.

Lemma substring_app (before rest : String.string) :
  String.substring 0 (String.length before) (String.append before rest) = before.
Proof.
  induction before as [|c s IH]; cbn [String.append String.length String.substring].
  - destruct rest; reflexivity.
  - now rewrite IH.
Qed.

(** Every text is free of spaces or splits at its first space. *)
Lemma first_space (s : String.string) :
  spaceFree s = true
  \/ exists before after,
       s = String.append before (String.String " " after) /\ spaceFree before = true.
Proof.
  induction s as [|c s IH]; [now left|].
  cbn [spaceFree]. destruct (Ascii.eqb_spec c " ") as [->|Hc].
  - right. exists String.EmptyString, s. split; reflexivity.
  - destruct IH as [->|(before & after & -> & Hb)]; [now left|].
    right. exists (String.String c before), after. split; [reflexivity|].
    cbn [spaceFree]. rewrite Hb. destruct (Ascii.eqb_spec c " "); [contradiction|reflexivity].
Qed.

Lemma short_of_spaceFree (name : String.string) :
  spaceFree name = true -> getShortName (Some name) = name.
Proof.
  intros H. unfold getShortName. destruct name as [|c s]; [reflexivity|].
  rewrite (spaceFree_indexOfSpace _ H). reflexivity.
Qed.

Lemma short_of_split (before after : String.string) :
  spaceFree before = true -> before <> String.EmptyString ->
  getShortName (Some (String.append before (String.String " " after))) = before.
Proof.
  intros Hb Hne. unfold getShortName.
  rewrite (indexOfSpace_app before after Hb).
  destruct before as [|c s]; [contradiction|].
  cbn [String.append].
  change (String.String c (String.append s (String.String " " after)))
    with (String.append (String.String c s) (String.String " " after)).
  destruct (Z.ltb_spec 0 (Z.of_nat (String.length (String.String c s))));
    [|cbn [String.length] in *; lia].
  rewrite Nat2Z.id. apply substring_app.
Qed.

Lemma short_of_leading_space (rest : String.string) :
  getShortName (Some (String.String " " rest)) = String.String " " rest.
Proof. reflexivity. Qed.

(** X3: [getShortName] returns the text before the first space: a name
    without a space is returned whole, and a name that has text before
    its first space is cut there.  A name that begins with a space is
    returned whole, spaces included, because the cut is only made at a
    position greater than zero. *)
Theorem short_name_is_first_word :
  (forall name, spaceFree name = true -> getShortName (Some name) = name)
  /\ (forall before after,
        spaceFree before = true -> before <> String.EmptyString ->
        getShortName (Some (String.append before (String.String " " after))) = before)
  /\ (forall rest,
        getShortName (Some (String.String " " rest)) = String.String " " rest)
  /\ getShortName None = String.EmptyString.
Proof.
  split; [exact short_of_spaceFree|].
  split; [exact short_of_split|].
  split; [exact short_of_leading_space | reflexivity].
Qed.

Lemma short_name_is_first_word_witness :
  getShortName (Some "Kao Chin Su-mei"%string) = "Kao"%string
  /\ getShortName (Some "Kao"%string) = "Kao"%string.
Proof.
  destruct short_name_is_first_word as (Hfree & Hsplit & _).
  split.
  - apply (Hsplit "Kao"%string "Chin Su-mei"%string); [reflexivity | discriminate].
  - apply (Hfree "Kao"%string). reflexivity.
Defined.

(** X4: shortening a name twice gives the same label as shortening it
    once. *)
Theorem short_name_idempotent (name : option String.string) :
  getShortName (Some (getShortName name)) = getShortName name.
Proof.
  destruct name as [name|]; [|reflexivity].
  destruct (first_space name) as [Hf|(before & after & -> & Hb)].
  - now rewrite !(short_of_spaceFree name Hf).
  - destruct before as [|c s].
    + cbn [String.append]. now rewrite !short_of_leading_space.
    + rewrite (short_of_split _ after Hb) by discriminate.
      now apply short_of_spaceFree.
Qed.

End NameProofs.

(* ================================================================== *)
(** ** Bar view: every candidate gets one row                          *)
(* ================================================================== *)

Module BarRowProofs.
Import JS Parliament Float754 FloatArith ArrayFacts Spec Terms BarChart.

Lemma firstn_snoc {A} (l : list A) : forall n c,
  nth_error l n = Some c -> firstn (S n) l = firstn n l ++ [c].
Proof.
  induction l as [|a l IH]; intros [|n] c H; cbn [nth_error] in H; try discriminate.
  - now inversion H.
  - cbn [firstn app]. f_equal. now apply IH.
Qed.

Lemma range_snoc0 (k : Z) : 0 <= k -> range 0 (k + 1) = range 0 k ++ [k].
Proof.
  intros Hk. pose proof (range_snoc 0 (Z.to_nat k)) as H.
  replace (0 + Z.of_nat (S (Z.to_nat k))) with (k + 1) in H by lia.
  replace (0 + Z.of_nat (Z.to_nat k)) with k in H by lia. exact H.
Qed.

Lemma barsOf_snoc (s : Side) (bars : list Bar) (b : Bar) :
  barsOf s (bars ++ [b]) = barsOf s bars ++ (if onSide s b then [b] else []).
Proof. unfold barsOf. rewrite filter_app. reflexivity. Qed.

Section Rows.
Variables left dpp : list Candidate.
Variables maxVotes' availableWidth' : float.

Lemma get_inside (l : list Candidate) (i : Z) :
  0 <= i < Z.of_nat (length l) -> exists c, get l i = Some c /\ nth_error l (Z.to_nat i) = Some c.
Proof.
  intros Hi. rewrite get_nonneg by lia.
  destruct (nth_error l (Z.to_nat i)) as [c|] eqn:E; [eauto|].
  apply nth_error_None in E. lia.
Qed.

(** One iteration keeps the invariant and moves to the next row. *)
Lemma step_invariant (st : Vars * list Bar) :
  rowsInvariant left dpp st ->
  rowsInvariant left dpp (step left dpp maxVotes' availableWidth' st)
  /\ rowIndex (fst (step left dpp maxVotes' availableWidth' st)) = rowIndex (fst st) + 1.
Proof.
  destruct st as [v bars]. unfold rowsInvariant. cbn [fst snd].
  intros (Hr & Hy & Hl & Hd & Hcl & Hcd & Hyl & Hyd).
  unfold step.
  assert (Hmod : rowIndex v mod 2 = 0 \/ rowIndex v mod 2 = 1)
    by (pose proof (Z.mod_pos_bound (rowIndex v) 2); lia).
  destruct (Z.eqb_spec (rowIndex v mod 2) 1) as [Hodd|Heven]; cbn [andb negb].
  - destruct (Z.ltb_spec (leftIndex v) (Z.of_nat (length left))) as [Hlt|Hge].
    + assert (Hli : leftIndex v = rowIndex v / 2) by lia.
      destruct (get_inside left (leftIndex v)) as (c & -> & Hc);
        [Z.to_euclidean_division_equations; lia|].
      cbn [fst snd currentY leftIndex dppIndex rowIndex].
      rewrite !barsOf_snoc. cbn [onSide side]. rewrite app_nil_r, !map_app.
      cbn [map candidate barY].
      replace (Z.to_nat (leftIndex v + 1)) with (S (Z.to_nat (leftIndex v)))
        by (Z.to_euclidean_division_equations; lia).
      rewrite (firstn_snoc _ _ _ Hc), range_snoc0, map_app
        by (Z.to_euclidean_division_equations; lia).
      cbn [map]. rewrite Hcl, Hyl.
      unfold rowHeight, mainBarHeight, barSpacing in *.
      repeat split; try assumption; try reflexivity;
        try (Z.to_euclidean_division_equations; lia).
      f_equal. f_equal. Z.to_euclidean_division_equations; lia.
    + cbn [fst snd currentY leftIndex dppIndex rowIndex].
      unfold rowHeight, mainBarHeight, barSpacing in *.
      repeat split; try assumption; try (Z.to_euclidean_division_equations; lia).
  - destruct (Z.ltb_spec (dppIndex v) (Z.of_nat (length dpp))) as [Hlt|Hge].
    + assert (Hdi : dppIndex v = (rowIndex v - 1) / 2) by lia.
      destruct (get_inside dpp (dppIndex v)) as (c & -> & Hc);
        [Z.to_euclidean_division_equations; lia|].
      cbn [fst snd currentY leftIndex dppIndex rowIndex].
      rewrite !barsOf_snoc. cbn [onSide side]. rewrite app_nil_r, !map_app.
      cbn [map candidate barY].
      replace (Z.to_nat (dppIndex v + 1)) with (S (Z.to_nat (dppIndex v)))
        by (Z.to_euclidean_division_equations; lia).
      rewrite (firstn_snoc _ _ _ Hc), range_snoc0, map_app
        by (Z.to_euclidean_division_equations; lia).
      cbn [map]. rewrite Hcd, Hyd.
      unfold rowHeight, mainBarHeight, barSpacing in *.
      repeat split; try assumption; try reflexivity;
        try (Z.to_euclidean_division_equations; lia).
      f_equal. f_equal. Z.to_euclidean_division_equations; lia.
    + cbn [fst snd currentY leftIndex dppIndex rowIndex].
      unfold rowHeight, mainBarHeight, barSpacing in *.
      repeat split; try assumption; try (Z.to_euclidean_division_equations; lia).
Qed.

(** While a bar is pending the current row is one of the rows of the
    chart. *)
Lemma pending_row (st : Vars * list Bar) :
  rowsInvariant left dpp st -> pending left dpp (fst st) = true ->
  rowIndex (fst st) <= rowsShown left dpp.
Proof.
  destruct st as [v bars]. unfold rowsInvariant, pending, rowsShown. cbn [fst snd].
  intros (Hr & _ & Hl & Hd & _) Hp.
  apply orb_true_iff in Hp as [Hp|Hp]; apply Z.ltb_lt in Hp;
    Z.to_euclidean_division_equations; lia.
Qed.

Lemma done_row (st : Vars * list Bar) :
  rowsInvariant left dpp st -> pending left dpp (fst st) = false ->
  leftIndex (fst st) = Z.of_nat (length left)
  /\ dppIndex (fst st) = Z.of_nat (length dpp)
  /\ rowsShown left dpp + 1 <= rowIndex (fst st).
Proof.
  destruct st as [v bars]. unfold rowsInvariant, pending, rowsShown. cbn [fst snd].
  intros (Hr & _ & Hl & Hd & _) Hp.
  apply orb_false_elim in Hp as [Hp1 Hp2]. apply Z.ltb_ge in Hp1, Hp2.
  Z.to_euclidean_division_equations; lia.
Qed.

Lemma step_ownBar (st : Vars * list Bar) :
  Forall (ownBar maxVotes' availableWidth') (snd st) ->
  Forall (ownBar maxVotes' availableWidth') (snd (step left dpp maxVotes' availableWidth' st)).
Proof.
  destruct st as [v bars]. cbn [snd]. intros H. unfold step.
  destruct (rowIndex v mod 2 =? 1); cbn [andb negb].
  - destruct (leftIndex v <? Z.of_nat (length left)); [|exact H].
    destruct (get left (leftIndex v)) as [c|]; [|exact H].
    cbn [snd]. apply Forall_app. split; [exact H|].
    constructor; [|constructor]. unfold ownBar. cbn. auto.
  - destruct (dppIndex v <? Z.of_nat (length dpp)); [|exact H].
    destruct (get dpp (dppIndex v)) as [c|]; [|exact H].
    cbn [snd]. apply Forall_app. split; [exact H|].
    constructor; [|constructor]. unfold ownBar. cbn. auto.
Qed.

Lemma loop_ownBar (fuel : nat) : forall st st',
  Forall (ownBar maxVotes' availableWidth') (snd st) ->
  loop left dpp maxVotes' availableWidth' fuel st = Some st' ->
  Forall (ownBar maxVotes' availableWidth') (snd st').
Proof.
  induction fuel as [|fuel IH]; intros st st' H; cbn [loop]; [discriminate|].
  destruct (pending left dpp (fst st)).
  - apply IH. now apply step_ownBar.
  - intros [= <-]. exact H.
Qed.

(** The loop ends: from a state that satisfies the invariant it stops
    after the last row of the chart, whatever fuel is left beyond the
    rows still to draw. *)
Lemma loop_result (fuel : nat) : forall st,
  rowsInvariant left dpp st ->
  rowIndex (fst st) <= rowsShown left dpp + 1 ->
  (Z.to_nat (rowsShown left dpp + 1 - rowIndex (fst st)) < fuel)%nat ->
  exists st',
    loop left dpp maxVotes' availableWidth' fuel st = Some st'
    /\ rowsInvariant left dpp st'
    /\ leftIndex (fst st') = Z.of_nat (length left) /\ dppIndex (fst st') = Z.of_nat (length dpp)
    /\ rowIndex (fst st') = rowsShown left dpp + 1.
Proof.
  induction fuel as [|fuel IH]; intros st Hinv Hle Hfuel; [lia|].
  cbn [loop]. destruct (pending left dpp (fst st)) eqn:Hp.
  - pose proof (pending_row st Hinv Hp) as Hrow.
    destruct (step_invariant st Hinv) as (Hinv' & Hr').
    apply IH; [exact Hinv' | lia | lia].
  - destruct (done_row st Hinv Hp) as (Hl & Hd & Hr).
    exists st. split; [reflexivity|]. split; [exact Hinv|].
    split; [exact Hl|]. split; [exact Hd | lia].
Qed.

Lemma initial_invariant : rowsInvariant left dpp initial.
Proof.
  unfold rowsInvariant, initial. cbn.
  repeat split; try reflexivity; lia.
Qed.

Lemma firstn_length_all (l : list Candidate) :
  firstn (Z.to_nat (Z.of_nat (length l))) l = l.
Proof. rewrite Nat2Z.id. apply firstn_all. Qed.

(** X5: for [L] candidates on the left and [D] on the right, the loop
    of the bar chart ends after [max (2L - 1, 2D)] rows and draws every
    candidate exactly once: the bars of the left column
    are the candidates of the left list in their order, candidate [i]
    (from 0) in row [2i + 1], and the bars of the right column those of
    the right list, candidate [j] in row [2j + 2]; rows are [rowHeight]
    pixels apart, and the rows of a column that has run out stay empty.
    Every bar is made of its own candidate (width, label and colour). *)
Theorem bar_rows (fuel : nat) :
  (Z.to_nat (rowsShown left dpp) < fuel)%nat ->
  exists v bars,
    loop left dpp maxVotes' availableWidth' fuel initial = Some (v, bars)
    /\ rowIndex v = rowsShown left dpp + 1
    /\ currentY v = rowHeight * rowsShown left dpp
    /\ map candidate (barsOf LeftSide bars) = left
    /\ map candidate (barsOf RightSide bars) = dpp
    /\ map barY (barsOf LeftSide bars)
       = map (fun i => rowHeight * (2 * i + 1 - 1)) (range 0 (Z.of_nat (length left)))
    /\ map barY (barsOf RightSide bars)
       = map (fun j => rowHeight * (2 * j + 2 - 1)) (range 0 (Z.of_nat (length dpp)))
    /\ Forall (ownBar maxVotes' availableWidth') bars.
Proof.
  intros Hfuel.
  destruct (loop_result fuel initial initial_invariant) as ([v bars] & Hloop & Hinv & Hl & Hd & Hr).
  - unfold initial, rowsShown. cbn [fst rowIndex]. lia.
  - unfold initial. cbn [fst rowIndex].
    replace (rowsShown left dpp + 1 - 1) with (rowsShown left dpp) by lia.
    exact Hfuel.
  - cbn [fst] in *. exists v, bars.
    destruct Hinv as (_ & Hy & _ & _ & Hcl & Hcd & Hyl & Hyd). cbn [fst snd] in *.
    rewrite Hl in Hcl, Hyl. rewrite Hd in Hcd, Hyd.
    rewrite firstn_length_all in Hcl, Hcd.
    split; [exact Hloop|]. split; [exact Hr|].
    split; [rewrite Hy, Hr; f_equal; lia|].
    split; [exact Hcl|]. split; [exact Hcd|].
    split; [rewrite Hyl; apply map_ext; intros i; lia|].
    split; [rewrite Hyd; apply map_ext; intros j; lia|].
    exact (loop_ownBar fuel initial (v, bars) (Forall_nil _) Hloop).
Qed.

(** X6: the rank in the tooltip of a bar is read from the loop variable
    when the pointer enters the bar, that is, after the loop: every bar
    of a column shows one more than the number of candidates of that
    column instead of its own position. *)
Theorem tooltip_rank_is_stale (fuel : nat) :
  (Z.to_nat (rowsShown left dpp) < fuel)%nat ->
  exists v bars,
    loop left dpp maxVotes' availableWidth' fuel initial = Some (v, bars)
    /\ Forall (fun b => rankShown b v = Z.of_nat (length left) + 1) (barsOf LeftSide bars)
    /\ Forall (fun b => rankShown b v = Z.of_nat (length dpp) + 1) (barsOf RightSide bars)
    /\ length (barsOf LeftSide bars) = length left
    /\ length (barsOf RightSide bars) = length dpp.
Proof.
  intros Hfuel.
  destruct (loop_result fuel initial initial_invariant) as ([v bars] & Hloop & Hinv & Hl & Hd & Hr).
  - unfold initial, rowsShown. cbn [fst rowIndex]. lia.
  - unfold initial. cbn [fst rowIndex].
    replace (rowsShown left dpp + 1 - 1) with (rowsShown left dpp) by lia.
    exact Hfuel.
  - cbn [fst] in *. exists v, bars.
    destruct Hinv as (_ & _ & _ & _ & Hcl & Hcd & _). cbn [fst snd] in *.
    rewrite Hl in Hcl. rewrite Hd in Hcd.
    rewrite firstn_length_all in Hcl, Hcd.
    split; [exact Hloop|].
    split; [|split; [|split]].
    + apply Forall_forall. intros b Hb. unfold barsOf in Hb.
      apply filter_In in Hb as (_ & Hs). unfold rankShown.
      unfold onSide in Hs. destruct (side b); [now rewrite Hl | discriminate].
    + apply Forall_forall. intros b Hb. unfold barsOf in Hb.
      apply filter_In in Hb as (_ & Hs). unfold rankShown.
      unfold onSide in Hs. destruct (side b); [discriminate | now rewrite Hd].
    + rewrite <- (length_map candidate). now rewrite Hcl.
    + rewrite <- (length_map candidate). now rewrite Hcd.
Qed.

End Rows.

Lemma bar_rows_witness :
  exists v bars,
    drawBars 6 Samples.sampleRows 500 = Some (v, bars)
    /\ rowIndex v = 6
    /\ map (fun b => candidateName (candidate b)) (barsOf LeftSide bars)
       = ["A"; "C"; "D"]%string
    /\ map barY (barsOf LeftSide bars) = [0; 20; 40]
    /\ map barY (barsOf RightSide bars) = [10].
Proof.
  destruct (bar_rows (Bar.leftSideCandidates Samples.sampleRows)
                     (Bar.dppCandidates Samples.sampleRows)
                     (maxVotes Samples.sampleRows) (availableWidth 500) 6)
    as (v & bars & Hloop & Hr & _ & Hcl & _ & Hyl & Hyd & _); [vm_compute; lia|].
  exists v, bars.
  split; [exact Hloop|]. split; [exact Hr|].
  split; [rewrite <- (map_map candidate candidateName), Hcl; reflexivity|].
  split; [exact Hyl | exact Hyd].
Defined.

Lemma tooltip_rank_is_stale_witness :
  exists v bars,
    drawBars 6 Samples.sampleRows 500 = Some (v, bars)
    /\ Forall (fun b => rankShown b v = 4) (barsOf LeftSide bars)
    /\ length (barsOf LeftSide bars) = 3%nat.
Proof.
  destruct (tooltip_rank_is_stale (Bar.leftSideCandidates Samples.sampleRows)
                                  (Bar.dppCandidates Samples.sampleRows)
                                  (maxVotes Samples.sampleRows) (availableWidth 500) 6)
    as (v & bars & Hloop & Hl & _ & Hn & _); [vm_compute; lia|].
  exists v, bars.
  split; [exact Hloop|]. split; [exact Hl | exact Hn].
Defined.

End BarRowProofs.

(* ================================================================== *)
(** ** Bar view: the two columns and the widest bar                    *)
(* ================================================================== *)

Module BarGroupProofs.
Import JS Parliament Float754 FloatArith Spec Terms Bar BarChart.

Lemma sort_descending_Sorted (l : list Candidate) :
  Forall numericVotes l ->
  Sorted moreVotesFirst (sort (fun a b => (votes b - votes a)%float) l).
Proof.
  apply SortFacts.sort_Sorted.
  - intros a b _ _. unfold after. rewrite sub_pos. apply ltb_leb.
  - intros a b Ha Hb. unfold after. rewrite sub_pos. now apply ltb_false_leb.
Qed.

Lemma sort_ascending_votes_Sorted (l : list Candidate) :
  Forall numericVotes l ->
  Sorted fewerVotesFirst (sort (fun a b => (votes a - votes b)%float) l).
Proof.
  apply SortFacts.sort_Sorted.
  - intros a b _ _. unfold after. rewrite sub_pos. apply ltb_leb.
  - intros a b Ha Hb. unfold after. rewrite sub_pos. now apply ltb_false_leb.
Qed.

Lemma Forall_firstn {A} (P : A -> Prop) (n : nat) (l : list A) :
  Forall P l -> Forall P (firstn n l).
Proof.
  intros H. revert n. induction H as [|a l Ha _ IH]; intros [|n]; cbn [firstn];
    constructor; auto.
Qed.

Lemma ofParty_spec (p : PartyId) (candidates : list Candidate) :
  Forall (fun c => partyId c = p /\ In c candidates) (ofParty p candidates).
Proof.
  apply Forall_forall. intros c Hc. unfold ofParty in Hc.
  apply filter_In in Hc as (Hin & Hp). split; [|exact Hin].
  destruct (partyId c), p; try discriminate; reflexivity.
Qed.

(** X7: the two columns of the bar chart.  The left column holds at
    most 39 KMT and 2 independent candidates of the loaded list, the
    most voted first; the right column holds at most 38 DPP candidates,
    the least voted first (the orders hold when the vote counts are
    numbers). *)
Theorem bar_columns (candidates : list Candidate) :
  let left := leftSideCandidates candidates in
  let right := dppCandidates candidates in
  Permutation (firstn 39 (ofParty KMT candidates) ++ firstn 2 (ofParty IND candidates)) left
  /\ Permutation (firstn 38 (ofParty DPP candidates)) right
  /\ Forall (fun c => (partyId c = KMT \/ partyId c = IND) /\ In c candidates) left
  /\ Forall (fun c => partyId c = DPP /\ In c candidates) right
  /\ (length left <= 41)%nat /\ (length right <= 38)%nat
  /\ (Forall numericVotes candidates ->
        Sorted moreVotesFirst left /\ Sorted fewerVotesFirst right).
Proof.
  cbv zeta. unfold leftSideCandidates, dppCandidates.
  split; [apply SortFacts.sort_perm|].
  split; [apply SortFacts.sort_perm|].
  split.
  { apply SortFacts.sort_Forall, Forall_app. split; apply Forall_firstn.
    - eapply Forall_impl; [|apply ofParty_spec]. cbn beta. intros c (-> & H). auto.
    - eapply Forall_impl; [|apply ofParty_spec]. cbn beta. intros c (-> & H). auto. }
  split; [apply SortFacts.sort_Forall, Forall_firstn, ofParty_spec|].
  split.
  { rewrite SortFacts.sort_length, length_app.
    pose proof (firstn_le_length 39 (ofParty KMT candidates)).
    pose proof (firstn_le_length 2 (ofParty IND candidates)). lia. }
  split; [rewrite SortFacts.sort_length; apply firstn_le_length|].
  intros Hnum.
  assert (Hof : forall p, Forall numericVotes (ofParty p candidates)).
  { intros p. apply Forall_forall. intros c Hc. unfold ofParty in Hc.
    apply filter_In in Hc as (Hin & _). rewrite Forall_forall in Hnum. auto. }
  split.
  - apply sort_descending_Sorted, Forall_app. split; apply Forall_firstn, Hof.
  - apply sort_ascending_votes_Sorted, Forall_firstn, Hof.
Qed.

Lemma bar_columns_witness :
  Forall numericVotes Samples.sampleRows
  /\ Sorted moreVotesFirst (leftSideCandidates Samples.sampleRows)
  /\ map candidateName (leftSideCandidates Samples.sampleRows) = ["A"; "C"; "D"]%string.
Proof.
  assert (Hnum : Forall numericVotes Samples.sampleRows)
    by (repeat constructor).
  split; [exact Hnum|].
  destruct (bar_columns Samples.sampleRows) as (_ & _ & _ & _ & _ & _ & Hs).
  split; [apply (Hs Hnum) | reflexivity].
Defined.

(** *** The scale of the widths *)

Lemma ltb_not_nan_r (a b : float) : (a <? b)%float = true -> is_nan b = false.
Proof.
  rewrite ltb_spec. intros H. apply is_nan_false. intros E. rewrite E in H.
  unfold SFltb in H. destruct (Prim2SF a); discriminate.
Qed.

Lemma leb_not_nan (a : float) : (a <=? a)%float = false -> is_nan a = true.
Proof.
  intros H. destruct (is_nan a) eqn:E; [reflexivity|].
  rewrite (leb_refl a E) in H. discriminate.
Qed.

Lemma d3_maxF_fold (values : list float) : forall (seen : list float) (acc : option float),
  match acc with
  | None => Forall (fun v => is_nan v = true) seen
  | Some m => is_nan m = false /\ Forall (fun v => is_nan v = false -> leF v m) seen
  end ->
  match fold_left (fun max value =>
                     match max with
                     | None => if (value <=? value)%float then Some value else None
                     | Some m => if (m <? value)%float then Some value else max
                     end) values acc with
  | None => Forall (fun v => is_nan v = true) (seen ++ values)
  | Some m => is_nan m = false
              /\ Forall (fun v => is_nan v = false -> leF v m) (seen ++ values)
  end.
Proof.
  induction values as [|v values IH]; intros seen acc Hacc; cbn [fold_left].
  - rewrite app_nil_r. exact Hacc.
  - replace (seen ++ v :: values) with ((seen ++ [v]) ++ values)
      by (now rewrite <- app_assoc).
    apply IH. destruct acc as [m|].
    + destruct Hacc as (Hm & Hseen).
      destruct (m <? v)%float eqn:E.
      * pose proof (ltb_not_nan_r _ _ E) as Hv. split; [exact Hv|].
        apply Forall_app. split.
        -- eapply Forall_impl; [|exact Hseen]. cbn beta. intros u Hu Hn.
           unfold leF in *. eapply leb_trans; [now apply Hu | now apply ltb_leb].
        -- constructor; [|constructor]. intros _. now apply leb_refl.
      * split; [exact Hm|]. apply Forall_app. split; [exact Hseen|].
        constructor; [|constructor]. intros Hv. now apply ltb_false_leb.
    + destruct (v <=? v)%float eqn:E.
      * assert (Hv : is_nan v = false).
        { destruct (is_nan v) eqn:En; [|reflexivity].
          apply is_nan_eq in En. subst v. discriminate E. }
        split; [exact Hv|]. apply Forall_app. split.
        -- eapply Forall_impl; [|exact Hacc]. cbn beta. intros u Hu Hn. congruence.
        -- constructor; [|constructor]. intros _. exact E.
      * apply Forall_app. split; [exact Hacc|].
        constructor; [|constructor]. now apply leb_not_nan.
Qed.

Lemma zero_le_one (m : float) : is_nan m = false -> truthy m = false -> leF m 1.
Proof.
  unfold truthy, leF. intros Hn Ht. rewrite Hn in Ht. cbn [orb] in Ht.
  apply negb_false_iff in Ht. unfold is_zero in Ht.
  rewrite eqb_spec in Ht. rewrite leb_spec.
  unfold SFeqb in Ht. unfold SFleb.
  change (Prim2SF 0) with (S754_zero false) in Ht.
  destruct (Prim2SF m) as [s|s| |s p e]; cbn [SFcompare] in Ht;
    try discriminate; try (destruct s; discriminate).
  reflexivity.
Qed.

(** X8: the scale of the bar widths, [maxVotes], is never zero and
    never [NaN], so the division by it is safe, and no vote count that
    is a number exceeds it. *)
Theorem max_votes_scale (candidates : list Candidate) :
  truthy (maxVotes candidates) = true
  /\ Forall (fun c => numericVotes c -> leF (votes c) (maxVotes candidates)) candidates.
Proof.
  unfold maxVotes, d3_maxF.
  pose proof (d3_maxF_fold (map votes candidates) [] None (Forall_nil _)) as H.
  cbn [app] in H.
  match type of H with match ?f with _ => _ end => destruct f as [m|] end.
  - destruct H as (Hm & Hall). unfold or_else.
    destruct (truthy m) eqn:Et.
    + split; [exact Et|]. rewrite Forall_map in Hall. exact Hall.
    + split; [reflexivity|]. rewrite Forall_map in Hall.
      eapply Forall_impl; [|exact Hall]. cbn beta. intros c Hc Hn.
      unfold leF in *. eapply leb_trans; [now apply Hc|].
      now apply zero_le_one.
  - split; [reflexivity|]. rewrite Forall_map in H.
    eapply Forall_impl; [|exact H]. cbn beta. unfold numericVotes. intros c Hc Hn.
    congruence.
Qed.

Lemma max_votes_scale_witness :
  truthy (maxVotes Samples.sampleRows) = true
  /\ maxVotes Samples.sampleRows = 90000%float
  /\ leF (votes (mkCandidate KMT "C"%string 70000)) (maxVotes Samples.sampleRows).
Proof.
  destruct (max_votes_scale Samples.sampleRows) as (Ht & H).
  split; [exact Ht|]. split; [reflexivity|].
  rewrite Forall_forall in H.
  apply (H (mkCandidate KMT "C"%string 70000)); [left; reflexivity | reflexivity].
Defined.

End BarGroupProofs.

(* ================================================================== *)
(** ** Dengue grid: drawing order and styles                           *)
(* ================================================================== *)

Module GridOnlyProofs.
Import JS Float754 FloatArith Spec Terms GridOnly.

Lemma levelNumOf_not_nan (level' : option float) : is_nan (levelNumOf level') = false.
Proof. destruct level' as [l|]; [apply or_else_not_nan | reflexivity]. Qed.

(** X9: the cells of the dengue grid are drawn in ascending order of
    level, a missing, zero or [NaN] level counting as 0, so that the
    cells of level 0 lie below all others; the cells drawn are exactly
    the features that have both grid coordinates, each once. *)
Theorem dengue_cells_by_level (features : list Feature) :
  Permutation (gridsWithXY features) (sortedGrids features)
  /\ Sorted lowerLevelFirst (sortedGrids features)
  /\ (forall d, In d (sortedGrids features) <->
                In d features /\ grid_x d <> None /\ grid_y d <> None).
Proof.
  unfold sortedGrids. split; [apply SortFacts.sort_perm|]. split.
  - apply SortFacts.sort_Sorted with (dom := fun _ => True).
    + intros a b _ _. unfold after, byLevel, lowerLevelFirst.
      rewrite sub_pos. apply ltb_leb.
    + intros a b _ _. unfold after, byLevel, lowerLevelFirst.
      rewrite sub_pos. apply ltb_false_leb; apply levelNumOf_not_nan.
    + apply Forall_forall. auto.
  - intros d. split.
    + intros H. apply (Permutation_in d (Permutation_sym (SortFacts.sort_perm byLevel _))) in H.
      unfold gridsWithXY in H. apply filter_In in H as (Hin & Hxy).
      split; [exact Hin|]. destruct (grid_x d), (grid_y d); try discriminate.
      split; discriminate.
    + intros (Hin & Hx & Hy).
      apply (Permutation_in d (SortFacts.sort_perm byLevel _)).
      unfold gridsWithXY. apply filter_In. split; [exact Hin|].
      destruct (grid_x d), (grid_y d); congruence.
Qed.

Lemma tables_agree (l : float) : levelColors l = None -> opacityMap l = None.
Proof.
  unfold levelColors, opacityMap.
  destruct (l =? 0)%float; [discriminate|].
  destruct (l =? 1)%float; [discriminate|].
  destruct (l =? 2)%float; [discriminate|].
  destruct (l =? 3)%float; [discriminate|].
  destruct (l =? 4)%float; [discriminate|].
  destruct (l =? 5)%float; [discriminate|]. reflexivity.
Qed.

(** X10: a level that is not one of 0 to 5 is painted with the colour
    of level 1 but with the opacity of level 0: the two fallbacks of the
    style functions differ.  A missing level gets the colour and the
    opacity of level 0. *)
Theorem unknown_level_style (l : float) :
  levelColors l = None ->
  getColorByLevel (Some l) = getColorByLevel (Some 1%float)
  /\ getOpacityByLevel (Some l) = getOpacityByLevel (Some 0%float)
  /\ getColorByLevel (Some 1%float) <> getColorByLevel (Some 0%float)
  /\ getOpacityByLevel (Some 1%float) <> getOpacityByLevel (Some 0%float).
Proof.
  intros Hl. split; [|split; [|split]].
  - unfold getColorByLevel. rewrite Hl.
    destruct (l =? 0)%float eqn:E; [|reflexivity].
    unfold levelColors in Hl. rewrite E in Hl. discriminate.
  - unfold getOpacityByLevel, levelNumOf, or_else.
    destruct (truthy l); [|reflexivity].
    rewrite (tables_agree l Hl). reflexivity.
  - discriminate.
  - vm_compute. discriminate.
Qed.

Lemma unknown_level_style_witness :
  getColorByLevel (Some 7%float) = Some "#1a237e"%string
  /\ getOpacityByLevel (Some 7%float) = Some 0.5%float.
Proof.
  destruct (unknown_level_style 7%float) as (Hc & Ho & _); [reflexivity|].
  rewrite Hc, Ho. split; reflexivity.
Defined.

End GridOnlyProofs.

(* ================================================================== *)
(** ** Parliament view: seats, candidates and circles                  *)
(* ================================================================== *)

Module ParliamentMore.
Import JS Parliament Float754 FloatArith ArrayFacts Spec Terms Circle.

Lemma pushRows_polar (Math_cos Math_sin : float -> float) (rads : list float)
      (counts : list float) : forall rowIndex seats,
  pushRows Math_cos Math_sin counts rowIndex rads = Some seats ->
  Forall (fun c => x c = (r c * Math_cos (theta c))%float
                   /\ y c = (r c * Math_sin (theta c))%float) seats.
Proof.
  induction counts as [|count counts IH]; intros rowIndex seats; cbn [pushRows].
  - intros [= <-]. constructor.
  - destruct (rowSeats Math_cos Math_sin count rowIndex (nth rowIndex rads nan))
      as [row|] eqn:Er; [|discriminate].
    destruct (pushRows Math_cos Math_sin counts (S rowIndex) rads) as [more|] eqn:Em;
      [|discriminate].
    intros [= <-]. apply Forall_app. split; [|now apply (IH (S rowIndex))].
    eapply Forall_impl; [|exact (GenerateProofs.rowSeats_radius _ _ _ _ _ _ Er)].
    cbn beta. intros c (-> & -> & ->). split; reflexivity.
Qed.

(** X11: the seats that [generateParliamentSeats] returns are numbered
    1, 2, 3, ... in the order of the array; each seat lies where its
    polar coordinates say ([x = r cos theta], [y = r sin theta]); and
    the array runs from left to right, by non-increasing angle, whenever
    the angles are numbers. *)
Theorem generated_seats_consistent (Math_cos Math_sin : float -> float)
        (totalSeats rowCount : Z) (innerRadius outerRadius : float) (seats : list Seat) :
  generateParliamentSeats Math_cos Math_sin totalSeats rowCount innerRadius outerRadius
    = Some seats ->
  map number seats = range 1 (Z.of_nat (length seats) + 1)
  /\ Forall (polar Math_cos Math_sin) seats
  /\ (Forall (fun s => is_nan (theta (pos s)) = false) seats ->
      Sorted leftToRight (map pos seats)).
Proof.
  intros H. split; [|split].
  - rewrite (GenerateProofs.generated_numbers _ _ _ _ _ _ _ H). unfold range.
    replace (Z.to_nat (Z.of_nat (length seats) + 1 - 1)) with (length seats) by lia.
    apply map_ext. intros k. lia.
  - unfold generateParliamentSeats in H.
    destruct (pushRows _ _ _ _ _) as [l|] eqn:E; [|discriminate].
    injection H as <-.
    apply (GenerateProofs.Forall_numberFrom
             (fun c => x c = (r c * Math_cos (theta c))%float
                       /\ y c = (r c * Math_sin (theta c))%float)).
    apply SortFacts.sort_Forall. exact (pushRows_polar _ _ _ _ _ _ E).
  - exact (GenerateProofs.generated_order _ _ _ _ _ _ _ H).
Qed.

Lemma generated_seats_consistent_witness :
  map number Samples.sampleSeats = [1; 2; 3; 4; 5]
  /\ Forall (polar (fun a => a) (fun a => a)) Samples.sampleSeats
  /\ Sorted leftToRight (map pos Samples.sampleSeats).
Proof.
  destruct (generated_seats_consistent (fun a => a) (fun a => a) 5 2 60 260
              Samples.sampleSeats ltac:(vm_compute; reflexivity)) as (Hn & Hp & Hs).
  split; [exact Hn|]. split; [exact Hp|].
  apply Hs. repeat constructor.
Defined.

(** X12: [loadCandidateData] keeps every row of the file and orders
    them in party blocks, independents first, then DPP, then KMT, with
    the most voted first inside a block (the order holds when the vote
    counts are numbers). *)
Theorem candidates_in_party_blocks (rows : list Candidate) :
  Permutation rows (loadCandidateData rows)
  /\ (Forall numericVotes rows -> StronglySorted loadOrder (loadCandidateData rows)).
Proof.
  split; [apply SortFacts.sort_perm|].
  intros H. apply Sorted_StronglySorted.
  - intros a b c. apply BindingProofs.loadOrder_trans.
  - now apply BindingProofs.loadCandidateData_Sorted.
Qed.

Lemma candidates_in_party_blocks_witness :
  map candidateName (loadCandidateData Samples.sampleRows) = ["D"; "B"; "A"; "C"]%string
  /\ StronglySorted loadOrder (loadCandidateData Samples.sampleRows).
Proof.
  split; [reflexivity|].
  apply (candidates_in_party_blocks Samples.sampleRows). repeat constructor.
Defined.

(** X13: the radius of a circle is always a number when the fallback
    radius is one, whatever the vote count of the seat ([NaN], zero,
    negative or infinite included); and the radius that is drawn,
    [d.radius || baseRadius], is moreover never zero when the fallback
    radius is not. *)
Theorem circle_radius_is_number (baseRadius' votes' : float) :
  is_nan baseRadius' = false ->
  is_nan (seatRadius baseRadius' votes') = false
  /\ is_nan (circleRadius baseRadius' votes') = false
  /\ (truthy baseRadius' = true -> truthy (circleRadius baseRadius' votes') = true).
Proof.
  intros Hb.
  assert (Hs : is_nan (seatRadius baseRadius' votes') = false).
  { unfold seatRadius.
    destruct (truthy votes' && (0 <? votes')%float) eqn:E; [|exact Hb].
    apply andb_prop in E as (_ & Hpos). unfold radiusFormula, Math_sqrt.
    eapply sqrt_div_not_nan; [vm_compute; reflexivity | exact Hpos]. }
  split; [exact Hs|]. unfold circleRadius, or_else.
  destruct (truthy (seatRadius baseRadius' votes')) eqn:Et.
  - split; [exact Hs|]. intros _. exact Et.
  - split; [exact Hb|]. intros Htb. exact Htb.
Qed.

Lemma circle_radius_is_number_witness :
  is_nan (seatRadius 18 nan) = false
  /\ is_nan (seatRadius 18 infinity) = false
  /\ truthy (circleRadius 18 0) = true.
Proof.
  destruct (circle_radius_is_number 18 nan eq_refl) as (H1 & _).
  destruct (circle_radius_is_number 18 infinity eq_refl) as (H2 & _).
  destruct (circle_radius_is_number 18 0 eq_refl) as (_ & _ & H3).
  split; [exact H1|]. split; [exact H2 | apply H3; reflexivity].
Defined.



End ParliamentMore.

(* ================================================================== *)
(** ** Jenks breaks: no classes                                        *)
(* ================================================================== *)

Module JenksMore.
Import JS Jenks ArrayFacts.

(** X15: asked for zero or a negative number of classes,
    [jenksNaturalBreaks] returns an empty array for every data set,
    without raising an error. *)
Theorem jenks_no_classes (data : list float) (nClasses : Z) :
  nClasses <= 0 -> jenksNaturalBreaks data nClasses = Return [].
Proof.
  intros Hk. unfold jenksNaturalBreaks. destruct data as [|d0 data']; [reflexivity|].
  set (data := d0 :: data').
  set (sortedData := sort byValue data).
  assert (Hlen : 0 < Z.of_nat (length sortedData)).
  { subst sortedData data. rewrite SortFacts.sort_length. cbn [length]. lia. }
  set (k := if Z.of_nat (length sortedData) <? nClasses
            then Z.of_nat (length sortedData) else nClasses).
  assert (Hk0 : k = nClasses)
    by (subst k; destruct (Z.ltb_spec (Z.of_nat (length sortedData)) nClasses); lia).
  destruct (fold_left (outerStep sortedData k) (range 0 (Z.of_nat (length sortedData))) _)
    as [v [M L]].
  rewrite (range_empty 1 (k + 1)) by lia. reflexivity.
Qed.

Lemma jenks_no_classes_witness :
  jenksNaturalBreaks Samples.threeGroups 0 = Return []
  /\ jenksNaturalBreaks Samples.threeGroups (-2) = Return [].
Proof.
  split; apply jenks_no_classes; lia.
Defined.

End JenksMore.

(* ================================================================== *)
(** ** Rectangle view: cells and sizes                                 *)
(* ================================================================== *)

Module RectProofs.
Import JS Parliament Float754 FloatArith ArrayFacts Spec Terms Rect.

Lemma cell_injective (g : Z) (i j : Z) :
  (g, i / gridCols, i mod gridCols) = (g, j / gridCols, j mod gridCols) -> i = j.
Proof.
  unfold gridCols. intros [= Hd Hm].
  rewrite (Z.div_mod i 6), (Z.div_mod j 6) by lia. now rewrite Hd, Hm.
Qed.

(** The seats of one grid. *)
Lemma gridSeats_spec (parties : list Party.t) (candidates : list Candidate)
      (g : Z) (a : Assignment) (seats : list RectSeat) :
  gridSeats parties candidates g a = Some seats ->
  NoDup (map cellOf seats)
  /\ (length seats <= Z.to_nat gridSize)%nat
  /\ Forall (fun s => gridIndex s = g
                      /\ 0 <= row s < gridRows /\ 0 <= col s < gridCols
                      /\ rank s = row s * gridCols + col s + 1
                      /\ rank s <= aCount a) seats.
Proof.
  unfold gridSeats.
  set (pc := filter _ candidates).
  set (n := Z.min (aCount a) gridSize).
  destruct (find _ parties) as [p|].
  - intros [= <-]. split; [|split].
    + rewrite map_map. unfold cellOf, seatAt. cbn [gridIndex row col].
      apply Finite.Injective_map_NoDup; [|apply NoDup_range].
      intros i j. apply cell_injective.
    + rewrite length_map, range_length. subst n. unfold gridSize, gridCols, gridRows. lia.
    + apply Forall_forall. intros s Hs. apply in_map_iff in Hs as (i & <- & Hi).
      apply in_range in Hi. subst n. unfold seatAt. cbn [gridIndex row col rank].
      unfold gridSize, gridCols, gridRows in *.
      repeat split; try (Z.to_euclidean_division_equations; lia).
  - destruct (range 0 n); [|discriminate].
    intros [= <-]. split; [constructor|]. split; [cbn; lia | constructor].
Qed.

Lemma seatsFrom_spec (parties : list Party.t) (candidates : list Candidate)
      (assignments : list Assignment) : forall g seats,
  seatsFrom parties candidates g assignments = Some seats ->
  NoDup (map cellOf seats)
  /\ Forall (fun s => g <= gridIndex s < g + Z.of_nat (length assignments)
                      /\ 0 <= row s < gridRows /\ 0 <= col s < gridCols
                      /\ rank s = row s * gridCols + col s + 1) seats.
Proof.
  induction assignments as [|a rest IH]; intros g seats; cbn [seatsFrom].
  - intros [= <-]. split; constructor.
  - destruct (gridSeats parties candidates g a) as [here|] eqn:Eh; [|discriminate].
    destruct (seatsFrom parties candidates (g + 1) rest) as [more|] eqn:Em; [|discriminate].
    intros [= <-].
    destruct (gridSeats_spec _ _ _ _ _ Eh) as (Hn1 & _ & Hf1).
    destruct (IH _ _ Em) as (Hn2 & Hf2).
    split.
    + rewrite map_app. apply NoDup_app; [exact Hn1 | exact Hn2|].
      intros c Hc1 Hc2.
      apply in_map_iff in Hc1 as (s1 & <- & Hs1), Hc2 as (s2 & Hc & Hs2).
      rewrite Forall_forall in Hf1, Hf2.
      destruct (Hf1 _ Hs1) as (Hg1 & _). destruct (Hf2 _ Hs2) as (Hg2 & _).
      unfold cellOf in Hc. injection Hc as Hgi _ _. lia.
    + apply Forall_app. split.
      * eapply Forall_impl; [|exact Hf1]. cbn beta. cbn [length].
        intros s (Hg & Hr & Hc & Hk & _). repeat split; try lia; assumption.
      * eapply Forall_impl; [|exact Hf2]. cbn beta. cbn [length].
        intros s (Hg & Hr & Hc & Hk). repeat split; try lia; assumption.
Qed.

(** X16: in the rectangle view no two squares share a cell: every
    square lies in one of the three grids, in a row below 7 and a column
    below 6, the square of rank [k] of a grid sits in row
    [(k - 1) / 6] and column [(k - 1) mod 6], and the cells are pairwise
    distinct.  With the party data of the view all 79 squares are
    produced, for every list of candidates. *)
Theorem rect_squares (candidates : list Candidate) :
  (forall parties seats,
     allSeats parties candidates = Some seats ->
     NoDup (map cellOf seats)
     /\ Forall (fun s => 0 <= gridIndex s < 3
                         /\ 0 <= row s < gridRows /\ 0 <= col s < gridCols
                         /\ rank s = row s * gridCols + col s + 1) seats)
  /\ exists seats,
       allSeats partyData candidates = Some seats /\ length seats = 79%nat.
Proof.
  split.
  - intros parties seats. unfold allSeats.
    destruct (gridAssignments parties) as [assignments|] eqn:Ea; [|discriminate].
    assert (Hlen : length assignments = 3%nat).
    { unfold gridAssignments in Ea.
      destruct parties as [|p0 [|p1 [|p2 ?]]]; try discriminate.
      injection Ea as <-. reflexivity. }
    intros H. destruct (seatsFrom_spec _ _ _ _ _ H) as (Hn & Hf).
    split; [exact Hn|]. rewrite Hlen in Hf. exact Hf.
  - unfold allSeats, gridAssignments, partyData.
    cbn [seatsFrom gridSeats find Party.id Party.count aParty aCount PartyId_eqb].
    eexists. split; [reflexivity|].
    rewrite !length_app, !length_map, !range_length. reflexivity.
Qed.

Lemma rect_squares_witness :
  exists seats,
    allSeats partyData Samples.sampleRows = Some seats
    /\ NoDup (map cellOf seats)
    /\ length seats = 79%nat.
Proof.
  destruct (rect_squares Samples.sampleRows) as (Hcells & seats & Hs & Hlen).
  exists seats. split; [exact Hs|].
  split; [apply (Hcells partyData seats Hs) | exact Hlen].
Defined.

(** X17: the side of a square is always a number when the base size is
    one, and the square of a candidate with votes never exceeds the base
    size. *)
Theorem square_size_bounded (baseSize' votes' : float) :
  is_nan baseSize' = false ->
  is_nan (seatSize baseSize' votes') = false
  /\ ((0 <? votes')%float = true -> leF (seatSize baseSize' votes') baseSize').
Proof.
  intros Hb.
  assert (H3 : is_nan (baseSize' * 0.3)%float = false)
    by (eapply mul_not_nan; [vm_compute; reflexivity | exact Hb]).
  assert (Hroot : (0 <? votes')%float = true ->
                  is_nan (Math_max (Math_sqrt (votes' / areaDivisor)) (baseSize' * 0.3)) = false).
  { intros Hpos. apply Math_max_not_nan; [|exact H3].
    eapply sqrt_div_not_nan; [vm_compute; reflexivity | exact Hpos]. }
  unfold seatSize. split.
  - destruct (truthy votes' && (0 <? votes')%float) eqn:E.
    + apply andb_prop in E as (_ & Hpos).
      apply Math_min_not_nan; [now apply Hroot | exact Hb].
    + eapply mul_not_nan; [vm_compute; reflexivity | exact Hb].
  - intros Hpos. rewrite (positive_truthy _ Hpos), Hpos. cbn [andb].
    unfold leF. apply Math_min_le_r; [now apply Hroot | exact Hb].
Qed.

Lemma square_size_bounded_witness :
  is_nan (seatSize (baseSize 1200 800) nan) = false
  /\ leF (seatSize (baseSize 1200 800) 90000) (baseSize 1200 800).
Proof.
  destruct (square_size_bounded (baseSize 1200 800) nan ltac:(vm_compute; reflexivity))
    as (H1 & _).
  destruct (square_size_bounded (baseSize 1200 800) 90000 ltac:(vm_compute; reflexivity))
    as (_ & H2).
  split; [exact H1 | apply H2; reflexivity].
Defined.

End RectProofs.

(* ================================================================== *)
(** ** Seat map tab: numbering of the fixed hemicycle                  *)
(* ================================================================== *)

Module HemicycleProofs.
Import JS ArrayFacts Terms Hemicycle.

Lemma range_shift (s n : Z) :
  map (fun i => s + i + 1) (range 0 n) = range (s + 1) (s + Z.max n 0 + 1).
Proof.
  unfold range. rewrite map_map.
  replace (Z.to_nat (s + Z.max n 0 + 1 - (s + 1))) with (Z.to_nat (n - 0)) by lia.
  apply map_ext. intros k. lia.
Qed.

Lemma map_seq_from {A} (n : nat) : forall (f : nat -> A) (s : nat),
  map f (seq s n) = map (fun k => f (s + k)%nat) (seq 0 n).
Proof.
  induction n as [|n IH]; intros f s; cbn [seq map]; [reflexivity|].
  f_equal; [f_equal; lia|].
  rewrite (IH f (S s)), (IH (fun k => f (s + k)%nat) 1%nat).
  apply map_ext. intros k. f_equal. lia.
Qed.

Lemma range_app (a b c : Z) : a <= b -> b <= c -> range a c = range a b ++ range b c.
Proof.
  intros Hab Hbc. unfold range.
  replace (Z.to_nat (c - a)) with (Z.to_nat (b - a) + Z.to_nat (c - b))%nat by lia.
  rewrite seq_app, map_app. f_equal.
  rewrite map_seq_from. apply map_ext. intros k. lia.
Qed.

Lemma seatTotal_nonneg (rows : list Z) : 0 <= seatTotal rows.
Proof.
  induction rows as [|n rows IH]; cbn [seatTotal fold_right]; [lia|].
  fold (seatTotal rows). lia.
Qed.

Section Numbering.
Variables Math_cos Math_sin : float -> float.

Lemma positionsFrom_spec (rows : list Z) : forall rowIndex seatIndex,
  map id (positionsFrom Math_cos Math_sin rows rowIndex seatIndex)
  = range (seatIndex + 1) (seatIndex + seatTotal rows + 1)
  /\ Forall (fun p => index p = id p - 1
                      /\ rowIndex <= row p < rowIndex + Z.of_nat (length rows))
            (positionsFrom Math_cos Math_sin rows rowIndex seatIndex).
Proof.
  induction rows as [|n rows IH]; intros rowIndex seatIndex;
    cbn [positionsFrom seatTotal fold_right].
  - split; [|constructor]. rewrite range_empty by lia. reflexivity.
  - fold (seatTotal rows). pose proof (seatTotal_nonneg rows) as Hpos.
    destruct (IH (rowIndex + 1) (seatIndex + Z.max n 0)) as (Hids & Hall).
    split.
    + rewrite map_app, Hids. unfold rowPositions. rewrite map_map. cbn [id].
      rewrite range_shift.
      rewrite (range_app (seatIndex + 1) (seatIndex + Z.max n 0 + 1)
                         (seatIndex + (Z.max n 0 + seatTotal rows) + 1)) by lia.
      f_equal. f_equal. lia.
    + apply Forall_app. split.
      * apply Forall_forall. intros p Hp. unfold rowPositions in Hp.
        apply in_map_iff in Hp as (i & <- & _). cbn [index id row length]. lia.
      * eapply Forall_impl; [|exact Hall]. cbn beta. cbn [length]. intros p Hp. lia.
Qed.

(** X18: the seats of the seat map carry the identifiers 1, 2, 3, ...
    in the order in which they are pushed, row after row from the
    innermost one, with [index = id - 1]; the hemicycle of the tab has
    79 seats in rows 0 to 6. *)
Theorem seat_positions_numbered :
  (forall rows rowIndex seatIndex,
     map id (positionsFrom Math_cos Math_sin rows rowIndex seatIndex)
     = range (seatIndex + 1) (seatIndex + seatTotal rows + 1))
  /\ map id (calculateSeatPositions Math_cos Math_sin) = range 1 80
  /\ Forall (fun p => index p = id p - 1 /\ 0 <= row p < 7)
            (calculateSeatPositions Math_cos Math_sin).
Proof.
  split; [intros rows rowIndex seatIndex; apply positionsFrom_spec|].
  unfold calculateSeatPositions.
  destruct (positionsFrom_spec seatsPerRow 0 0) as (Hids & Hall).
  split; [exact Hids | exact Hall].
Qed.

End Numbering.
End HemicycleProofs.

(* ================================================================== *)
(** ** Navigation bar: one entry is highlighted                        *)
(* ================================================================== *)

Module NavProofs.
Import Nav.
Import Ascii.AsciiSyntax.
#[local] Delimit Scope char_scope with char.

Lemma startsWith_refl_app (p rest : String.string) :
  startsWith (String.append p rest) p = true.
Proof.
  induction p as [|a p IH]; [reflexivity|].
  cbn [String.append startsWith]. now rewrite Ascii.eqb_refl, IH.
Qed.

Lemma startsWith_app (p s rest : String.string) :
  startsWith (String.append p (String.append s rest)) (String.append p s) = true.
Proof.
  induction p as [|a p IH]; cbn [String.append startsWith].
  - apply startsWith_refl_app.
  - now rewrite Ascii.eqb_refl, IH.
Qed.

(** Two paths that are active together are equal, or one continues the
    other after a slash. *)
Lemma active_together (p : String.string) : forall q c,
  isActive c p = true -> isActive c q = true ->
  p = q
  \/ startsWith q (String.append p "/"%string) = true
  \/ startsWith p (String.append q "/"%string) = true.
Proof.
  unfold isActive.
  induction p as [|a p IH]; intros q c Hp Hq.
  - destruct q as [|b q]; [now left|]. right. left.
    cbn [String.append startsWith] in *.
    destruct c as [|x c]; [cbn in Hq; discriminate|].
    cbn [String.eqb orb] in Hp.
    apply andb_prop in Hp as (Hx & _). apply Ascii.eqb_eq in Hx. subst x.
    apply orb_true_iff in Hq as [Hq|Hq].
    + cbn [String.eqb] in Hq. destruct (Ascii.eqb_spec "/" b) as [<-|]; [|discriminate].
      reflexivity.
    + apply andb_prop in Hq as (Hb & _). apply Ascii.eqb_eq in Hb. subst b. reflexivity.
  - destruct q as [|b q].
    + right. right. cbn [String.append startsWith] in *.
      destruct c as [|x c]; [cbn in Hp; discriminate|].
      cbn [String.eqb orb] in Hq.
      apply andb_prop in Hq as (Hx & _). apply Ascii.eqb_eq in Hx. subst x.
      apply orb_true_iff in Hp as [Hp|Hp].
      * cbn [String.eqb] in Hp. destruct (Ascii.eqb_spec "/" a) as [<-|]; [|discriminate].
        reflexivity.
      * apply andb_prop in Hp as (Ha & _). apply Ascii.eqb_eq in Ha. subst a. reflexivity.
    + destruct c as [|x c]; [cbn in Hp; discriminate|].
      cbn [String.append startsWith String.eqb] in *.
      assert (Hxa : x = a).
      { apply orb_true_iff in Hp as [Hp|Hp];
          apply andb_prop in Hp as (Ha & _); apply Ascii.eqb_eq in Ha; congruence. }
      assert (Hxb : x = b).
      { apply orb_true_iff in Hq as [Hq|Hq];
          apply andb_prop in Hq as (Hb & _); apply Ascii.eqb_eq in Hb; congruence. }
      subst a b. rewrite !Ascii.eqb_refl in *. cbn [andb] in *.
      destruct (IH q c Hp Hq) as [->|[H|H]]; [now left | right; now left | right; now right].
Qed.

(** X19: at most one entry of the navigation bar is highlighted,
    whatever the current path is, and each entry is highlighted on its
    own path and on every path below it. *)
Theorem one_nav_item_active (currentPath : String.string) :
  (forall p q, In p navItems -> In q navItems ->
     isActive currentPath p = true -> isActive currentPath q = true -> p = q)
  /\ (forall p rest, In p navItems ->
        isActive p p = true
        /\ isActive (String.append p (String.String "/" rest)) p = true).
Proof.
  split.
  - intros p q Hp Hq Ap Aq.
    destruct (active_together p q currentPath Ap Aq) as [H|[H|H]]; [exact H| |];
      cbn [navItems In] in Hp, Hq;
      repeat match goal with H : _ \/ _ |- _ => destruct H end;
      subst; try contradiction; try reflexivity; discriminate H.
  - intros p rest Hp. unfold isActive. split.
    + now rewrite String.eqb_refl.
    + apply orb_true_iff. right.
      exact (startsWith_app p "/"%string rest).
Qed.

Lemma one_nav_item_active_witness :
  isActive "/bar2"%string "/bar2"%string = true
  /\ isActive "/bar2"%string "/bar"%string = false
  /\ isActive "/bar/2"%string "/bar"%string = true.
Proof.
  destruct (one_nav_item_active "/bar2"%string) as (Hone & Hown).
  split; [apply (Hown "/bar2"%string String.EmptyString); cbn; tauto|].
  split; [|apply (Hown "/bar"%string "2"%string); cbn; tauto].
  destruct (isActive "/bar2"%string "/bar"%string) eqn:E; [|reflexivity].
  exfalso.
  assert (H : "/bar"%string = "/bar2"%string).
  { apply Hone; [cbn; tauto | cbn; tauto | exact E | reflexivity]. }
  discriminate H.
Defined.

End NavProofs.

(* ================================================================== *)
(** ** Photo script: which photo a name receives                       *)
(* ================================================================== *)

Module PhotoProofs.
Import Photos.

Lemma sameString_eq (a : JSString) : forall b, sameString a b = true <-> a = b.
Proof.
  induction a as [|x a IH]; intros [|y b]; cbn [sameString]; split;
    try discriminate; try reflexivity.
  - intros H. apply andb_prop in H as (Hx & Hab).
    apply Z.eqb_eq in Hx. apply IH in Hab. congruence.
  - intros [= -> ->]. rewrite Z.eqb_refl. cbn [andb]. now apply IH.
Qed.

Lemma find_first {A} (f : A -> bool) (before : list A) (e : A) (rest : list A) :
  Forall (fun m => f m = false) before -> f e = true ->
  find f (before ++ e :: rest) = Some e.
Proof.
  induction 1 as [|m before Hm _ IH]; intros He; cbn [app find].
  - now rewrite He.
  - rewrite Hm. now apply IH.
Qed.

(** X20: [findPhotoUrl] never invents a URL: a result is the URL of an
    entry of the mapping.  The first entry whose name is exactly the
    candidate's name is the one returned, even when an entry before it
    would match one of the looser comparisons.  When the result is
    [null], no entry has the candidate's name, not even up to blanks,
    and no entry name begins with the first word of the candidate's
    name. *)
Theorem photo_lookup (photoMapping : list Entry) (candidateName : JSString) :
  (forall url, findPhotoUrl photoMapping candidateName = Some url ->
     exists e, In e photoMapping /\ photoUrl e = url)
  /\ (forall before e rest,
        photoMapping = before ++ e :: rest ->
        Forall (fun m => name m <> candidateName) before ->
        name e = candidateName ->
        findPhotoUrl photoMapping candidateName = Some (photoUrl e))
  /\ (findPhotoUrl photoMapping candidateName = None ->
      Forall (fun m => name m <> candidateName
                       /\ removeSpaces (name m) <> removeSpaces candidateName
                       /\ startsWith (name m) (firstField candidateName) = false)
             photoMapping).
Proof.
  unfold findPhotoUrl. split; [|split].
  - intros url.
    repeat match goal with
           | |- context [find ?f photoMapping] =>
               let E := fresh "E" in
               destruct (find f photoMapping) as [entry|] eqn:E;
               [apply find_some in E as (Hin & _); intros [= <-]; eauto|]
           end.
    discriminate.
  - intros before e rest -> Hbefore He.
    rewrite (find_first _ before e rest); [reflexivity| |].
    + eapply Forall_impl; [|exact Hbefore]. cbn beta. intros m Hm.
      destruct (sameString (name m) candidateName) eqn:E; [|reflexivity].
      apply sameString_eq in E. contradiction.
    + now apply sameString_eq.
  - destruct (find _ photoMapping) eqn:E1; [discriminate|].
    destruct (find _ photoMapping) eqn:E2 in |- *; [discriminate|].
    destruct (find _ photoMapping) eqn:E3 in |- *; [discriminate|].
    destruct (find _ photoMapping) eqn:E4 in |- *; [discriminate|].
    intros _. apply Forall_forall. intros m Hm.
    pose proof (find_none _ _ E1 m Hm) as H1.
    pose proof (find_none _ _ E2 m Hm) as H2.
    pose proof (find_none _ _ E4 m Hm) as H4.
    cbn beta in *. split; [|split; [|exact H4]].
    + intros E. apply sameString_eq in E. congruence.
    + intros E. apply sameString_eq in E. congruence.
Qed.

Lemma photo_lookup_witness :
  findPhotoUrl [mkEntry [65; 32; 66] [1]; mkEntry [65] [2]] [65] = Some [2].
Proof.
  destruct (photo_lookup [mkEntry [65; 32; 66] [1]; mkEntry [65] [2]] [65])
    as (_ & Hexact & _).
  apply (Hexact [mkEntry [65; 32; 66] [1]] (mkEntry [65] [2]) []); [reflexivity| |reflexivity].
  constructor; [discriminate | constructor].
Defined.

Lemma removeSpaces_nil_inv (n : JSString) : n = [] -> removeSpaces n = [].
Proof. now intros ->. Qed.

(** X21: a candidate name that is empty or begins with a blank always
    receives a photo when the mapping is not empty: its first word is
    the empty string, with which every entry name begins, so the last
    comparison accepts the first entry.  In particular the empty name
    receives the photo of the first entry when no entry name is blank. *)
Theorem blank_name_gets_a_photo (e : Entry) (rest : list Entry) :
  (forall candidateName, firstField candidateName = [] ->
     exists url, findPhotoUrl (e :: rest) candidateName = Some url)
  /\ (Forall (fun m => removeSpaces (name m) <> []) (e :: rest) ->
      findPhotoUrl (e :: rest) [] = Some (photoUrl e)).
Proof.
  split.
  - intros candidateName Hf. unfold findPhotoUrl. rewrite Hf.
    assert (H4 : find (fun m => startsWith (name m) []) (e :: rest) = Some e)
      by reflexivity.
    rewrite H4.
    repeat match goal with
           | |- context [find ?f (e :: rest)] =>
               destruct (find f (e :: rest)); [eauto|]
           end.
    eauto.
  - intros Hno. rewrite Forall_forall in Hno.
    assert (H1 : find (fun m => sameString (name m) []) (e :: rest) = None).
    { match goal with |- ?f = None => destruct f as [m|] eqn:E end; [|reflexivity].
      apply find_some in E as (Hin & Hs). apply sameString_eq in Hs.
      exfalso. apply (Hno m Hin). now rewrite Hs. }
    assert (H2 : find (fun m => sameString (removeSpaces (name m)) []) (e :: rest) = None).
    { match goal with |- ?f = None => destruct f as [m|] eqn:E end; [|reflexivity].
      apply find_some in E as (Hin & Hs). apply sameString_eq in Hs.
      exfalso. now apply (Hno m Hin). }
    unfold findPhotoUrl.
    cbn [removeSpaces filter replaceAll map firstField].
    rewrite H1, H2. reflexivity.
Qed.

Lemma blank_name_gets_a_photo_witness :
  findPhotoUrl [mkEntry [65; 32; 66] [1]; mkEntry [65] [2]] [32; 67] = Some [1]
  /\ findPhotoUrl [mkEntry [65; 32; 66] [1]; mkEntry [65] [2]] [] = Some [1].
Proof.
  destruct (blank_name_gets_a_photo (mkEntry [65; 32; 66] [1]) [mkEntry [65] [2]])
    as (Hblank & Hempty).
  split.
  - destruct (Hblank [32; 67] eq_refl) as (url & Hurl). rewrite Hurl.
    vm_compute in Hurl. exact (eq_sym Hurl).
  - apply Hempty. repeat constructor; discriminate.
Defined.

End PhotoProofs.

(* ================================================================== *)
(** ** Treemap and bar views: the candidates of a party                *)
(* ================================================================== *)

Module TreemapProofs.
Import JS Parliament Float754 ArrayFacts Spec Terms Treemap.

Lemma leavesFrom_fields (party : Party.t) (cs : list Candidate) : forall i,
  map name (leavesFrom i party cs) = map candidateName cs
  /\ map votes (leavesFrom i party cs) = map Parliament.votes cs
  /\ map rank (leavesFrom i party cs) = range (i + 1) (i + 1 + Z.of_nat (length cs))
  /\ Forall (fun l => truthy (value l) = true /\ partyId l = Party.id party)
            (leavesFrom i party cs).
Proof.
  induction cs as [|c cs IH]; intros i; cbn [leavesFrom map length].
  - rewrite range_empty by lia. repeat split; constructor.
  - destruct (IH (i + 1)) as (Hn & Hv & Hr & Hf).
    rewrite Hn, Hv, Hr. repeat split.
    + unfold range.
      replace (Z.to_nat (i + 1 + Z.of_nat (S (length cs)) - (i + 1))) with (S (length cs)) by lia.
      replace (Z.to_nat (i + 1 + 1 + Z.of_nat (length cs) - (i + 1 + 1))) with (length cs) by lia.
      cbn [seq map rank]. f_equal; [lia|].
      rewrite <- seq_shift, map_map. apply map_ext. intros k. lia.
    + constructor; [|exact Hf]. cbn [value partyId]. split; [|reflexivity].
      unfold or_else. destruct (truthy (Parliament.votes c)) eqn:E; [exact E | reflexivity].
Qed.

Lemma leavesFrom_sorted (party : Party.t) (cs : list Candidate) : forall i,
  StronglySorted moreVotesFirst cs ->
  StronglySorted largerLeafFirst (leavesFrom i party cs).
Proof.
  induction cs as [|c cs IH]; intros i Hs; cbn [leavesFrom]; [constructor|].
  inversion Hs as [|? ? Hs' Hall]; subst. constructor; [now apply IH|].
  destruct (leavesFrom_fields party cs (i + 1)) as (_ & Hv & _).
  apply Forall_forall. intros l Hl.
  unfold largerLeafFirst. cbn [votes].
  assert (Hin : In (votes l) (map Parliament.votes cs))
    by (rewrite <- Hv; now apply in_map).
  apply in_map_iff in Hin as (c' & <- & Hc').
  rewrite Forall_forall in Hall. exact (Hall c' Hc').
Qed.

Lemma StronglySorted_firstn {A} (R : A -> A -> Prop) (l : list A) : forall n,
  StronglySorted R l -> StronglySorted R (firstn n l).
Proof.
  induction l as [|a l IH]; intros [|n] Hs; cbn [firstn]; try constructor.
  - inversion Hs; subst. now apply IH.
  - inversion Hs as [|? ? _ Hall]; subst.
    apply Forall_forall. intros b Hb. rewrite Forall_forall in Hall. apply Hall.
    revert Hb. clear. revert n. induction l as [|x l IHl]; intros [|n] Hb;
      cbn [firstn] in Hb; try contradiction.
    destruct Hb as [->|Hb]; [now left | right; eauto].
Qed.

Lemma slice0_length {A} (l : list A) (end_ : Z) :
  0 <= end_ -> (length (slice0 l end_) <= Z.to_nat end_)%nat.
Proof.
  intros He. unfold slice0. destruct (Z.ltb_spec end_ 0); [lia|].
  rewrite length_firstn. lia.
Qed.

(** X22: in the treemap (and in the stacked bar view, which builds its
    groups in the same way) every party group holds the first [count]
    candidates of that party in the order of the loaded list, ranked 1,
    2, 3, ...; the weight of a leaf, [votes || 1], is never zero and
    never [NaN]; and after [loadCandidateData] the leaves of a group
    come with the most voted first. *)
Theorem party_leaves (parties : list Party.t) (candidates : list Candidate) :
  Forall2 (fun party g =>
             let shown :=
               slice0 (filter (fun c => PartyId_eqb (Parliament.partyId c) (Party.id party))
                              candidates)
                      (Party.count party) in
             groupParty g = Party.id party
             /\ map name (children g) = map candidateName shown
             /\ map votes (children g) = map Parliament.votes shown
             /\ map rank (children g) = range 1 (1 + Z.of_nat (length shown))
             /\ (0 <= Party.count party ->
                 (length (children g) <= Z.to_nat (Party.count party))%nat)
             /\ Forall (fun l => truthy (value l) = true /\ partyId l = Party.id party)
                       (children g))
          parties (rootChildren parties candidates)
  /\ (forall rows,
        candidates = loadCandidateData rows -> Forall numericVotes rows ->
        Forall (fun g => StronglySorted largerLeafFirst (children g))
               (rootChildren parties candidates)).
Proof.
  split.
  - unfold rootChildren. induction parties as [|party parties IH]; cbn [map]; constructor;
      [|exact IH].
    cbv zeta. cbn [groupParty children].
    set (shown := slice0 _ (Party.count party)).
    destruct (leavesFrom_fields party shown 0) as (Hn & Hv & Hr & Hf).
    split; [reflexivity|]. split; [exact Hn|]. split; [exact Hv|].
    split; [exact Hr|]. split; [|exact Hf].
    intros Hc. rewrite <- (length_map name), Hn, length_map. now apply slice0_length.
  - intros rows -> Hnum. unfold rootChildren. apply Forall_forall. intros g Hg.
    apply in_map_iff in Hg as (party & <- & _). cbn [children].
    apply leavesFrom_sorted. unfold slice0. apply StronglySorted_firstn.
    now apply BindingProofs.partyCandidates_sorted.
Qed.

Lemma party_leaves_witness :
  Forall numericVotes Samples.sampleRows
  /\ map (fun g => map name (children g))
         (rootChildren partyData (loadCandidateData Samples.sampleRows))
     = [["D"]; ["B"]; ["A"; "C"]]%string
  /\ Forall (fun g => StronglySorted largerLeafFirst (children g))
            (rootChildren partyData (loadCandidateData Samples.sampleRows)).
Proof.
  assert (Hnum : Forall numericVotes Samples.sampleRows) by (repeat constructor).
  split; [exact Hnum|]. split; [reflexivity|].
  destruct (party_leaves partyData (loadCandidateData Samples.sampleRows)) as (_ & Hs).
  exact (Hs Samples.sampleRows eq_refl Hnum).
Defined.

End TreemapProofs.

(* ================================================================== *)
(** ** Map view: the map is created in at most twenty attempts         *)
(* ================================================================== *)

Module InitProofs.
Import Init.

Lemma tryCreate_from (createMap : Z -> bool) (fuel : nat) : forall attempts,
  0 <= attempts <= maxAttempts ->
  (Z.to_nat (maxAttempts - attempts) < fuel)%nat ->
  (forall k, 1 <= k <= attempts -> createMap k = false) ->
  exists n drawn,
    tryCreate createMap fuel attempts = Some (n, drawn)
    /\ attempts <= n <= maxAttempts
    /\ (forall k, 1 <= k < n -> createMap k = false)
    /\ (drawn = true -> attempts < n /\ createMap n = true)
    /\ (drawn = false -> n = maxAttempts /\ forall k, 1 <= k <= n -> createMap k = false).
Proof.
  unfold maxAttempts.
  induction fuel as [|fuel IH]; intros attempts Ha Hfuel Hfail; [lia|].
  cbn [tryCreate]. unfold maxAttempts.
  destruct (Z.leb_spec 20 attempts) as [Hge|Hlt].
  - exists attempts, false. split; [reflexivity|]. split; [lia|].
    split; [intros k Hk; apply Hfail; lia|]. split; [discriminate|].
    intros _. split; [lia | exact Hfail].
  - destruct (createMap (attempts + 1)) eqn:Ec.
    + exists (attempts + 1), true. split; [reflexivity|]. split; [lia|].
      split; [intros k Hk; apply Hfail; lia|]. split; [|discriminate].
      intros _. split; [lia | exact Ec].
    + destruct (IH (attempts + 1)) as (n & drawn & Hrun & Hn & Hbefore & Hyes & Hno);
        [lia | lia | |].
      * intros k Hk. destruct (Z.eq_dec k (attempts + 1)) as [->|]; [exact Ec|].
        apply Hfail. lia.
      * exists n, drawn. split; [exact Hrun|]. split; [lia|].
        split; [exact Hbefore|]. split; [|exact Hno].
        intros Hd. destruct (Hyes Hd) as (H1 & H2). split; [lia | exact H2].
Qed.

(** X23: [initMap] calls [createMap] at most 20 times: it stops at the
    first call that succeeds and draws the layers once, and gives up,
    drawing nothing, after 20 calls that all failed. *)
Theorem map_creation_is_bounded (createMap : Z -> bool) (fuel : nat) :
  (20 < fuel)%nat ->
  exists n drawn,
    tryCreate createMap fuel 0 = Some (n, drawn)
    /\ 0 <= n <= maxAttempts
    /\ (forall k, 1 <= k < n -> createMap k = false)
    /\ (drawn = true -> 1 <= n /\ createMap n = true)
    /\ (drawn = false -> n = maxAttempts /\ forall k, 1 <= k <= n -> createMap k = false).
Proof.
  intros Hfuel.
  destruct (tryCreate_from createMap fuel 0) as (n & drawn & Hrun & Hn & Hbefore & Hyes & Hno).
  - unfold maxAttempts. lia.
  - unfold maxAttempts. cbn. lia.
  - intros k Hk. lia.
  - exists n, drawn. split; [exact Hrun|]. split; [exact Hn|].
    split; [exact Hbefore|]. split; [|exact Hno].
    intros Hd. destruct (Hyes Hd) as (H1 & H2). split; [lia | exact H2].
Qed.

Lemma map_creation_is_bounded_witness :
  exists n drawn,
    tryCreate (fun k => 3 <=? k) 21 0 = Some (n, drawn)
    /\ 0 <= n <= maxAttempts
    /\ (drawn = true -> 1 <= n /\ (3 <=? n) = true).
Proof.
  destruct (map_creation_is_bounded (fun k => 3 <=? k) 21 ltac:(lia))
    as (n & drawn & Hrun & Hn & _ & Hyes & _).
  exists n, drawn. split; [exact Hrun|]. split; [exact Hn | exact Hyes].
Defined.

End InitProofs.
